(** * GoTgBot: quiz sessions and leaderboard, embedded from the Go sources

    The development follows the packages of the repository:
    - [Go]           the fragment of the Go runtime the code relies on
                     (wrapping [int] arithmetic, run-time panics, slices,
                     [strings.Index], [strings.Split], [strconv.Atoi]);
    - [Leaderboard]  internal/service/leaderboard.go;
    - [Quiz]         the question parser, the shuffle and the session types
                     of package service;
    - [Telegram]     internal/telegram/handler.go.

    Definitions come first; the lemmas and the theorems about them follow in
    the modules whose names end in [Facts]. *)

From stdpp Require Import base numbers option list gmap strings sorting.
From Stdlib Require Import ZArith Lia Ascii.

Local Open Scope Z_scope.

(* ===================================================================== *)
(** * The Go runtime fragment                                             *)
(* ===================================================================== *)

Module Go.

(** A run-time panic aborts the call; the code never recovers from one. *)
Inductive panic : Set :=
| DivideByZero
| IndexOutOfRange
| SliceBoundsOutOfRange
| InvalidArgument.

Inductive result (A : Type) : Type :=
| Ok (a : A)
| Panic (p : panic).
Global Arguments Ok {A} a.
Global Arguments Panic {A} p.

Global Instance result_ret : MRet result := λ A a, Ok a.
Global Instance result_bind : MBind result := λ A B f m,
  match m with
  | Ok a => f a
  | Panic p => Panic p
  end.

Definition panics {A} (r : result A) : bool :=
  match r with Ok _ => false | Panic _ => true end.

(** [int] is the 64-bit signed integer of the platforms the bot is built
    for; arithmetic wraps around silently. *)
Definition MaxInt : Z := 2 ^ 63 - 1.
Definition MinInt : Z := - 2 ^ 63.

Definition wrap (z : Z) : Z := (z + 2 ^ 63) `mod` 2 ^ 64 - 2 ^ 63.

Definition int_add (a b : Z) : Z := wrap (a + b).
Definition int_mul (a b : Z) : Z := wrap (a * b).

(** Integer division truncates toward zero and panics on a zero divisor. *)
Definition int_div (a b : Z) : result Z :=
  if decide (b = 0) then Panic DivideByZero else Ok (wrap (a `quot` b)).

(** [len(s)] as an [int]. *)
Definition len {A} (s : list A) : Z := Z.of_nat (length s).

(** [s[i]]: panics outside [0, len(s)). *)
Definition index {A} (s : list A) (i : Z) : result A :=
  if decide (0 ≤ i) then
    match s !! Z.to_nat i with
    | Some x => Ok x
    | None => Panic IndexOutOfRange
    end
  else Panic IndexOutOfRange.

(** [s[:hi]] for a slice whose capacity is its length (as for the result
    of [make([]T, n)]): panics outside [0, len(s)]. *)
Definition slice_to {A} (s : list A) (hi : Z) : result (list A) :=
  if decide (0 ≤ hi ≤ len s) then Ok (take (Z.to_nat hi) s)
  else Panic SliceBoundsOutOfRange.

(** ** Strings

    A Go string is a sequence of bytes, as a Rocq [string] is. *)

Definition strlen (s : string) : Z := Z.of_nat (String.length s).

Fixpoint str_drop (n : nat) (s : string) : string :=
  match n, s with
  | S n, String _ s' => str_drop n s'
  | _, _ => s
  end.

Fixpoint str_take (n : nat) (s : string) : string :=
  match n, s with
  | S n, String c s' => String c (str_take n s')
  | _, _ => EmptyString
  end.

(** [s[lo:hi]] and [s[lo:]]: panic unless [0 ≤ lo ≤ hi ≤ len(s)]. *)
Definition str_slice (s : string) (lo hi : Z) : result string :=
  if decide (0 ≤ lo ∧ lo ≤ hi ∧ hi ≤ strlen s)
  then Ok (str_take (Z.to_nat (hi - lo)) (str_drop (Z.to_nat lo) s))
  else Panic SliceBoundsOutOfRange.

Definition str_from (s : string) (lo : Z) : result string :=
  str_slice s lo (strlen s).

(** [s[i]], a byte. *)
Definition str_index (s : string) (i : Z) : result ascii :=
  if decide (0 ≤ i) then
    match String.get (Z.to_nat i) s with
    | Some c => Ok c
    | None => Panic IndexOutOfRange
    end
  else Panic IndexOutOfRange.

(** [strings.Index(s, sep)] for a separator of one byte: the index of
    its first occurrence, or -1. *)
Fixpoint IndexByte (s : string) (sep : ascii) : Z :=
  match s with
  | EmptyString => -1
  | String c s' =>
      if decide (c = sep) then 0
      else let i := IndexByte s' sep in
           if decide (i < 0) then -1 else i + 1
  end.

(** [strings.Split(s, sep)] for a separator of one byte: the fields
    between the separators, one more than there are separators. *)
Fixpoint Split (s : string) (sep : ascii) : list string :=
  match s with
  | EmptyString => [EmptyString]
  | String c s' =>
      if decide (c = sep) then EmptyString :: Split s' sep
      else match Split s' sep with
           | field :: fields => String c field :: fields
           | [] => [String c EmptyString]
           end
  end.

Definition byte (c : ascii) : Z := Z.of_nat (nat_of_ascii c).

Definition isDigit (c : ascii) : bool :=
  bool_decide (48 ≤ byte c ≤ 57).

(** The value of a run of decimal digits read after [acc]; [None] when a
    byte is not a digit. *)
Fixpoint digitsValue (s : string) (acc : Z) : option Z :=
  match s with
  | EmptyString => Some acc
  | String c s' =>
      if isDigit c then digitsValue s' (acc * 10 + (byte c - 48))
      else None
  end.

Inductive NumError : Set := ErrSyntax | ErrRange.

(** [strconv.Atoi]: an optional sign and at least one decimal digit.
    With a syntax error the value is 0; out of the range of [int] the
    value is the nearest bound and the error is a range error. *)
Definition Atoi (s : string) : Z * option NumError :=
  match s with
  | EmptyString => (0, Some ErrSyntax)
  | String c s' =>
      let negative := bool_decide (c = "-"%char) in
      let digits :=
        if bool_decide (c = "-"%char) || bool_decide (c = "+"%char)
        then s' else s in
      match digits with
      | EmptyString => (0, Some ErrSyntax)
      | _ =>
          match digitsValue digits 0 with
          | None => (0, Some ErrSyntax)
          | Some n =>
              let v := if negative then - n else n in
              if decide (MaxInt < v) then (MaxInt, Some ErrRange)
              else if decide (v < MinInt) then (MinInt, Some ErrRange)
              else (v, None)
          end
      end
  end.

(** The decimal digits of [n ≥ 0] in front of [acc]; [fuel] bounds the
    number of digits. *)
Fixpoint digitsOf (fuel : nat) (n : Z) (acc : string) : string :=
  let acc := String (ascii_of_nat (Z.to_nat (48 + n `mod` 10))) acc in
  match fuel with
  | O => acc
  | S fuel => if decide (n < 10) then acc else digitsOf fuel (n `div` 10) acc
  end.

(** The verb [%d] of [fmt.Sprintf] on an [int]. *)
Definition Itoa (n : Z) : string :=
  if decide (n < 0)
  then String "-"%char (digitsOf (Z.to_nat (Z.log2 (- n))) (- n) EmptyString)
  else digitsOf (Z.to_nat (Z.log2 n)) n EmptyString.

(** [string(b)] for a byte [b]: the UTF-8 encoding of the code point
    [b], one byte below 0x80 and two from there on. *)
Definition stringOfByte (b : ascii) : string :=
  if decide (byte b < 128) then String b EmptyString
  else String (ascii_of_nat (Z.to_nat (192 + byte b `div` 64)))
         (String (ascii_of_nat (Z.to_nat (128 + byte b `mod` 64)))
            EmptyString).

(** ** unicode/utf8 *)

(** The entry of the table [first] for a leading byte: the width of the
    encoding and the range accepted for its second byte; [None] for a
    byte that cannot lead (the entries [xx]), and for ASCII. *)
Definition firstByte (c : Z) : option (nat * (Z * Z)) :=
  if decide (c < 194) then None
  else if decide (c < 224) then Some (2%nat, (128, 191))
  else if decide (c = 224) then Some (3%nat, (160, 191))
  else if decide (c = 237) then Some (3%nat, (128, 159))
  else if decide (c < 240) then Some (3%nat, (128, 191))
  else if decide (c = 240) then Some (4%nat, (144, 191))
  else if decide (c < 244) then Some (4%nat, (128, 191))
  else if decide (c = 244) then Some (4%nat, (128, 143))
  else None.

Definition continuation (o : option ascii) : bool :=
  match o with
  | Some c => bool_decide (128 ≤ byte c ≤ 191)
  | None => false
  end.

(** The number of bytes one step of [utf8.RuneCountInString] moves over
    at the head of [String c s']. *)
Definition runeWidth (c : ascii) (s' : string) : nat :=
  match firstByte (byte c) with
  | None => 1
  | Some (size, (lo, hi)) =>
      if decide (String.length s' < size - 1)%nat then 1%nat
      else match String.get 0 s' with
           | Some c1 =>
               if decide (byte c1 < lo ∨ hi < byte c1) then 1%nat
               else if decide (size = 2%nat) then 2%nat
               else if negb (continuation (String.get 1 s')) then 1%nat
               else if decide (size = 3%nat) then 3%nat
               else if negb (continuation (String.get 2 s')) then 1%nat
               else 4%nat
           | None => 1%nat
           end
  end.

(** [utf8.RuneCountInString]; [fuel] bounds the number of steps and
    [len(s)] is always enough. *)
Fixpoint runeCount (fuel : nat) (s : string) : Z :=
  match fuel, s with
  | S fuel, String c s' =>
      1 + runeCount fuel (str_drop (runeWidth c s' - 1) s')
  | _, _ => 0
  end.

Definition RuneCountInString (s : string) : Z :=
  runeCount (String.length s) s.

(** [utf8.ValidString]: every byte from 0x80 on starts an encoding that
    [utf8.DecodeRuneInString] accepts.  [fuel] bounds the number of
    steps and [len(s)] is always enough. *)
Fixpoint validLoop (fuel : nat) (s : string) : bool :=
  match fuel, s with
  | S fuel, String c s' =>
      if decide (byte c < 128) then validLoop fuel s'
      else match runeWidth c s' with
           | 1%nat => false
           | width => validLoop fuel (str_drop (width - 1) s')
           end
  | _, _ => true
  end.

Definition ValidString (s : string) : bool := validLoop (String.length s) s.

(** ** encoding/json

    [json.Marshal] writes a string as a quoted literal.  It walks the
    string with [utf8.DecodeRuneInString]: a byte that starts no valid
    encoding (the decoder answers [RuneError] with width 1) is written
    as the escape of U+FFFD, and every other byte or escape it writes
    stands for the character itself.  [json.Unmarshal] reads the literal
    back.  [jsonString s] is the string that comes back for [s]: [s]
    with each such byte replaced by the three bytes EF BF BD of
    U+FFFD. *)
Definition replacementChar : string :=
  String (ascii_of_nat 239)
    (String (ascii_of_nat 191) (String (ascii_of_nat 189) EmptyString)).

Fixpoint jsonStringLoop (fuel : nat) (s : string) : string :=
  match fuel, s with
  | S fuel, String c s' =>
      if decide (byte c < 128) then String c (jsonStringLoop fuel s')
      else match runeWidth c s' with
           | 1%nat => replacementChar +:+ jsonStringLoop fuel s'
           | width =>
               String c (str_take (width - 1) s')
               +:+ jsonStringLoop fuel (str_drop (width - 1) s')
           end
  | _, _ => EmptyString
  end.

Definition jsonString (s : string) : string :=
  jsonStringLoop (String.length s) s.

End Go.

(* ===================================================================== *)
(** * internal/service/leaderboard.go                                     *)
(* ===================================================================== *)

Module Leaderboard.
Import Go.

Record LeaderboardEntry : Set := mkEntry {
  UserID : Z;
  Username : string;
  FirstName : string;
  Score : Z;
  Total : Z;
  Percentage : Z;
  Date : string
}.

Record Leaderboard : Set := mkLeaderboard {
  Entries : list LeaderboardEntry
}.

Global Instance LeaderboardEntry_eq_dec : EqDecision LeaderboardEntry.
Proof. solve_decision. Defined.

(** The closure handed to [sort.Slice] in both [GetTop]s, on the two
    elements it compares. *)
Definition less (a b : LeaderboardEntry) : bool :=
  if decide (Percentage a = Percentage b)
  then bool_decide (Score a > Score b)
  else bool_decide (Percentage a > Percentage b).

(** [sort.Slice] belongs to the Go library; it is not stable, so the
    order of ties is its own business.  The sort is an operation the
    model is parametric in; [sort_contract] is what the library promises
    for a strict weak ordering such as [less]. *)
Class SortSlice := sortSlice : list LeaderboardEntry → list LeaderboardEntry.

Definition sort_contract `{SortSlice} : Prop :=
  ∀ l, sortSlice l ≡ₚ l ∧
       ∀ i j a b, (i < j)%nat → sortSlice l !! i = Some a →
                  sortSlice l !! j = Some b → less b a = false.

(** The test of the merge loop:
    [percentage > entry.Percentage ||
     (percentage == entry.Percentage && score > entry.Score)]. *)
Definition improves (percentage score : Z) (entry : LeaderboardEntry) : bool :=
  bool_decide (percentage > Percentage entry)
  || (bool_decide (percentage = Percentage entry)
      && bool_decide (score > Score entry)).

(** The [for i, entry := range Entries] loop of both [AddEntry]s: the
    first entry of [userID] is overwritten when the submission improves
    on it, and the loop is left.  [None]: the loop ran to its end
    without meeting [userID]. *)
Fixpoint mergeLoop (userID percentage score : Z) (newEntry : LeaderboardEntry)
    (entries : list LeaderboardEntry) : option (list LeaderboardEntry) :=
  match entries with
  | [] => None
  | entry :: rest =>
      if decide (UserID entry = userID) then
        Some ((if improves percentage score entry then newEntry else entry)
                :: rest)
      else (entry ::.) <$> mergeLoop userID percentage score newEntry rest
  end.

(** The [for i, entry := range top] loop of both [GetUserPosition]s,
    entered at index [i]. *)
Fixpoint positionLoop (userID : Z) (i : Z) (top : list LeaderboardEntry)
    : Z * option LeaderboardEntry :=
  match top with
  | [] => (-1, None)
  | entry :: rest =>
      if decide (UserID entry = userID) then (i + 1, Some entry)
      else positionLoop userID (i + 1) rest
  end.

(** ** MemoryLeaderboardService

    The mutex only serialises callers; a call is one atomic step here. *)
Module Memory.

Record MemoryLeaderboardService : Set := mkService {
  leaderboard : Leaderboard
}.

Definition NewMemoryLeaderboardService : MemoryLeaderboardService :=
  {| leaderboard := {| Entries := [] |} |}.

(** [now] is [time.Now().Format("02.01.2006 15:04")]. *)
Definition AddEntry (ms : MemoryLeaderboardService)
    (userID : Z) (username firstName : string) (score total : Z)
    (now : string) : result (bool * MemoryLeaderboardService) :=
  percentage ← int_div (int_mul score 100) total;
  let newEntry :=
    {| UserID := userID; Username := username; FirstName := firstName;
       Score := score; Total := total; Percentage := percentage;
       Date := now |} in
  match mergeLoop userID percentage score newEntry
          (Entries (leaderboard ms)) with
  | Some entries => Ok (true, {| leaderboard := {| Entries := entries |} |})
  | None =>
      Ok (true, {| leaderboard :=
                     {| Entries := Entries (leaderboard ms) ++ [newEntry] |} |})
  end.

Definition GetTop `{SortSlice} (ms : MemoryLeaderboardService) (limit : Z)
    : result (list LeaderboardEntry) :=
  let sorted := sortSlice (Entries (leaderboard ms)) in
  let limit := if decide (limit > len sorted) then len sorted else limit in
  slice_to sorted limit.

Definition GetUserPosition `{SortSlice} (ms : MemoryLeaderboardService)
    (userID : Z) : result (Z * option LeaderboardEntry) :=
  top ← GetTop ms (len (Entries (leaderboard ms)));
  Ok (positionLoop userID 0 top).

End Memory.

(** ** GistLeaderboardService

    The gist lives outside the process.  [document] is the entry array
    that [json.Unmarshal] reads out of the file [leaderboard.json] of
    the gist (empty when the file is absent or blank); [network] is the
    fate of the HTTP round trips still to come, [true] for a 200
    response with a well-formed body and [false] for anything
    [loadFromGist] or [saveToGist] turns into an error.  Once the list
    is used up every round trip succeeds. *)

(** An entry as it comes back from the JSON text that [json.MarshalIndent]
    makes of it: the numbers as they are, the strings through
    [jsonString]. *)
Definition jsonEntry (e : LeaderboardEntry) : LeaderboardEntry :=
  {| UserID := UserID e;
     Username := jsonString (Username e);
     FirstName := jsonString (FirstName e);
     Score := Score e;
     Total := Total e;
     Percentage := Percentage e;
     Date := jsonString (Date e) |}.

Module Gist.

Record GistLeaderboardService : Set := mkService {
  document : list LeaderboardEntry;
  network : list bool
}.

(** Whether the [k]-th round trip to come succeeds. *)
Definition succeeds (network : list bool) (k : nat) : bool :=
  nth k network true.

Definition roundTrip (gs : GistLeaderboardService)
    : bool * GistLeaderboardService :=
  match network gs with
  | [] => (true, gs)
  | ok :: rest => (ok, {| document := document gs; network := rest |})
  end.

(** [None] is a non-nil [error]. *)
Definition loadFromGist (gs : GistLeaderboardService)
    : option Leaderboard * GistLeaderboardService :=
  let '(ok, gs) := roundTrip gs in
  if ok then (Some {| Entries := document gs |}, gs) else (None, gs).

(** [true] is a nil [error]: the PATCH replaced the file by the text
    [json.MarshalIndent] made of the entries, so the document is now
    what that text reads back as. *)
Definition saveToGist (gs : GistLeaderboardService) (lb : Leaderboard)
    : bool * GistLeaderboardService :=
  let '(ok, gs) := roundTrip gs in
  if ok then
    (true, {| document := jsonEntry <$> Entries lb; network := network gs |})
  else (false, gs).

Definition AddEntry (gs : GistLeaderboardService)
    (userID : Z) (username firstName : string) (score total : Z)
    (now : string) : result (bool * GistLeaderboardService) :=
  let '(loaded, gs) := loadFromGist gs in
  match loaded with
  | None => Ok (false, gs)
  | Some lb =>
      percentage ← int_div (int_mul score 100) total;
      let newEntry :=
        {| UserID := userID; Username := username; FirstName := firstName;
           Score := score; Total := total; Percentage := percentage;
           Date := now |} in
      let lb :=
        match mergeLoop userID percentage score newEntry (Entries lb) with
        | Some entries => {| Entries := entries |}
        | None => {| Entries := Entries lb ++ [newEntry] |}
        end in
      let '(saved, gs) := saveToGist gs lb in
      if saved then Ok (true, gs) else Ok (false, gs)
  end.

Definition GetTop `{SortSlice} (gs : GistLeaderboardService) (limit : Z)
    : result (list LeaderboardEntry * GistLeaderboardService) :=
  let '(loaded, gs) := loadFromGist gs in
  match loaded with
  | None => Ok ([], gs)
  | Some lb =>
      let sorted := sortSlice (Entries lb) in
      let limit := if decide (limit > len sorted) then len sorted else limit in
      top ← slice_to sorted limit;
      Ok (top, gs)
  end.

Definition GetUserPosition `{SortSlice} (gs : GistLeaderboardService)
    (userID : Z)
    : result ((Z * option LeaderboardEntry) * GistLeaderboardService) :=
  '(all, gs) ← GetTop gs 1000;
  '(top, gs) ← GetTop gs (len all);
  Ok (positionLoop userID 0 top, gs).

End Gist.

(** Insertion sort, the way [sort.Slice] handles short slices (each
    element travels left while [less] says it comes before its
    neighbour).  It is one sort that meets [sort_contract], used to run
    the model on concrete leaderboards. *)
Fixpoint insertSorted (x : LeaderboardEntry) (sorted : list LeaderboardEntry)
    : list LeaderboardEntry :=
  match sorted with
  | [] => [x]
  | y :: rest => if less x y then x :: y :: rest else y :: insertSorted x rest
  end.

Definition insertionSort : SortSlice :=
  λ l, fold_left (λ sorted x, insertSorted x sorted) l [].

(** What the merge loop and the append that follows it leave in the
    store, in both services. *)
Definition merged (userID percentage score : Z) (newEntry : LeaderboardEntry)
    (entries : list LeaderboardEntry) : list LeaderboardEntry :=
  match mergeLoop userID percentage score newEntry entries with
  | Some entries' => entries'
  | None => entries ++ [newEntry]
  end.

(** ** The vocabulary of the specification

    What the specification says about the store, in its own words, to
    state the theorems with. *)

(** The entry a submission amounts to once its percentage is known. *)
Definition submission (userID : Z) (username firstName : string)
    (score total percentage : Z) (now : string) : LeaderboardEntry :=
  {| UserID := userID; Username := username; FirstName := firstName;
     Score := score; Total := total; Percentage := percentage;
     Date := now |}.

(** "Higher percentage wins; ties broken by higher score." *)
Definition strictlyBetter (new old : LeaderboardEntry) : Prop :=
  Percentage new > Percentage old
  ∨ (Percentage new = Percentage old ∧ Score new > Score old).

(** The stored entry of [userID] is [old], met after [pre] and before
    [post]. *)
Definition storedAs (entries : list LeaderboardEntry) (userID : Z)
    (pre : list LeaderboardEntry) (old : LeaderboardEntry)
    (post : list LeaderboardEntry) : Prop :=
  entries = pre ++ old :: post ∧ UserID old = userID
  ∧ ∀ e, e ∈ pre → UserID e ≠ userID.

Definition absent (entries : list LeaderboardEntry) (userID : Z) : Prop :=
  ∀ e, e ∈ entries → UserID e ≠ userID.

(** The best-wins merge of the submission [new] into [before]. *)
Definition bestWins (before : list LeaderboardEntry) (new : LeaderboardEntry)
    (after : list LeaderboardEntry) : Prop :=
  (∀ pre old post, storedAs before (UserID new) pre old post →
     (strictlyBetter new old → after = pre ++ new :: post)
     ∧ (¬ strictlyBetter new old → after = before))
  ∧ (absent before (UserID new) → after = before ++ [new]).

(** An entry whose strings are valid UTF-8, as every name received from
    Telegram and every entry read from a gist is. *)
Definition validEntry (e : LeaderboardEntry) : bool :=
  ValidString (Username e) && ValidString (FirstName e)
  && ValidString (Date e).

(** "Sorted descending by percentage, ties sorted descending by score". *)
Definition sortedDescending (top : list LeaderboardEntry) : Prop :=
  ∀ i j a b, (i < j)%nat → top !! i = Some a → top !! j = Some b →
    Percentage a > Percentage b
    ∨ (Percentage a = Percentage b ∧ Score b ≤ Score a).

(** A leaderboard of 1001 players: players 1 to 1000 answered 10 of 10,
    player 0 answered 0 of 10. *)
Definition perfect (n : nat) : LeaderboardEntry :=
  submission (Z.of_nat n) "" "" 10 10 100 "".
Definition lastPlace : LeaderboardEntry := submission 0 "" "" 0 10 0 "".
Definition crowded : list LeaderboardEntry :=
  lastPlace :: (perfect <$> seq 1 1000).

End Leaderboard.

(* ===================================================================== *)
(** * Package service: questions, parser, shuffle, sessions               *)
(* ===================================================================== *)

Module Quiz.
Import Go.

Record QuizQuestion : Set := mkQuestion {
  ID : Z;
  Question : string;
  Options : list string;
  Correct : Z
}.

Record QuizSession : Set := mkSession {
  UserID : Z;
  CurrentQuestion : Z;
  Score : Z;
  Questions : list QuizQuestion
}.

Global Instance QuizQuestion_eq_dec : EqDecision QuizQuestion.
Proof. solve_decision. Defined.

Global Instance QuizSession_eq_dec : EqDecision QuizSession.
Proof. solve_decision. Defined.

(** The label of option 0, byte for byte as the source file has it. *)
Definition labelFirst : string :=
  String.string_of_list_ascii
    (ascii_of_nat <$>
      [239; 163; 191; 195; 188; 195; 171; 195; 167; 226; 128; 147; 226;
       128; 162; 226; 128; 147; 226; 136; 158; 226; 128; 147; 194; 170;
       226; 128; 148; 195; 168; 226; 128; 147; 194; 170; 226; 128; 148;
       195; 165]%nat).

(** The label of option 1, byte for byte as the source file has it. *)
Definition labelSecond : string :=
  String.string_of_list_ascii
    (ascii_of_nat <$>
      [239; 163; 191; 195; 188; 195; 170; 195; 177; 226; 128; 147; 226;
       128; 162; 226; 128; 147; 226; 136; 158; 226; 128; 148; 195; 132;
       226; 128; 147; 226; 136; 158; 226; 128; 147; 194; 186]%nat).

(** The text of the first built-in question, byte for byte as the source file has it. *)
Definition defaultFirst : string :=
  String.string_of_list_ascii
    (ascii_of_nat <$>
      [226; 128; 147; 194; 176; 226; 128; 147; 226; 137; 164; 226; 128;
       147; 226; 136; 143; 226; 128; 147; 206; 169; 226; 128; 147; 226;
       136; 143; 226; 128; 147; 206; 169; 226; 128; 147; 226; 136; 158]%nat).

(** The text of the second built-in question, byte for byte as the source file has it. *)
Definition defaultSecond : string :=
  String.string_of_list_ascii
    (ascii_of_nat <$>
      [226; 128; 147; 195; 182; 226; 128; 148; 195; 137; 226; 128; 148;
       195; 132; 226; 128; 147; 226; 136; 143; 226; 128; 148; 195; 156;
       226; 128; 147; 226; 136; 158]%nat).

(** ** The question file *)

(** The double quote. *)
Definition quote : ascii := ascii_of_nat 34.

(** [strings.TrimSpace] belongs to the Go library (it trims every
    Unicode white space); the parser is parametric in it. *)
Class TrimSpaceFn := TrimSpace : string → string.

(** What the parser meets under the file name: [os.Open] fails, or the
    scanner hands out [lines] one by one and then reports [failed] (a
    read error, a line too long for its buffer). *)
Inductive QuestionFile : Set :=
| NoFile
| Scanned (lines : list string) (failed : bool).

Inductive LineError : Set :=
| ErrNoClosingQuote
| ErrNoIndicator
| ErrInvalidIndicator (e : NumError)
| ErrNotBinary (correct : Z)
| ErrEmptyQuestion.

Inductive LoadError : Set :=
| ErrOpen
| ErrParseLine (line : string) (e : LineError)
| ErrRead
| ErrNoQuestions.

(** A Go function returning [(value, error)] returns a pair whose second
    component is [None] for a nil error. *)
Definition parseQuestionLine `{TrimSpaceFn} (line : string)
    : result (string * Z * option LineError) :=
  tail ← str_from line 1;
  let quoteEnd := IndexByte tail quote + 1 in
  if decide (quoteEnd ≤ 0) then Ok (EmptyString, 0, Some ErrNoClosingQuote)
  else
    question ← str_slice line 1 quoteEnd;
    rest ← str_from line (quoteEnd + 1);
    let remaining := TrimSpace rest in
    if decide (strlen remaining = 0)
    then Ok (EmptyString, 0, Some ErrNoIndicator)
    else
      b ← str_index remaining 0;
      match Atoi (stringOfByte b) with
      | (_, Some e) => Ok (EmptyString, 0, Some (ErrInvalidIndicator e))
      | (correct, None) =>
          if decide (correct ≠ 0 ∧ correct ≠ 1)
          then Ok (EmptyString, 0, Some (ErrNotBinary correct))
          else if decide (RuneCountInString question = 0)
          then Ok (EmptyString, 0, Some ErrEmptyQuestion)
          else Ok (question, correct, None)
      end.

(** The [for scanner.Scan()] loop of [ParseQuizQuestions], entered with
    the questions read so far and the next identifier. *)
Fixpoint scanLoop `{TrimSpaceFn} (lines : list string)
    (questions : list QuizQuestion) (questionID : Z)
    : result (list QuizQuestion * option LoadError) :=
  match lines with
  | [] => Ok (questions, None)
  | text :: lines =>
      let line := TrimSpace text in
      if decide (line = EmptyString)
      then scanLoop lines questions questionID
      else
        '(question, correct, err) ← parseQuestionLine line;
        match err with
        | Some e => Ok ([], Some (ErrParseLine line e))
        | None =>
            scanLoop lines
              (questions ++ [{| ID := questionID; Question := question;
                                Options := [labelFirst; labelSecond];
                                Correct := correct |}])
              (int_add questionID 1)
        end
  end.

Definition ParseQuizQuestions `{TrimSpaceFn} (file : QuestionFile)
    : result (list QuizQuestion * option LoadError) :=
  match file with
  | NoFile => Ok ([], Some ErrOpen)
  | Scanned lines failed =>
      '(questions, err) ← scanLoop lines [] 1;
      match err with
      | Some e => Ok ([], Some e)
      | None =>
          if failed then Ok ([], Some ErrRead)
          else if decide (len questions = 0) then Ok ([], Some ErrNoQuestions)
          else Ok (questions, None)
      end
  end.

Definition DefaultQuizQuestions : list QuizQuestion :=
  [ {| ID := 1; Question := defaultFirst;
       Options := [labelFirst; labelSecond]; Correct := 1 |};
    {| ID := 2; Question := defaultSecond;
       Options := [labelFirst; labelSecond]; Correct := 0 |} ].

Definition LoadQuizQuestions `{TrimSpaceFn} (file : QuestionFile)
    : result (list QuizQuestion) :=
  '(questions, err) ← ParseQuizQuestions file;
  match err with
  | Some _ => Ok DefaultQuizQuestions
  | None => Ok questions
  end.

(** [strings.TrimSpace] on ASCII text, to run the parser with. *)
Definition asciiSpace (c : ascii) : bool :=
  bool_decide (9 ≤ byte c ≤ 13) || bool_decide (byte c = 32).

Fixpoint trimLeft (s : string) : string :=
  match s with
  | String c s' => if asciiSpace c then trimLeft s' else s
  | EmptyString => EmptyString
  end.

Fixpoint trimRight (s : string) : string :=
  match s with
  | EmptyString => EmptyString
  | String c s' =>
      match trimRight s' with
      | EmptyString => if asciiSpace c then EmptyString
                       else String c EmptyString
      | t => String c t
      end
  end.

Definition asciiTrimSpace : TrimSpaceFn := λ s, trimRight (trimLeft s).

(** ** The shuffle *)

(** [math/rand]: a source seeded from the clock and [Intn], which
    panics unless its argument is positive.  [rand_contract] is what the
    library promises for [Intn]. *)
Class Rand := {
  Source : Type;
  NewSource : Z → Source;
  Intn : Source → Z → Z * Source
}.

Definition rand_contract `{Rand} : Prop :=
  ∀ r n, 0 < n → 0 ≤ (Intn r n).1 < n.

Definition IntnChecked `{Rand} (r : Source) (n : Z) : result (Z * Source) :=
  if decide (n ≤ 0) then Panic InvalidArgument else Ok (Intn r n).

(** [a[i], a[j] = a[j], a[i]]: both operands are read, then [a[i]] and
    [a[j]] are written in this order. *)
Definition swap (a : list QuizQuestion) (i j : Z) : result (list QuizQuestion) :=
  xi ← index a i;
  xj ← index a j;
  Ok (<[Z.to_nat j := xi]> (<[Z.to_nat i := xj]> a)).

(** The loop [for i := len(shuffled) - 1; i > 0; i--] on the array
    behind [shuffled], entered at [i]. *)
Fixpoint fisherYates `{Rand} (i : nat) (r : Source) (a : list QuizQuestion)
    : result (list QuizQuestion) :=
  match i with
  | O => Ok a
  | S i' =>
      '(j, r) ← IntnChecked r (Z.of_nat i + 1);
      a ← swap a (Z.of_nat i) j;
      fisherYates i' r a
  end.

(** [ShuffleQuestions] on values: the elements of the slice it returns,
    from the elements of the slice it is given.  [seed] is
    [time.Now().UnixNano()]. *)
Definition ShuffleQuestions `{Rand} (seed : Z) (questions : list QuizQuestion)
    : result (list QuizQuestion) :=
  fisherYates (length questions - 1) (NewSource seed) questions.

Definition ShuffleQuestionsWithLimit `{Rand} (seed : Z)
    (questions : list QuizQuestion) (limit : Z)
    : result (list QuizQuestion) :=
  shuffled ← ShuffleQuestions seed questions;
  let limit :=
    if decide (limit ≤ 0 ∨ limit > len shuffled) then len shuffled
    else limit in
  slice_to shuffled limit.

(** *** The shuffle in memory

    Slices share their arrays, so whether the argument survives the call
    is a question about the heap: [Heap] maps an address to the array
    stored there, a slice is a window on one array. *)
Record Slice : Set := mkSlice {
  array : positive;
  offset : nat;
  extent : nat
}.

Definition elements (h : gmap positive (list QuizQuestion)) (s : Slice)
    : list QuizQuestion :=
  match h !! array s with
  | Some a => take (extent s) (drop (offset s) a)
  | None => []
  end.

(** [s[i]] read and written through the heap. *)
Definition load (h : gmap positive (list QuizQuestion)) (s : Slice) (i : Z)
    : result QuizQuestion :=
  index (elements h s) i.

Definition store (h : gmap positive (list QuizQuestion)) (s : Slice) (i : Z)
    (x : QuizQuestion) : result (gmap positive (list QuizQuestion)) :=
  if decide (0 ≤ i < Z.of_nat (extent s)) then
    match h !! array s with
    | Some a => Ok (<[array s := <[(offset s + Z.to_nat i)%nat := x]> a]> h)
    | None => Panic IndexOutOfRange
    end
  else Panic IndexOutOfRange.

Definition swapAt (h : gmap positive (list QuizQuestion)) (s : Slice)
    (i j : Z) : result (gmap positive (list QuizQuestion)) :=
  xi ← load h s i;
  xj ← load h s j;
  h ← store h s i xj;
  store h s j xi.

Fixpoint fisherYatesAt `{Rand} (i : nat) (r : Source)
    (h : gmap positive (list QuizQuestion)) (shuffled : Slice)
    : result (gmap positive (list QuizQuestion)) :=
  match i with
  | O => Ok h
  | S i' =>
      '(j, r) ← IntnChecked r (Z.of_nat i + 1);
      h ← swapAt h shuffled (Z.of_nat i) j;
      fisherYatesAt i' r h shuffled
  end.

(** The zero value of [QuizQuestion]. *)
Definition zeroQuestion : QuizQuestion :=
  {| ID := 0; Question := EmptyString; Options := []; Correct := 0 |}.

(** [copy(dst, src)] on the elements: as many as both slices hold. *)
Definition copied (dst src : list QuizQuestion) : list QuizQuestion :=
  take (length dst) src ++ drop (length src) dst.

(** A slice is a window that fits its array. *)
Definition validSlice (h : gmap positive (list QuizQuestion)) (s : Slice)
    : Prop :=
  ∃ a, h !! array s = Some a ∧ (offset s + extent s ≤ length a)%nat.

(** [make] takes an address the heap does not use yet and fills the new
    array with zero values; [copy] overwrites them from the argument. *)
Definition ShuffleQuestionsAt `{Rand} (seed : Z)
    (h : gmap positive (list QuizQuestion)) (questions : Slice)
    : result (gmap positive (list QuizQuestion) * Slice) :=
  let shuffled :=
    {| array := fresh (dom h); offset := 0; extent := extent questions |} in
  let h := <[array shuffled := replicate (extent questions) zeroQuestion]> h in
  let h :=
    <[array shuffled := copied (elements h shuffled) (elements h questions)]>
      h in
  h ← fisherYatesAt (extent shuffled - 1) (NewSource seed) h shuffled;
  Ok (h, shuffled).

(** A linear congruential generator, to run the shuffle with. *)
Definition lcg : Rand :=
  {| Source := Z;
     NewSource := λ seed, seed `mod` 2 ^ 64;
     Intn := λ r n,
       let r' := (r * 6364136223846793005 + 1442695040888963407)
                   `mod` 2 ^ 64 in
       ((r' `div` 2 ^ 33) `mod` n, r') |}.

(** ** The vocabulary of the specification *)

Definition contains (s : string) (c : ascii) : Prop :=
  c ∈ String.list_ascii_of_string s.

Global Instance contains_dec s c : Decision (contains s c).
Proof. unfold contains. apply _. Defined.

(** The malformed lines the specification names.  A line is a first byte
    (the opening quote, when the line is as it should be), the question
    text up to the next quote, that quote, and the rest.  It is malformed
    when the closing quote is missing, when nothing but white space
    follows the closing quote, when what follows it starts with a byte
    other than the digits 0 and 1, or when the question text is empty. *)
Inductive Malformed `{TrimSpaceFn} : string → Prop :=
| MissingClosingQuote c tail :
    ¬ contains tail quote → Malformed (String c tail)
| MissingDigit c text rest :
    ¬ contains text quote → TrimSpace rest = EmptyString →
    Malformed (String c (text +:+ String quote rest))
| InvalidDigit c text rest d remaining :
    ¬ contains text quote → TrimSpace rest = String d remaining →
    d ≠ "0"%char → d ≠ "1"%char →
    Malformed (String c (text +:+ String quote rest))
| EmptyText c rest :
    Malformed (String c (String quote rest)).

End Quiz.

(* ===================================================================== *)
(** * internal/telegram/handler.go                                        *)
(* ===================================================================== *)

Module Telegram.
Import Go.

(** [tgbotapi.User], the fields the bot reads. *)
Record User : Set := mkUser {
  ID : Z;
  UserName : string;
  FirstName : string
}.

(** The interface [service.LeaderboardService] with the two types of the
    repository that implement it; a method call dispatches on the
    constructor. *)
Inductive LeaderboardService : Set :=
| MemoryService (ms : Leaderboard.Memory.MemoryLeaderboardService)
| GistService (gs : Leaderboard.Gist.GistLeaderboardService).

Definition AddEntry (svc : LeaderboardService)
    (userID : Z) (username firstName : string) (score total : Z)
    (now : string) : result (bool * LeaderboardService) :=
  match svc with
  | MemoryService ms =>
      '(isNewBest, ms) ← Leaderboard.Memory.AddEntry ms userID username
                            firstName score total now;
      Ok (isNewBest, MemoryService ms)
  | GistService gs =>
      '(isNewBest, gs) ← Leaderboard.Gist.AddEntry gs userID username
                            firstName score total now;
      Ok (isNewBest, GistService gs)
  end.

Definition GetUserPosition `{Leaderboard.SortSlice}
    (svc : LeaderboardService) (userID : Z)
    : result ((Z * option Leaderboard.LeaderboardEntry) * LeaderboardService) :=
  match svc with
  | MemoryService ms =>
      position ← Leaderboard.Memory.GetUserPosition ms userID;
      Ok (position, MemoryService ms)
  | GistService gs =>
      '(position, gs) ← Leaderboard.Gist.GetUserPosition gs userID;
      Ok (position, GistService gs)
  end.

(** What [b.api.Send] is given.  The texts are fixed around the values
    kept here; every question goes out with one button per option,
    carrying the option and its callback data, and with the exit
    button. *)
Inductive Message : Set :=
| QuestionMessage (chatID number total : Z) (question : string)
    (buttons : list (string * string))
| CorrectMessage (chatID : Z)
| WrongMessage (chatID : Z) (correctAnswer : string)
| AbortedMessage (chatID : Z)
| FinishedMessage (chatID score total percentage : Z)
    (position : option Z).

Global Instance Message_eq_dec : EqDecision Message.
Proof. solve_decision. Defined.

(** The bot: its fields, and the messages it has sent so far, oldest
    first. *)
Record Bot : Type := mkBot {
  quizSessions : gmap Z Quiz.QuizSession;
  leaderboardService : LeaderboardService;
  quizQuestions : list Quiz.QuizQuestion;
  sent : list Message
}.

Definition send (b : Bot) (msg : Message) : Bot :=
  {| quizSessions := quizSessions b;
     leaderboardService := leaderboardService b;
     quizQuestions := quizQuestions b;
     sent := sent b ++ [msg] |}.

Definition withSessions (b : Bot) (sessions : gmap Z Quiz.QuizSession) : Bot :=
  {| quizSessions := sessions;
     leaderboardService := leaderboardService b;
     quizQuestions := quizQuestions b;
     sent := sent b |}.

Definition withService (b : Bot) (svc : LeaderboardService) : Bot :=
  {| quizSessions := quizSessions b;
     leaderboardService := svc;
     quizQuestions := quizQuestions b;
     sent := sent b |}.

(** [NewBot] once the Telegram API has accepted the token: the questions
    are loaded, no session is active, nothing has been sent. *)
Definition NewBot `{Quiz.TrimSpaceFn} (leaderboardService : LeaderboardService)
    (questionsFile : Quiz.QuestionFile) : result Bot :=
  questions ← Quiz.LoadQuizQuestions questionsFile;
  Ok {| quizSessions := ∅;
        leaderboardService := leaderboardService;
        quizQuestions := questions;
        sent := [] |}.

(** [fmt.Sprintf("quiz_%d_%d", questionIndex, i)]. *)
Definition callbackData (questionIndex i : Z) : string :=
  "quiz_" +:+ Itoa questionIndex +:+ "_" +:+ Itoa i.

Definition sendQuestion (b : Bot) (chatID questionIndex : Z) : result Bot :=
  match quizSessions b !! chatID with
  | None => Ok b
  | Some session =>
      if decide (questionIndex >= len (Quiz.Questions session)) then Ok b
      else
        question ← index (Quiz.Questions session) questionIndex;
        Ok (send b
              (QuestionMessage chatID (int_add questionIndex 1)
                 (len (Quiz.Questions session)) (Quiz.Question question)
                 (imap (λ i option,
                          (option, callbackData questionIndex (Z.of_nat i)))
                    (Quiz.Options question))))
  end.

(** [seed] is the clock read by [ShuffleQuestions]. *)
Definition startQuiz `{Quiz.Rand} (b : Bot) (chatID : Z) (seed : Z)
    : result Bot :=
  shuffledQuestions ← Quiz.ShuffleQuestions seed (quizQuestions b);
  let session :=
    {| Quiz.UserID := chatID; Quiz.CurrentQuestion := 0; Quiz.Score := 0;
       Quiz.Questions := shuffledQuestions |} in
  let b := withSessions b (<[chatID := session]> (quizSessions b)) in
  sendQuestion b chatID 0.

(** [now] is the clock read by [AddEntry]. *)
Definition finishQuiz `{Leaderboard.SortSlice} (b : Bot) (chatID : Z)
    (exited : bool) (user : User) (now : string) : result Bot :=
  match quizSessions b !! chatID with
  | None => Ok b
  | Some session =>
      let b := withSessions b (delete chatID (quizSessions b)) in
      if exited then Ok (send b (AbortedMessage chatID))
      else
        percentage ← int_div (int_mul (Quiz.Score session) 100)
                        (len (Quiz.Questions session));
        '(isNewBest, svc) ← AddEntry (leaderboardService b) (ID user)
                              (UserName user) (FirstName user)
                              (Quiz.Score session)
                              (len (Quiz.Questions session)) now;
        let b := withService b svc in
        if (isNewBest : bool) then
          '(position, entry, svc) ← GetUserPosition (leaderboardService b)
                                      (ID user);
          let b := withService b svc in
          Ok (send b
                (FinishedMessage chatID (Quiz.Score session)
                   (len (Quiz.Questions session)) percentage
                   (if decide (position ≠ -1) then Some position else None)))
        else
          Ok (send b
                (FinishedMessage chatID (Quiz.Score session)
                   (len (Quiz.Questions session)) percentage None))
  end.

(** [handleQuizAnswer] from the session lookup on, that is once the two
    indices are read off the callback data: the operation the
    specification calls submitAnswer.  The session is reached through a
    pointer kept in the map, so what the handler writes to it is written
    to the entry of the map. *)
Definition submitAnswer `{Leaderboard.SortSlice} (b : Bot) (chatID : Z)
    (questionIndex answerIndex : Z) (user : User) (now : string)
    : result Bot :=
  match quizSessions b !! chatID with
  | None => Ok b
  | Some session =>
      question ← index (Quiz.Questions session) questionIndex;
      let isCorrect := bool_decide (answerIndex = Quiz.Correct question) in
      '(session, resultMsg) ←
        (if isCorrect then
           Ok ({| Quiz.UserID := Quiz.UserID session;
                  Quiz.CurrentQuestion := Quiz.CurrentQuestion session;
                  Quiz.Score := int_add (Quiz.Score session) 1;
                  Quiz.Questions := Quiz.Questions session |},
               CorrectMessage chatID)
         else
           correctAnswer ← index (Quiz.Options question)
                              (Quiz.Correct question);
           Ok (session, WrongMessage chatID correctAnswer));
      let b := send b resultMsg in
      let session :=
        {| Quiz.UserID := Quiz.UserID session;
           Quiz.CurrentQuestion :=
             int_add (Quiz.CurrentQuestion session) 1;
           Quiz.Score := Quiz.Score session;
           Quiz.Questions := Quiz.Questions session |} in
      let b := withSessions b (<[chatID := session]> (quizSessions b)) in
      if decide (Quiz.CurrentQuestion session < len (Quiz.Questions session))
      then sendQuestion b chatID (Quiz.CurrentQuestion session)
      else finishQuiz b chatID false user now
  end.

(** The errors of [strconv.Atoi] are dropped: a field that is not a
    number reads as 0, a number beyond the range of [int] as the nearest
    bound. *)
Definition handleQuizAnswer `{Leaderboard.SortSlice} (b : Bot) (chatID : Z)
    (data : string) (user : User) (now : string) : result Bot :=
  let parts := Split data "_"%char in
  if decide (len parts ≠ 3) then Ok b
  else
    part1 ← index parts 1;
    part2 ← index parts 2;
    let questionIndex := (Atoi part1).1 in
    let answerIndex := (Atoi part2).1 in
    submitAnswer b chatID questionIndex answerIndex user now.

(** A user pressing answer buttons one after the other: the callback
    data of the button for option [i] of question [questionIndex], for
    each [(questionIndex, i)] of [answers]. *)
Fixpoint pressAll `{Leaderboard.SortSlice} (b : Bot) (chatID : Z)
    (user : User) (now : string) (answers : list (Z * Z)) : result Bot :=
  match answers with
  | [] => Ok b
  | (questionIndex, i) :: answers =>
      b ← handleQuizAnswer b chatID (callbackData questionIndex i) user now;
      pressAll b chatID user now answers
  end.

(** ** The vocabulary of the specification *)

(** The number of correct answers among [answers]. *)
Fixpoint correctAnswers (questions : list Quiz.QuizQuestion)
    (answers : list (Z * Z)) : Z :=
  match answers with
  | [] => 0
  | (questionIndex, i) :: answers =>
      (match index questions questionIndex with
       | Ok question => if decide (i = Quiz.Correct question) then 1 else 0
       | Panic _ => 0
       end) + correctAnswers questions answers
  end.

(** A question as the loader builds it: two options, one of them
    correct. *)
Definition wellFormed (question : Quiz.QuizQuestion) : Prop :=
  length (Quiz.Options question) = 2%nat
  ∧ (Quiz.Correct question = 0 ∨ Quiz.Correct question = 1).

(** An answer a button of the session can carry: a question of the
    session and an [int] for the option. *)
Definition validAnswer (total : Z) (answer : Z * Z) : Prop :=
  0 ≤ answer.1 < total ∧ MinInt ≤ answer.2 ≤ MaxInt.

(** A bot to run the handlers on: user 1 has been sent the first of the
    two built-in questions. *)
Definition sampleUser : User :=
  {| ID := 1; UserName := "user"; FirstName := "User" |}.

Definition freshBot : Bot :=
  {| quizSessions := ∅;
     leaderboardService :=
       MemoryService Leaderboard.Memory.NewMemoryLeaderboardService;
     quizQuestions := Quiz.DefaultQuizQuestions;
     sent := [] |}.

Definition midQuiz : Bot :=
  {| quizSessions :=
       {[ 1 := {| Quiz.UserID := 1; Quiz.CurrentQuestion := 0;
                  Quiz.Score := 0;
                  Quiz.Questions := Quiz.DefaultQuizQuestions |} ]};
     leaderboardService :=
       MemoryService Leaderboard.Memory.NewMemoryLeaderboardService;
     quizQuestions := Quiz.DefaultQuizQuestions;
     sent := [] |}.

End Telegram.

(* ===================================================================== *)
(** * Runs of the leaderboard store                                       *)
(* ===================================================================== *)

Module Submissions.
Import Go Leaderboard.

(** The arguments of one call of [AddEntry], with the clock it reads. *)
Record Call : Set := mkCall {
  callUser : Z;
  callUsername : string;
  callFirstName : string;
  callScore : Z;
  callTotal : Z;
  callNow : string
}.

(** The entry the call builds. *)
Definition entryOf (c : Call) : LeaderboardEntry :=
  submission (callUser c) (callUsername c) (callFirstName c) (callScore c)
    (callTotal c) (wrap (int_mul (callScore c) 100 `quot` callTotal c))
    (callNow c).

(** The calls made one after the other on the volatile store. *)
Fixpoint addEntries (ms : Memory.MemoryLeaderboardService) (calls : list Call)
    : result Memory.MemoryLeaderboardService :=
  match calls with
  | [] => Ok ms
  | c :: calls =>
      '(_, ms) ← Memory.AddEntry ms (callUser c) (callUsername c)
                   (callFirstName c) (callScore c) (callTotal c) (callNow c);
      addEntries ms calls
  end.

End Submissions.

(* ===================================================================== *)
(** * Scripted random numbers                                             *)
(* ===================================================================== *)

Module Scripted.

(** A source that hands out the numbers of a script one after the other,
    each reduced into the range [Intn] is asked for; the script is what
    the seed stands for.  It is used to ask which results the shuffle can
    return at all. *)
Definition scripted (script : list Z) : Quiz.Rand :=
  {| Quiz.Source := list Z;
     Quiz.NewSource := λ _, script;
     Quiz.Intn := λ r n, (hd 0 r `mod` n, tl r) |}.

End Scripted.

(* ===================================================================== *)
(** * internal/telegram/handler.go: the callback switch, the leaderboard  *)
(* ===================================================================== *)

Module Handlers.
Import Go Telegram.

(** [strings.HasPrefix]. *)
Fixpoint HasPrefix (s prefix : string) : bool :=
  match prefix, s with
  | EmptyString, _ => true
  | String p prefix, String c s =>
      if decide (c = p) then HasPrefix s prefix else false
  | String _ _, EmptyString => false
  end.

(** The handlers [handleCallback] chooses among. *)
Inductive Handler : Set :=
| ToStartQuiz
| ToQuizAnswer
| ToExitQuiz
| ToMainMenu
| ToInfo
| ToLeaderboard
| ToUnknown.

(** The [switch] of [handleCallback] on the callback data: the first
    case that holds is taken. *)
Definition dispatch (data : string) : Handler :=
  if decide (data = "start_quiz") then ToStartQuiz
  else if HasPrefix data "quiz_" then ToQuizAnswer
  else if decide (data = "exit_quiz") then ToExitQuiz
  else if decide (data = "back_to_menu") then ToMainMenu
  else if decide (data = "info") then ToInfo
  else if decide (data = "leaderboard") then ToLeaderboard
  else ToUnknown.

(** [GetTop] through the interface. *)
Definition GetTop `{Leaderboard.SortSlice} (svc : LeaderboardService)
    (limit : Z)
    : result (list Leaderboard.LeaderboardEntry * LeaderboardService) :=
  match svc with
  | MemoryService ms =>
      top ← Leaderboard.Memory.GetTop ms limit;
      Ok (top, MemoryService ms)
  | GistService gs =>
      '(top, gs) ← Leaderboard.Gist.GetTop gs limit;
      Ok (top, GistService gs)
  end.

(** One line of the leaderboard message: the medal of the place, the
    place, the name shown, and the figures of the entry. *)
Inductive Medal : Set := Gold | Silver | Bronze | Diamond.

Record Row : Set := mkRow {
  medal : Medal;
  place : Z;
  shownName : string;
  rowPercentage : Z;
  rowScore : Z;
  rowTotal : Z;
  rowDate : string
}.

(** The body of the loop [for i, entry := range top] of
    [handleLeaderboard]. *)
Definition rowOf (i : nat) (entry : Leaderboard.LeaderboardEntry) : Row :=
  {| medal := match i with
              | 0%nat => Gold
              | 1%nat => Silver
              | 2%nat => Bronze
              | _ => Diamond
              end;
     place := Z.of_nat i + 1;
     shownName :=
       if decide (Leaderboard.Username entry ≠ EmptyString)
       then "@" +:+ Leaderboard.Username entry
       else Leaderboard.FirstName entry;
     rowPercentage := Leaderboard.Percentage entry;
     rowScore := Leaderboard.Score entry;
     rowTotal := Leaderboard.Total entry;
     rowDate := Leaderboard.Date entry |}.

(** The messages of the handlers outside the quiz. *)
Inductive Notice : Set :=
| MainMenu (chatID : Z)
| Info (chatID : Z)
| UnknownCommand (chatID : Z)
| LeaderboardEmpty (chatID : Z)
| LeaderboardTop (chatID : Z) (rows : list Row).

Definition handleLeaderboard `{Leaderboard.SortSlice}
    (svc : LeaderboardService) (chatID : Z)
    : result (Notice * LeaderboardService) :=
  '(top, svc) ← GetTop svc 10;
  if decide (len top = 0) then Ok (LeaderboardEmpty chatID, svc)
  else Ok (LeaderboardTop chatID (imap rowOf top), svc).

(** [handleCallback] for a callback of [user] in the chat [chatID]: the
    bot afterwards and the notices sent by this call (the messages of the
    quiz are in the log of the bot). *)
Definition handleCallback `{Quiz.Rand} `{Leaderboard.SortSlice} (b : Bot)
    (chatID : Z) (data : string) (user : User) (seed : Z) (now : string)
    : result (Bot * list Notice) :=
  match dispatch data with
  | ToStartQuiz => b ← startQuiz b chatID seed; Ok (b, [])
  | ToQuizAnswer => b ← handleQuizAnswer b chatID data user now; Ok (b, [])
  | ToExitQuiz => b ← finishQuiz b chatID true user now; Ok (b, [])
  | ToMainMenu => Ok (b, [MainMenu chatID])
  | ToInfo => Ok (b, [Info chatID])
  | ToLeaderboard =>
      '(notice, svc) ← handleLeaderboard (leaderboardService b) chatID;
      Ok (withService b svc, [notice])
  | ToUnknown => Ok (b, [UnknownCommand chatID])
  end.

(** ** Vocabulary for the theorems *)

(** The entries a service keeps: the slice of the volatile store, the
    document of the gist. *)
Definition stored (svc : LeaderboardService)
    : list Leaderboard.LeaderboardEntry :=
  match svc with
  | MemoryService ms => Leaderboard.Entries (Leaderboard.Memory.leaderboard ms)
  | GistService gs => Leaderboard.Gist.document gs
  end.

(** What a quiz finished with [score] of [total] leaves behind on a bot
    whose leaderboard was [svc]: one [AddEntry] for the user, then the
    lookup of the rank when [AddEntry] returned [true], and a final
    message with the score, the floor of the percentage and that rank. *)
Definition recorded `{Leaderboard.SortSlice} (chatID : Z) (user : User)
    (now : string) (svc : LeaderboardService) (score total : Z) (b' : Bot)
    : Prop :=
  ∃ isNewBest svc1,
    AddEntry svc (ID user) (UserName user) (FirstName user) score total now
    = Ok (isNewBest, svc1)
    ∧ if (isNewBest : bool) then
        ∃ position entry svc2,
          GetUserPosition svc1 (ID user) = Ok (position, entry, svc2)
          ∧ leaderboardService b' = svc2
          ∧ last (sent b')
            = Some (FinishedMessage chatID score total
                      ((score * 100) `div` total)
                      (if decide (position ≠ -1) then Some position
                       else None))
      else
        leaderboardService b' = svc1
        ∧ last (sent b')
          = Some (FinishedMessage chatID score total
                    ((score * 100) `div` total) None).

End Handlers.

(* ===================================================================== *)
(** * Facts: the leaderboard store                                        *)
(* ===================================================================== *)

Module LeaderboardFacts.
Import Go Leaderboard.

Lemma improves_spec p s e :
  improves p s e = true
  ↔ p > Percentage e ∨ (p = Percentage e ∧ s > Score e).
Proof.
  unfold improves.
  rewrite orb_true_iff, andb_true_iff, !bool_decide_eq_true. tauto.
Qed.

Lemma less_spec a b :
  less a b = true
  ↔ Percentage a > Percentage b
    ∨ (Percentage a = Percentage b ∧ Score a > Score b).
Proof.
  unfold less. case_decide; rewrite bool_decide_eq_true; lia.
Qed.

Lemma less_false a b :
  less b a = false
  ↔ Percentage a > Percentage b
    ∨ (Percentage a = Percentage b ∧ Score b ≤ Score a).
Proof.
  rewrite <- not_true_iff_false, less_spec. lia.
Qed.

Lemma int_div_nonzero a b : b ≠ 0 → int_div a b = Ok (wrap (a `quot` b)).
Proof. intros Hb. unfold int_div. by rewrite decide_False. Qed.

Lemma int_div_zero a : int_div a 0 = Panic DivideByZero.
Proof. reflexivity. Qed.

Lemma wrap_small z : MinInt ≤ z ≤ MaxInt → wrap z = z.
Proof.
  unfold wrap, MinInt, MaxInt. intros Hz.
  rewrite Z.mod_small by lia. lia.
Qed.

(** *** The merge loop *)

Lemma mergeLoop_absent userID p s new entries :
  absent entries userID → mergeLoop userID p s new entries = None.
Proof.
  unfold absent. induction entries as [|e rest IH]; intros Habs; [done|].
  simpl. rewrite decide_False by (apply Habs; left).
  rewrite IH; [done|]. intros e' He'. apply Habs. by right.
Qed.

Lemma mergeLoop_stored userID p s new entries pre old post :
  storedAs entries userID pre old post →
  mergeLoop userID p s new entries
  = Some (pre ++ (if improves p s old then new else old) :: post).
Proof.
  intros (-> & Hold & Hpre).
  induction pre as [|e pre IH]; simpl.
  - by rewrite decide_True.
  - rewrite decide_False by (apply Hpre; left).
    rewrite IH; [done|]. intros e' He'. apply Hpre. by right.
Qed.

(** Either the user is stored somewhere or absent: the loop is total. *)
Lemma stored_or_absent entries userID :
  absent entries userID
  ∨ ∃ pre old post, storedAs entries userID pre old post.
Proof.
  induction entries as [|e rest IH].
  - left. intros e He. by apply elem_of_nil in He.
  - destruct (decide (UserID e = userID)) as [Heq|Hne].
    + right. exists [], e, rest. repeat split; [done|].
      intros e' He'. by apply elem_of_nil in He'.
    + destruct IH as [Habs|(pre & old & post & -> & Hold & Hpre)].
      * left. intros e' [->|He']%elem_of_cons; auto.
      * right. exists (e :: pre), old, post. repeat split; [done|].
        intros e' [->|He']%elem_of_cons; auto.
Qed.

Lemma storedAs_inj entries userID pre old post pre' old' post' :
  storedAs entries userID pre old post →
  storedAs entries userID pre' old' post' →
  pre = pre' ∧ old = old' ∧ post = post'.
Proof.
  intros (-> & Hold & Hpre) (Heq & Hold' & Hpre').
  revert pre' Heq Hpre'.
  induction pre as [|e pre IH]; intros [|e' pre'] Heq Hpre'; simplify_eq/=.
  - done.
  - exfalso. eapply Hpre'; [left|done].
  - exfalso. eapply Hpre; [left|done].
  - destruct (IH (λ x Hx, Hpre x (list_elem_of_further _ _ _ Hx)) pre' H0
                (λ x Hx, Hpre' x (list_elem_of_further _ _ _ Hx)))
      as (-> & -> & ->).
    done.
Qed.

Lemma stored_not_absent entries userID pre old post :
  storedAs entries userID pre old post → absent entries userID → False.
Proof.
  intros (-> & Hold & _) Habs. eapply Habs; [|done].
  apply elem_of_app. right. left.
Qed.

Lemma merged_bestWins new entries :
  bestWins entries new
    (merged (UserID new) (Percentage new) (Score new) new entries).
Proof.
  unfold merged, bestWins. split.
  - intros pre old post Hst.
    rewrite (mergeLoop_stored _ _ _ _ _ _ _ _ Hst).
    destruct Hst as (-> & _ & _).
    destruct (improves _ _ old) eqn:Himp.
    + apply improves_spec in Himp. unfold strictlyBetter. tauto.
    + apply not_true_iff_false in Himp. rewrite improves_spec in Himp.
      unfold strictlyBetter. tauto.
  - intros Habs. by rewrite mergeLoop_absent.
Qed.

(** *** AddEntry, both services, as one equation each *)

Lemma Memory_AddEntry_eq before userID username firstName score total now :
  total ≠ 0 →
  let p := wrap (int_mul score 100 `quot` total) in
  Memory.AddEntry {| Memory.leaderboard := {| Entries := before |} |}
    userID username firstName score total now
  = Ok (true,
        {| Memory.leaderboard :=
             {| Entries :=
                  merged userID p score
                    (submission userID username firstName score total p now)
                    before |} |}).
Proof.
  intros Htot p. unfold Memory.AddEntry, merged.
  rewrite int_div_nonzero by done. simpl. fold p.
  unfold submission. by destruct (mergeLoop _ _ _ _ _).
Qed.

(** What JSON keeps: a valid string comes back as it was. *)
Lemma str_take_drop n s : str_take n s +:+ str_drop n s = s.
Proof.
  revert s. induction n as [|n IH]; intros [|c s]; try reflexivity.
  cbn [str_take str_drop].
  change (String c ?a +:+ ?b) with (String c (a +:+ b)). by rewrite IH.
Qed.

Lemma str_drop_length n s : (String.length (str_drop n s) ≤ String.length s)%nat.
Proof.
  revert s. induction n as [|n IH]; intros [|c s]; cbn; try lia.
  specialize (IH s). lia.
Qed.

Lemma jsonStringLoop_valid fuel : ∀ s,
  validLoop fuel s = true → (String.length s ≤ fuel)%nat →
  jsonStringLoop fuel s = s.
Proof.
  induction fuel as [|fuel IH]; intros [|c s]; cbn [validLoop jsonStringLoop
    String.length]; try done; [lia|].
  intros Hvalid Hfuel. case_decide.
  - rewrite IH; [done|done|lia].
  - destruct (runeWidth c s) as [|[|width]]; [|done|].
    + cbn [Nat.sub str_take str_drop] in *.
      rewrite IH; [done|done|lia].
    + cbn [Nat.sub] in *.
      rewrite IH; [|done|pose proof (str_drop_length (S width) s); lia].
      change (String c ?a +:+ ?b) with (String c (a +:+ b)).
      by rewrite str_take_drop.
Qed.

Lemma jsonString_valid s : ValidString s = true → jsonString s = s.
Proof. intros Hvalid. by apply jsonStringLoop_valid. Qed.

Lemma jsonEntry_valid e : validEntry e = true → jsonEntry e = e.
Proof.
  unfold validEntry. intros [[Hu Hf]%andb_true_iff Hd]%andb_true_iff.
  destruct e. unfold jsonEntry.
  cbn [UserID Username FirstName Score Total Percentage Date] in *.
  by rewrite !jsonString_valid.
Qed.

Lemma jsonEntries_valid l : forallb validEntry l = true → jsonEntry <$> l = l.
Proof.
  induction l as [|e l IH]; [done|]. cbn [forallb].
  intros [He Hl]%andb_true_iff. rewrite fmap_cons.
  by rewrite jsonEntry_valid, IH.
Qed.

Lemma merged_valid userID p score new before :
  forallb validEntry before = true → validEntry new = true →
  forallb validEntry (merged userID p score new before) = true.
Proof.
  intros Hbefore Hnew. unfold merged.
  assert (Hloop : ∀ l, mergeLoop userID p score new before = Some l →
                       forallb validEntry l = true).
  { induction before as [|e rest IH]; [done|].
    cbn [forallb] in Hbefore. apply andb_true_iff in Hbefore as [He Hrest].
    intros l. cbn [mergeLoop]. case_decide.
    - intros [= <-]. cbn [forallb]. apply andb_true_iff. split; [|done].
      by destruct (improves p score e).
    - destruct (mergeLoop userID p score new rest) as [l'|]; [|done].
      intros [= <-]. cbn [forallb]. apply andb_true_iff. split; [done|].
      by apply IH. }
  destruct (mergeLoop userID p score new before) as [l|]; [by apply Hloop|].
  rewrite forallb_app. apply andb_true_iff. split; [done|].
  cbn [forallb]. by rewrite Hnew.
Qed.

Lemma Gist_AddEntry_eq before net userID username firstName score total now :
  let p := wrap (int_mul score 100 `quot` total) in
  Gist.AddEntry {| Gist.document := before; Gist.network := net |}
    userID username firstName score total now
  = if Gist.succeeds net 0 then
      if decide (total = 0) then Panic DivideByZero
      else if Gist.succeeds net 1 then
        Ok (true,
            {| Gist.document :=
                 jsonEntry
                 <$> merged userID p score
                       (submission userID username firstName score total p
                          now)
                       before;
               Gist.network := drop 2 net |})
      else Ok (false, {| Gist.document := before;
                         Gist.network := drop 2 net |})
    else Ok (false, {| Gist.document := before;
                       Gist.network := drop 1 net |}).
Proof.
  intros p. unfold Gist.AddEntry, Gist.loadFromGist, Gist.saveToGist,
    Gist.roundTrip, Gist.succeeds, merged, int_div.
  destruct net as [|[] [|[] net]]; simpl; try done;
    case_decide; simpl; try done; fold p;
    by destruct (mergeLoop _ _ _ _ _).
Qed.





(** The first instance of C1, run: a stored 7/10 (70%) gives way to a
    submitted 4/5 (80%), although its score is the smaller one. *)
Example stored_70_gives_way_to_80 :
  Memory.AddEntry
    {| Memory.leaderboard :=
         {| Entries := [submission 1 "u" "U" 7 10 70 "d"] |} |}
    1 "u" "U" 4 5 "n"
  = Ok (true, {| Memory.leaderboard :=
                   {| Entries := [submission 1 "u" "U" 4 5 80 "n"] |} |}).
Proof. reflexivity. Qed.

(** The end-to-end run of the specification: 3/10 and then 7/10 for one
    user leave one entry, with score 7 and 70 percent. *)
Example AddEntry_twice :
  ('(_, ms) ← Memory.AddEntry Memory.NewMemoryLeaderboardService
                1 "u" "U" 3 10 "d1";
   '(_, ms) ← Memory.AddEntry ms 1 "u" "U" 7 10 "d2";
   Ok (Entries (Memory.leaderboard ms)))
  = Ok [submission 1 "u" "U" 7 10 70 "d2"].
Proof. reflexivity. Qed.

(** *** The boolean AddEntry returns *)

(** The volatile store answers [true] on every call that returns. *)
Lemma Memory_AddEntry_never_false ms userID username firstName score total
    now ms' :
  Memory.AddEntry ms userID username firstName score total now
  ≠ Ok (false, ms').
Proof.
  unfold Memory.AddEntry. destruct (int_div _ _); simpl; [|done].
  by destruct (mergeLoop _ _ _ _ _).
Qed.

(** The gist store answers [true] exactly when both round trips
    succeeded, whatever the merge did. *)
Lemma Gist_AddEntry_result before net userID username firstName score total
    now isNewBest gs :
  Gist.AddEntry {| Gist.document := before; Gist.network := net |}
    userID username firstName score total now = Ok (isNewBest, gs) →
  isNewBest = Gist.succeeds net 0 && Gist.succeeds net 1.
Proof.
  rewrite Gist_AddEntry_eq.
  destruct (Gist.succeeds net 0), (Gist.succeeds net 1);
    repeat case_decide; naive_solver.
Qed.

(** C2. [AddEntry]'s boolean result, run on a submission that does not
    improve the stored entry: user 1 holds 7/10 (70%) and submits 3/10
    (30%).  The claim wants "not a new best" ([false]); both services
    leave the store as it was and answer [true]. *)
Theorem AddEntry_true_without_improvement :
  let stored := submission 1 "u" "U" 7 10 70 "01.01.2026 10:00" in
  Memory.AddEntry {| Memory.leaderboard := {| Entries := [stored] |} |}
    1 "u" "U" 3 10 "02.01.2026 10:00"
  = Ok (true, {| Memory.leaderboard := {| Entries := [stored] |} |})
  ∧ Gist.AddEntry {| Gist.document := [stored]; Gist.network := [] |}
      1 "u" "U" 3 10 "02.01.2026 10:00"
    = Ok (true, {| Gist.document := [stored]; Gist.network := [] |}).
Proof. split; reflexivity. Qed.

(** *** The percentage *)

Lemma percentage_floor score total :
  0 < total → 0 ≤ score → score * 100 ≤ MaxInt →
  wrap (int_mul score 100 `quot` total) = (score * 100) `div` total.
Proof.
  intros Htot Hs Hmax. unfold int_mul.
  assert (Hmin : MinInt ≤ 0) by (by vm_compute).
  rewrite (wrap_small (score * 100)) by lia.
  rewrite Z.quot_div_nonneg by lia.
  apply wrap_small. split.
  - pose proof (Z.div_pos (score * 100) total). lia.
  - pose proof (Z.div_le_upper_bound (score * 100) total (score * 100)).
    nia.
Qed.

(** C10, as the code has it.  With [total = 0] the volatile [AddEntry]
    panics on the division, and so does the gist one once its fetch has
    succeeded (after a failed fetch it has already returned [false]).
    With [total ≠ 0] neither panics, and the percentage of the submission
    is the quotient, truncated toward zero, of the wrapped product
    [score * 100] by [total]; it is [floor(score * 100 / total)] whenever
    [total > 0], [score ≥ 0] and [score * 100] fits an [int]. *)
Theorem AddEntry_percentage
    (before : list LeaderboardEntry) (net : list bool)
    (userID : Z) (username firstName : string) (score total : Z)
    (now : string) :
  let ms := {| Memory.leaderboard := {| Entries := before |} |} in
  let gs := {| Gist.document := before; Gist.network := net |} in
  (total = 0 →
     Memory.AddEntry ms userID username firstName score total now
     = Panic DivideByZero
     ∧ Gist.AddEntry gs userID username firstName score total now
       = if Gist.succeeds net 0 then Panic DivideByZero
         else Ok (false, {| Gist.document := before;
                            Gist.network := drop 1 net |}))
  ∧ (total ≠ 0 →
     ∃ percentage after,
       int_div (int_mul score 100) total = Ok percentage
       ∧ percentage = wrap (int_mul score 100 `quot` total)
       ∧ Memory.AddEntry ms userID username firstName score total now
         = Ok (true, {| Memory.leaderboard := {| Entries := after |} |})
       ∧ bestWins before
           (submission userID username firstName score total percentage now)
           after
       ∧ panics (Gist.AddEntry gs userID username firstName score total now)
         = false
       ∧ (0 < total → 0 ≤ score → score * 100 ≤ MaxInt →
          percentage = (score * 100) `div` total)).
Proof.
  intros ms gs. split.
  - intros ->. split; [done|].
    unfold gs. rewrite Gist_AddEntry_eq. by rewrite decide_True.
  - intros Htot. do 2 eexists.
    split; [by apply int_div_nonzero|]. split; [done|].
    split; [by apply Memory_AddEntry_eq|].
    split; [apply (merged_bestWins (submission _ _ _ _ _ _ _))|].
    split.
    + unfold gs. rewrite Gist_AddEntry_eq. rewrite decide_False by done.
      by destruct (Gist.succeeds net 0), (Gist.succeeds net 1).
    + apply percentage_floor.
Qed.

Lemma AddEntry_percentage_witness :
  let ms := {| Memory.leaderboard := {| Entries := [] |} |} in
  (∃ percentage after,
       int_div (int_mul 2 100) 3 = Ok percentage
       ∧ percentage = wrap (int_mul 2 100 `quot` 3)
       ∧ Memory.AddEntry ms 1 "u" "U" 2 3 "n"
         = Ok (true, {| Memory.leaderboard := {| Entries := after |} |})
       ∧ bestWins [] (submission 1 "u" "U" 2 3 percentage "n") after
       ∧ panics (Gist.AddEntry {| Gist.document := []; Gist.network := [] |}
                   1 "u" "U" 2 3 "n") = false
       ∧ percentage = (2 * 100) `div` 3)
  ∧ Memory.AddEntry ms 1 "u" "U" 2 0 "n" = Panic DivideByZero.
Proof.
  split.
  - destruct (proj2 (AddEntry_percentage [] [] 1 "u" "U" 2 3 "n")
                ltac:(lia))
      as (percentage & after & Hdiv & Hwrap & Hadd & Hbest & Hgist & Hfloor).
    exists percentage, after. repeat (split; [assumption|]).
    apply Hfloor; [lia|lia|]. vm_compute. discriminate.
  - apply (AddEntry_percentage [] [] 1 "u" "U" 2 0 "n"). reflexivity.
Defined.

(** C10 as stated fails in three places: after a failed fetch the gist
    [AddEntry] with [total = 0] returns [false] instead of panicking; a
    negative score is rounded toward zero, not down ([-100 / 3] is [-33],
    the floor is [-34]); and the product [score * 100] wraps around
    ([2^62 * 100] is [0] as an [int]). *)
Lemma AddEntry_percentage_not_floor :
  Gist.AddEntry {| Gist.document := []; Gist.network := [false] |}
    1 "u" "U" 1 0 "n"
  = Ok (false, {| Gist.document := []; Gist.network := [] |})
  ∧ (Memory.AddEntry {| Memory.leaderboard := {| Entries := [] |} |}
       1 "u" "U" (-1) 3 "n"
     = Ok (true, {| Memory.leaderboard :=
                      {| Entries := [submission 1 "u" "U" (-1) 3 (-33) "n"] |} |})
     ∧ (-1 * 100) `div` 3 = -34)
  ∧ (Memory.AddEntry {| Memory.leaderboard := {| Entries := [] |} |}
       1 "u" "U" (2 ^ 62) 1 "n"
     = Ok (true, {| Memory.leaderboard :=
                      {| Entries := [submission 1 "u" "U" (2 ^ 62) 1 0 "n"] |} |})
     ∧ (2 ^ 62 * 100) `div` 1 ≠ 0).
Proof. repeat split; vm_compute; congruence. Qed.

(** *** Insertion sort meets the contract of sort.Slice *)

Lemma insertSorted_perm x l : insertSorted x l ≡ₚ x :: l.
Proof.
  induction l as [|y l IH]; simpl; [done|].
  destruct (less x y); [done|]. rewrite IH. apply Permutation_swap.
Qed.

Lemma insertSorted_sorted x l :
  StronglySorted (λ a b, less b a = false) l →
  StronglySorted (λ a b, less b a = false) (insertSorted x l).
Proof.
  induction 1 as [|y l Hl IH Hy]; simpl.
  - repeat constructor.
  - destruct (less x y) eqn:Hxy.
    + constructor; [by constructor|].
      apply less_spec in Hxy.
      constructor; [apply less_false; lia|].
      eapply Forall_impl; [exact Hy|]. simpl. intros z Hz.
      apply less_false in Hz. apply less_false. lia.
    + constructor; [done|].
      rewrite insertSorted_perm. by constructor.
Qed.

Lemma StronglySorted_lookup {A} (R : relation A) l i j a b :
  StronglySorted R l → (i < j)%nat →
  l !! i = Some a → l !! j = Some b → R a b.
Proof.
  intros Hl. revert i j. induction Hl as [|x l Hl IH Hx]; intros i j Hij.
  - by rewrite lookup_nil.
  - destruct j as [|j]; [lia|]. destruct i as [|i]; simpl.
    + intros [= ->] Hb. rewrite Forall_forall in Hx. apply Hx.
      by eapply list_elem_of_lookup_2.
    + apply IH. lia.
Qed.

Lemma insertionSort_contract : @sort_contract insertionSort.
Proof.
  intros l. unfold sortSlice, insertionSort.
  assert (Hgen : ∀ acc,
    StronglySorted (λ a b, less b a = false) acc →
    fold_left (λ sorted x, insertSorted x sorted) l acc ≡ₚ acc ++ l
    ∧ StronglySorted (λ a b, less b a = false)
        (fold_left (λ sorted x, insertSorted x sorted) l acc)).
  { induction l as [|x l IH]; intros acc Hacc; simpl.
    - by rewrite app_nil_r.
    - destruct (IH (insertSorted x acc)) as [Hp Hs];
        [by apply insertSorted_sorted|].
      split; [|done]. rewrite Hp, insertSorted_perm.
      simpl. apply Permutation_middle. }
  destruct (Hgen []) as [Hp Hs]; [constructor|].
  split; [done|]. intros i j a b.
  apply (StronglySorted_lookup _ _ _ _ _ _ Hs).
Qed.

(** *** GetTop *)

Section with_sort.
Context `{SortSlice} (Hsort : sort_contract).

Lemma sortSlice_len l : len (sortSlice l) = len l.
Proof. unfold len. f_equal. apply Permutation_length, Hsort. Qed.

Lemma take_sortedDescending n l : sortedDescending (take n (sortSlice l)).
Proof.
  intros i j a b Hij [Ha _]%lookup_take_Some [Hb _]%lookup_take_Some.
  apply less_false. by eapply (proj2 (Hsort l)).
Qed.

Lemma topOf_eq (l : list LeaderboardEntry) limit :
  0 ≤ limit →
  slice_to (sortSlice l)
    (if decide (limit > len (sortSlice l)) then len (sortSlice l)
     else limit)
  = Ok (take (Z.to_nat limit) (sortSlice l)).
Proof.
  intros Hlim. unfold slice_to, len.
  destruct (decide (limit > _)) as [Hgt|Hle].
  - rewrite decide_True by lia. rewrite Nat2Z.id.
    by rewrite !take_ge by lia.
  - by rewrite decide_True by lia.
Qed.

Lemma Memory_GetTop_eq entries limit :
  0 ≤ limit →
  Memory.GetTop {| Memory.leaderboard := {| Entries := entries |} |} limit
  = Ok (take (Z.to_nat limit) (sortSlice entries)).
Proof. intros. unfold Memory.GetTop. simpl. by apply topOf_eq. Qed.

Lemma Gist_GetTop_eq entries net limit :
  0 ≤ limit →
  Gist.GetTop {| Gist.document := entries; Gist.network := net |} limit
  = Ok (if Gist.succeeds net 0
        then take (Z.to_nat limit) (sortSlice entries) else [],
        {| Gist.document := entries; Gist.network := drop 1 net |}).
Proof.
  intros. unfold Gist.GetTop, Gist.loadFromGist, Gist.roundTrip,
    Gist.succeeds.
  destruct net as [|[] net]; simpl; try done; by rewrite topOf_eq.
Qed.

Lemma len_take_min {A} (l : list A) limit :
  0 ≤ limit → len (take (Z.to_nat limit) l) = limit `min` len l.
Proof. intros. unfold len. rewrite length_take. lia. Qed.

(** C5, as the code has it.  For every collection and every limit
    [limit ≥ 0], [GetTop] returns [min(limit, size)] entries, the head of
    an arrangement of the whole collection that is sorted descending by
    percentage, ties descending by score: a limit beyond the size of the
    collection is clamped to it.  The gist store does so when its fetch
    succeeds and returns no entries when it fails. *)
Theorem GetTop_clamped_sorted
    (entries : list LeaderboardEntry) (net : list bool) (limit : Z) :
  0 ≤ limit →
  (∃ top rest,
      Memory.GetTop {| Memory.leaderboard := {| Entries := entries |} |}
        limit = Ok top
      ∧ len top = limit `min` len entries
      ∧ top ++ rest ≡ₚ entries ∧ sortedDescending (top ++ rest))
  ∧ (∃ top rest gs,
      Gist.GetTop {| Gist.document := entries; Gist.network := net |}
        limit = Ok (top, gs)
      ∧ Gist.document gs = entries
      ∧ len top = (if Gist.succeeds net 0 then limit `min` len entries else 0)
      ∧ top ++ rest ≡ₚ entries ∧ sortedDescending (top ++ rest)).
Proof.
  intros Hlim.
  assert (Hlen : len (take (Z.to_nat limit) (sortSlice entries))
                 = limit `min` len entries).
  { by rewrite len_take_min, sortSlice_len. }
  assert (Hsorted : sortedDescending (sortSlice entries)).
  { rewrite <- (take_ge (sortSlice entries) (length (sortSlice entries)))
      by done.
    apply take_sortedDescending. }
  split.
  - exists (take (Z.to_nat limit) (sortSlice entries)),
      (drop (Z.to_nat limit) (sortSlice entries)).
    split; [by apply Memory_GetTop_eq|]. split; [done|].
    rewrite take_drop. split; [apply Hsort|done].
  - rewrite Gist_GetTop_eq by done. destruct (Gist.succeeds net 0).
    + exists (take (Z.to_nat limit) (sortSlice entries)),
        (drop (Z.to_nat limit) (sortSlice entries)).
      eexists. split; [done|]. split; [done|]. split; [done|].
      rewrite take_drop. split; [apply Hsort|done].
    + exists [], (sortSlice entries). eexists.
      split; [done|]. split; [done|]. split; [done|].
      split; [apply Hsort|done].
Qed.

End with_sort.

Lemma GetTop_clamped_sorted_witness :
  let entries := [submission 1 "a" "A" 3 10 30 "d";
                  submission 2 "b" "B" 7 10 70 "d"] in
  ∃ top rest,
    Memory.GetTop (H := insertionSort)
      {| Memory.leaderboard := {| Entries := entries |} |} 10 = Ok top
    ∧ len top = 10 `min` len entries
    ∧ top ++ rest ≡ₚ entries ∧ sortedDescending (top ++ rest).
Proof.
  intros entries.
  apply (GetTop_clamped_sorted (H := insertionSort) insertionSort_contract
           entries [] 10).
  lia.
Defined.

(** The collection of the witness, ranked. *)
Example GetTop_ranks :
  Memory.GetTop (H := insertionSort)
    {| Memory.leaderboard :=
         {| Entries := [submission 1 "a" "A" 3 10 30 "d";
                        submission 2 "b" "B" 7 10 70 "d"] |} |} 10
  = Ok [submission 2 "b" "B" 7 10 70 "d"; submission 1 "a" "A" 3 10 30 "d"].
Proof. reflexivity. Qed.

(** C5 as stated fails below zero: a negative limit is not clamped, the
    slice expression [sorted[:limit]] panics. *)
Lemma GetTop_negative_limit_panics :
  Memory.GetTop (H := insertionSort)
    {| Memory.leaderboard :=
         {| Entries := [submission 1 "a" "A" 3 10 30 "d"] |} |} (-1)
  = Panic SliceBoundsOutOfRange.
Proof. reflexivity. Qed.

(** *** GetUserPosition *)

Lemma positionLoop_absent userID i top :
  absent top userID → positionLoop userID i top = (-1, None).
Proof.
  revert i. induction top as [|e top IH]; intros i Habs; simpl; [done|].
  rewrite decide_False by (apply Habs; left).
  apply IH. intros e' He'. apply Habs. by right.
Qed.

Lemma positionLoop_stored userID i top pre old post :
  storedAs top userID pre old post →
  positionLoop userID i top = (i + len pre + 1, Some old).
Proof.
  intros (-> & Hold & Hpre). revert i.
  induction pre as [|e pre IH]; intros i; simpl.
  - rewrite decide_True by done. f_equal. unfold len. simpl. lia.
  - rewrite decide_False by (apply Hpre; left).
    rewrite IH by (intros e' He'; apply Hpre; by right).
    f_equal. unfold len. simpl. lia.
Qed.

Lemma absent_perm l l' userID : l ≡ₚ l' → absent l userID → absent l' userID.
Proof. intros Hp Habs e He. apply Habs. by rewrite Hp. Qed.

Lemma absent_submseteq l l' userID :
  l ⊆+ l' → absent l' userID → absent l userID.
Proof. intros Hsub Habs e He. apply Habs. by eapply elem_of_submseteq. Qed.

Lemma crowded_NoDup : NoDup crowded.
Proof.
  unfold crowded. apply NoDup_cons. split.
  - intros (n & Heq & _)%list_elem_of_fmap.
    apply (f_equal Total) in Heq as Htot. apply (f_equal Score) in Heq.
    done.
  - apply NoDup_fmap_2; [|apply NoDup_seq].
    intros n m Heq. apply (f_equal UserID) in Heq. simpl in Heq. lia.
Qed.

Lemma crowded_length : length crowded = 1001%nat.
Proof. unfold crowded. by rewrite length_cons, length_fmap, length_seq. Qed.

Lemma crowded_elem e :
  e ∈ crowded → e = lastPlace ∨ less e lastPlace = true ∧ UserID e ≠ 0.
Proof.
  unfold crowded. intros [->|(n & -> & Hn)%list_elem_of_fmap]%elem_of_cons.
  - by left.
  - right. split; [done|]. apply elem_of_seq in Hn. simpl. lia.
Qed.

Section with_sort.
Context `{SortSlice} (Hsort : sort_contract).

(** The volatile store ranks a stored user by the place of its first
    entry in the whole sorted collection, and reports a user without
    an entry as not found. *)
Lemma Memory_GetUserPosition_spec entries userID :
  let ms := {| Memory.leaderboard := {| Entries := entries |} |} in
  (absent entries userID →
   Memory.GetUserPosition ms userID = Ok (-1, None))
  ∧ (∀ pre old post,
       storedAs (sortSlice entries) userID pre old post →
       Memory.GetUserPosition ms userID = Ok (len pre + 1, Some old)).
Proof.
  intros ms. unfold Memory.GetUserPosition, ms. simpl.
  rewrite Memory_GetTop_eq by (unfold len; lia).
  unfold len. rewrite Nat2Z.id.
  rewrite take_ge
    by (by rewrite (Permutation_length (proj1 (Hsort entries)))).
  simpl. split.
  - intros Habs. rewrite positionLoop_absent; [done|].
    eapply absent_perm; [|done]. symmetry. apply Hsort.
  - intros pre old post Hst.
    by rewrite (positionLoop_stored _ _ _ _ _ _ Hst).
Qed.

(** The gist store reports a user without an entry as not found,
    whatever the network does. *)
Lemma Gist_GetUserPosition_absent entries net userID :
  absent entries userID →
  ∃ gs, Gist.GetUserPosition
          {| Gist.document := entries; Gist.network := net |} userID
        = Ok ((-1, None), gs).
Proof.
  intros Habs. unfold Gist.GetUserPosition.
  rewrite Gist_GetTop_eq by lia. simpl.
  rewrite Gist_GetTop_eq by (unfold len; lia). simpl.
  eexists. rewrite positionLoop_absent; [done|].
  destruct (Gist.succeeds (drop 1 net) 0).
  - eapply absent_submseteq; [apply submseteq_take|].
    eapply absent_perm; [|done]. symmetry. apply Hsort.
  - intros e He. by apply elem_of_nil in He.
Qed.

(** Up to 1000 entries and with both fetches succeeding the gist store
    ranks as the volatile store does. *)
Lemma Gist_GetUserPosition_small entries net userID :
  len entries ≤ 1000 →
  Gist.succeeds net 0 = true → Gist.succeeds net 1 = true →
  Gist.GetUserPosition {| Gist.document := entries; Gist.network := net |}
    userID
  = Ok (positionLoop userID 0 (sortSlice entries),
        {| Gist.document := entries; Gist.network := drop 2 net |}).
Proof.
  intros Hsmall Hfirst Hsecond. unfold Gist.GetUserPosition.
  rewrite Gist_GetTop_eq by lia. rewrite Hfirst. cbn [mbind result_bind].
  rewrite Gist_GetTop_eq by (unfold len; lia).
  assert (Gist.succeeds (drop 1 net) 0 = true) as ->.
  { revert Hsecond. unfold Gist.succeeds. by destruct net as [|? [|? ?]]. }
  cbn [mbind result_bind]. rewrite drop_drop.
  assert (Hlen : length (sortSlice entries) = length entries)
    by apply Permutation_length, Hsort.
  rewrite (take_ge _ (Z.to_nat 1000)) by (unfold len in Hsmall; lia).
  unfold len. rewrite Nat2Z.id, take_ge by lia. done.
Qed.

(** C6, on a leaderboard the gist store gets wrong.  The gist holds
    1001 entries and every fetch succeeds; player 0 has an entry, the
    worst one, so its rank in the full ordering is 1001.
    [GetUserPosition] measures the collection through [GetTop(1000)],
    hence ranks the best 1000 only, and answers "not found" for
    player 0. *)
Theorem Gist_GetUserPosition_beyond_1000 :
  lastPlace ∈ crowded ∧ UserID lastPlace = 0
  ∧ Gist.GetUserPosition
      {| Gist.document := crowded; Gist.network := [] |} 0
    = Ok ((-1, None),
          {| Gist.document := crowded; Gist.network := [] |}).
Proof.
  split; [by left|]. split; [done|].
  unfold Gist.GetUserPosition.
  rewrite Gist_GetTop_eq by lia.
  cbn [mbind result_bind Gist.succeeds nth drop].
  rewrite len_take_min, sortSlice_len by (done || lia).
  unfold len at 1. rewrite crowded_length.
  rewrite Gist_GetTop_eq by lia.
  cbn [mbind result_bind Gist.succeeds nth drop].
  rewrite positionLoop_absent; [done|].
  change (1000 `min` Z.of_nat 1001) with 1000.
  destruct (Hsort crowded) as [Hperm Hord].
  intros e [i [Hi Hlt]%lookup_take_Some]%list_elem_of_lookup Hid.
  assert (He : e ∈ crowded)
    by (rewrite <- Hperm; by eapply list_elem_of_lookup_2).
  apply crowded_elem in He as [->|[_ Hne]]; [|done].
  destruct (lookup_lt_is_Some_2 (sortSlice crowded) 1000) as [b Hb].
  { rewrite (Permutation_length Hperm), crowded_length. lia. }
  assert (Hbin : b ∈ crowded)
    by (rewrite <- Hperm; by eapply list_elem_of_lookup_2).
  apply crowded_elem in Hbin as [->|[Hless _]].
  - assert (Hnd : NoDup (sortSlice crowded))
      by (rewrite Hperm; apply crowded_NoDup).
    pose proof (NoDup_lookup _ _ _ _ Hnd Hi Hb). lia.
  - rewrite (Hord i 1000%nat lastPlace b) in Hless; [done| |done..].
    lia.
Qed.

End with_sort.

Lemma Gist_GetUserPosition_beyond_1000_witness :
  lastPlace ∈ crowded ∧ UserID lastPlace = 0
  ∧ Gist.GetUserPosition (H := insertionSort)
      {| Gist.document := crowded; Gist.network := [] |} 0
    = Ok ((-1, None), {| Gist.document := crowded; Gist.network := [] |}).
Proof.
  apply (Gist_GetUserPosition_beyond_1000 (H := insertionSort)
           insertionSort_contract).
Defined.

(** The same user, the same 1001 entries, in the volatile store: rank
    1001. *)
Lemma Memory_GetUserPosition_crowded :
  Memory.GetUserPosition (H := insertionSort)
    {| Memory.leaderboard := {| Entries := crowded |} |} 0
  = Ok (1001, Some lastPlace).
Proof. vm_compute. reflexivity. Qed.

End LeaderboardFacts.

(* ===================================================================== *)
(** * Facts: the shuffle                                                  *)
(* ===================================================================== *)

Module ShuffleFacts.
Import Go Quiz.

Lemma index_Ok {A} (s : list A) i x :
  index s i = Ok x ↔ 0 ≤ i ∧ s !! Z.to_nat i = Some x.
Proof.
  unfold index. destruct (decide (0 ≤ i)) as [Hi|Hi].
  - destruct (s !! Z.to_nat i) as [y|]; split.
    + by intros [= ->].
    + by intros [_ [= ->]].
    + done.
    + by intros [_ ?].
  - split; [done|]. by intros [? _].
Qed.

Lemma index_in_range {A} (s : list A) i :
  0 ≤ i < len s → ∃ x, index s i = Ok x ∧ s !! Z.to_nat i = Some x.
Proof.
  unfold len. intros Hi.
  destruct (lookup_lt_is_Some_2 s (Z.to_nat i)) as [x Hx]; [lia|].
  exists x. split; [|done]. apply index_Ok. split; [lia|done].
Qed.

Lemma index_out_of_range {A} (s : list A) i :
  ¬ (0 ≤ i < len s) → index s i = Panic IndexOutOfRange.
Proof.
  unfold index, len. intros Hi. case_decide; [|done].
  rewrite lookup_ge_None_2; [done|lia].
Qed.

Section with_rand.
Context `{Rand} (Hrand : rand_contract).

Lemma swap_perm a i j :
  0 ≤ i < len a → 0 ≤ j < len a →
  ∃ a', swap a i j = Ok a' ∧ a' ≡ₚ a ∧ length a' = length a.
Proof.
  intros Hi Hj. unfold swap.
  destruct (index_in_range a i Hi) as (xi & -> & Hxi).
  destruct (index_in_range a j Hj) as (xj & -> & Hxj). simpl.
  eexists. split; [done|]. split.
  - by apply Permutation_insert_swap.
  - by rewrite !length_insert.
Qed.

(** The loop entered at an index of the array returns, and returns a
    permutation of the array. *)
Lemma fisherYates_perm i r a :
  (i < length a ∨ i = 0)%nat →
  ∃ a', fisherYates i r a = Ok a' ∧ a' ≡ₚ a ∧ length a' = length a.
Proof.
  revert r a. induction i as [|i IH]; intros r a Hi.
  - by exists a.
  - cbn [fisherYates]. unfold IntnChecked.
    rewrite decide_False by lia.
    pose proof (Hrand r (Z.of_nat (S i) + 1) ltac:(lia)) as Hj.
    destruct (Intn r (Z.of_nat (S i) + 1)) as [j r'].
    cbn [mbind result_bind fst] in *.
    destruct (swap_perm a (Z.of_nat (S i)) j) as (a1 & -> & Hp1 & Hl1);
      [unfold len; lia..|].
    cbn [mbind result_bind].
    destruct (IH r' a1) as (a2 & -> & Hp2 & Hl2); [lia|].
    exists a2. split; [done|]. split; [by rewrite Hp2|lia].
Qed.

Lemma ShuffleQuestions_perm seed questions :
  ∃ shuffled,
    ShuffleQuestions seed questions = Ok shuffled
    ∧ shuffled ≡ₚ questions ∧ length shuffled = length questions.
Proof. unfold ShuffleQuestions. apply fisherYates_perm. lia. Qed.

(** *** In memory *)

Lemma elements_whole h s a :
  h !! array s = Some a → offset s = 0%nat → extent s = length a →
  elements h s = a.
Proof.
  intros Ha Hoff Hext. unfold elements. rewrite Ha, Hoff, Hext.
  by rewrite drop_0, take_ge.
Qed.

Lemma swapAt_whole h s a i j :
  h !! array s = Some a → offset s = 0%nat → extent s = length a →
  swapAt h s i j = (a' ← swap a i j; Ok (<[array s := a']> h)).
Proof.
  intros Ha Hoff Hext. unfold swapAt, swap, load, store.
  rewrite (elements_whole h s a) by done.
  destruct (index a i) as [xi|] eqn:Hxi; [|done].
  destruct (index a j) as [xj|] eqn:Hxj; [|done].
  cbn [mbind result_bind].
  apply index_Ok in Hxi as [Hi Hxi]. apply index_Ok in Hxj as [Hj Hxj].
  apply lookup_lt_Some in Hxi as Hilt. apply lookup_lt_Some in Hxj as Hjlt.
  rewrite Ha, Hoff, Hext. rewrite decide_True by lia.
  cbn [mbind result_bind]. rewrite decide_True by lia.
  rewrite lookup_insert_eq. by rewrite insert_insert_eq.
Qed.

(** The loop in memory writes the array behind [shuffled] and nothing
    else, and leaves there what the loop on values computes. *)
Lemma fisherYatesAt_whole i r h s a :
  h !! array s = Some a → offset s = 0%nat → extent s = length a →
  (i < length a ∨ i = 0)%nat →
  ∃ a', fisherYates i r a = Ok a'
        ∧ fisherYatesAt i r h s = Ok (<[array s := a']> h).
Proof.
  revert r h a. induction i as [|i IH]; intros r h a Ha Hoff Hext Hi.
  - exists a. split; [done|]. cbn. by rewrite insert_id.
  - cbn [fisherYates fisherYatesAt]. unfold IntnChecked.
    rewrite decide_False by lia.
    pose proof (Hrand r (Z.of_nat (S i) + 1) ltac:(lia)) as Hj.
    destruct (Intn r (Z.of_nat (S i) + 1)) as [j r'].
    cbn [mbind result_bind fst] in *.
    rewrite (swapAt_whole h s a) by done.
    destruct (swap_perm a (Z.of_nat (S i)) j) as (a1 & -> & Hp1 & Hl1);
      [unfold len; lia..|].
    cbn [mbind result_bind].
    destruct (IH r' (<[array s := a1]> h) a1) as (a2 & Ha2 & ->);
      [by rewrite lookup_insert_eq|done|lia|lia|].
    exists a2. split; [done|]. by rewrite insert_insert_eq.
Qed.

Lemma copied_zero (src : list QuizQuestion) :
  copied (replicate (length src) zeroQuestion) src = src.
Proof.
  unfold copied. rewrite length_replicate, take_ge by lia.
  rewrite drop_ge by (rewrite length_replicate; lia).
  apply app_nil_r.
Qed.

Lemma elements_length h s : validSlice h s → length (elements h s) = extent s.
Proof.
  intros (a & Ha & Hfit). unfold elements. rewrite Ha.
  rewrite length_take, length_drop. lia.
Qed.

(** C8. Shuffle purity.  For every heap and every slice of [n ≥ 0]
    questions in it, [ShuffleQuestions] returns (it does not panic)
    a slice on an array that did not exist before the call; every
    array that did exist, the one behind the argument among them, is
    as it was, so the argument still holds the same elements; the
    slice returned has the length of the argument and holds a
    permutation of its elements, the one the loop computes on
    values. *)
Theorem ShuffleQuestions_pure
    (seed : Z) (h : gmap positive (list QuizQuestion)) (questions : Slice) :
  validSlice h questions →
  ∃ h' shuffled,
    ShuffleQuestionsAt seed h questions = Ok (h', shuffled)
    ∧ (array shuffled ∉ dom h)
    ∧ (∀ l, l ∈ dom h → h' !! l = h !! l)
    ∧ elements h' questions = elements h questions
    ∧ length (elements h' shuffled) = length (elements h questions)
    ∧ elements h' shuffled ≡ₚ elements h questions
    ∧ ShuffleQuestions seed (elements h questions)
      = Ok (elements h' shuffled).
Proof.
  intros Hvalid. unfold ShuffleQuestionsAt.
  set (l := fresh (dom h)).
  assert (Hl : l ∉ dom h) by apply is_fresh.
  assert (Hne : array questions ≠ l).
  { destruct Hvalid as (a & Ha & _). intros Heq. apply Hl.
    apply elem_of_dom. rewrite <- Heq. by eexists. }
  set (src := elements h questions).
  assert (Hsrc : length src = extent questions)
    by (by apply elements_length).
  cbn [array offset extent].
  set (s := {| array := l; offset := 0; extent := extent questions |}).
  assert (Hmade :
    elements (<[l := replicate (extent questions) zeroQuestion]> h) s
    = replicate (extent questions) zeroQuestion).
  { apply elements_whole; [by rewrite lookup_insert_eq|done|].
    by rewrite length_replicate. }
  assert (Hkept :
    elements (<[l := replicate (extent questions) zeroQuestion]> h)
      questions = src).
  { unfold elements. by rewrite lookup_insert_ne. }
  rewrite Hmade, Hkept, <- Hsrc, copied_zero, insert_insert_eq.
  destruct (fisherYatesAt_whole (length src - 1) (NewSource seed)
              (<[l := src]> h) s src) as (a' & Hval & ->);
    [by rewrite lookup_insert_eq|done|by rewrite Hsrc|lia|].
  destruct (fisherYates_perm (length src - 1) (NewSource seed) src)
    as (a'' & Hval' & Hperm & Hlen); [lia|].
  rewrite Hval in Hval'. injection Hval' as <-.
  cbn [mbind result_bind array]. rewrite insert_insert_eq.
  assert (Hout : elements (<[l := a']> h) s = a').
  { apply elements_whole; [by rewrite lookup_insert_eq|done|].
    cbn. lia. }
  do 2 eexists. split; [done|]. rewrite Hout.
  split; [done|]. split.
  { intros l' Hl'. apply lookup_insert_ne. intros ->. done. }
  split.
  { unfold elements. by rewrite lookup_insert_ne. }
  done.
Qed.

End with_rand.

Lemma lcg_contract : @rand_contract lcg.
Proof. intros r n Hn. cbn. apply Z.mod_pos_bound. lia. Qed.

Lemma ShuffleQuestions_pure_witness :
  let h : gmap positive (list QuizQuestion) :=
    {[ 1%positive := DefaultQuizQuestions ]} in
  let questions := {| array := 1; offset := 0; extent := 2 |} in
  ∃ h' shuffled,
    ShuffleQuestionsAt (H := lcg) 42 h questions = Ok (h', shuffled)
    ∧ (array shuffled ∉ dom h)
    ∧ (∀ l, l ∈ dom h → h' !! l = h !! l)
    ∧ elements h' questions = elements h questions
    ∧ length (elements h' shuffled) = length (elements h questions)
    ∧ elements h' shuffled ≡ₚ elements h questions
    ∧ ShuffleQuestions (H := lcg) 42 (elements h questions)
      = Ok (elements h' shuffled).
Proof.
  intros h questions.
  apply (ShuffleQuestions_pure (H := lcg) lcg_contract 42 h questions).
  exists DefaultQuizQuestions. split; [reflexivity|]. cbn. lia.
Defined.

End ShuffleFacts.

(* ===================================================================== *)
(** * Facts: the question file                                            *)
(* ===================================================================== *)

Module ParserFacts.
Import Go Quiz.

(** *** Strings *)

Lemma strlen_String c s : strlen (String c s) = strlen s + 1.
Proof. unfold strlen. cbn [String.length]. lia. Qed.

Lemma strlen_nonneg s : 0 ≤ strlen s.
Proof. unfold strlen. lia. Qed.

Lemma strlen_zero s : strlen s = 0 ↔ s = EmptyString.
Proof.
  destruct s as [|c s]; [done|]. rewrite strlen_String.
  pose proof (strlen_nonneg s). split; [lia|done].
Qed.

Lemma append_String c a b : String c a +:+ b = String c (a +:+ b).
Proof. reflexivity. Qed.

Lemma append_empty b : EmptyString +:+ b = b.
Proof. reflexivity. Qed.

Lemma str_take_app a b : str_take (String.length a) (a +:+ b) = a.
Proof.
  induction a as [|c a IH]; [by destruct b|].
  rewrite append_String. cbn [String.length str_take]. by rewrite IH.
Qed.

Lemma str_take_all a : str_take (String.length a) a = a.
Proof.
  induction a as [|c a IH]; [done|].
  cbn [String.length str_take]. by rewrite IH.
Qed.

Lemma str_drop_app a b : str_drop (String.length a) (a +:+ b) = b.
Proof.
  induction a as [|c a IH]; [by destruct b|].
  rewrite append_String. cbn [String.length str_drop]. by rewrite IH.
Qed.

Lemma strlen_app a b : strlen (a +:+ b) = strlen a + strlen b.
Proof.
  induction a as [|c a IH]; [rewrite append_empty; unfold strlen; cbn; lia|].
  rewrite append_String, !strlen_String. lia.
Qed.

Lemma contains_String s c d : contains (String d s) c ↔ d = c ∨ contains s c.
Proof.
  unfold contains. cbn [String.list_ascii_of_string].
  rewrite elem_of_cons. split; (intros [Heq|Hin]; [left; by symmetry|by right]).
Qed.

Lemma not_contains_empty c : ¬ contains EmptyString c.
Proof. unfold contains. cbn. apply not_elem_of_nil. Qed.

(** A string that contains [c] splits at the first [c]. *)
Lemma contains_split s c :
  contains s c →
  ∃ text rest, s = text +:+ String c rest ∧ ¬ contains text c.
Proof.
  induction s as [|d s IH]; intros Hc.
  - by apply not_contains_empty in Hc.
  - destruct (decide (d = c)) as [->|Hne].
    + exists EmptyString, s. split; [done|]. apply not_contains_empty.
    + apply contains_String in Hc as [?|Hc]; [done|].
      destruct (IH Hc) as (text & rest & -> & Htext).
      exists (String d text), rest. split; [done|].
      rewrite contains_String. tauto.
Qed.

Lemma IndexByte_absent s c : ¬ contains s c → IndexByte s c = -1.
Proof.
  induction s as [|d s IH]; [done|]. rewrite contains_String. intros Hc.
  cbn [IndexByte]. rewrite decide_False by tauto.
  rewrite IH by tauto. done.
Qed.

Lemma IndexByte_first text c rest :
  ¬ contains text c → IndexByte (text +:+ String c rest) c = strlen text.
Proof.
  induction text as [|d text IH].
  - intros _. rewrite append_empty. cbn. by rewrite decide_True.
  - rewrite contains_String. intros Hc. rewrite append_String.
    cbn [IndexByte].
    rewrite decide_False by tauto. rewrite IH by tauto.
    rewrite strlen_String. pose proof (strlen_nonneg text).
    by rewrite decide_False by lia.
Qed.

Lemma str_from_1 c tail : str_from (String c tail) 1 = Ok tail.
Proof.
  unfold str_from, str_slice. rewrite strlen_String.
  pose proof (strlen_nonneg tail). rewrite decide_True by lia.
  replace (strlen tail + 1 - 1) with (strlen tail) by lia.
  unfold strlen. rewrite Nat2Z.id. change (Z.to_nat 1) with 1%nat.
  cbn [str_drop]. by rewrite str_take_all.
Qed.

Lemma str_slice_text c text rest :
  str_slice (String c (text +:+ rest)) 1 (strlen text + 1) = Ok text.
Proof.
  unfold str_slice. rewrite strlen_String, strlen_app.
  pose proof (strlen_nonneg text). pose proof (strlen_nonneg rest).
  rewrite decide_True by lia.
  replace (strlen text + 1 - 1) with (strlen text) by lia.
  unfold strlen. rewrite Nat2Z.id. change (Z.to_nat 1) with 1%nat.
  cbn [str_drop]. by rewrite str_take_app.
Qed.

Lemma str_from_rest c text d rest :
  str_from (String c (text +:+ String d rest)) (strlen text + 1 + 1) = Ok rest.
Proof.
  unfold str_from, str_slice. rewrite strlen_String, strlen_app, strlen_String.
  pose proof (strlen_nonneg text). pose proof (strlen_nonneg rest).
  rewrite decide_True by lia.
  replace (strlen text + (strlen rest + 1) + 1 - (strlen text + 1 + 1))
    with (strlen rest) by lia.
  replace (Z.to_nat (strlen text + 1 + 1))
    with (S (String.length text + 1)) by (unfold strlen; lia).
  cbn [str_drop].
  replace (String.length text + 1)%nat
    with (String.length (text +:+ String d EmptyString)).
  2:{ apply Nat2Z.inj. change (strlen (text +:+ String d EmptyString)
                                 = Z.of_nat (String.length text + 1)).
      rewrite strlen_app, strlen_String. unfold strlen. cbn. lia. }
  replace (text +:+ String d rest)
    with ((text +:+ String d EmptyString) +:+ rest).
  2:{ clear. induction text as [|e text IH]; [done|].
      by rewrite !append_String, IH. }
  rewrite str_drop_app. unfold strlen. rewrite Nat2Z.id.
  by rewrite str_take_all.
Qed.

Lemma str_index_0 d s : str_index (String d s) 0 = Ok d.
Proof. reflexivity. Qed.

(** What [Atoi] makes of one byte: a value only for a digit, its own. *)
Lemma Atoi_stringOfByte d :
  match Atoi (stringOfByte d) with
  | (v, None) => bool_decide (v = byte d - 48) && isDigit d
  | (_, Some _) => true
  end = true.
Proof. destruct d as [[] [] [] [] [] [] [] []]; vm_compute; reflexivity. Qed.

Lemma byte_inj c d : byte c = byte d → c = d.
Proof.
  unfold byte. intros Heq%Nat2Z.inj.
  by rewrite <- (ascii_nat_embedding c), <- (ascii_nat_embedding d), Heq.
Qed.

Lemma runeCount_zero s : RuneCountInString s = 0 ↔ s = EmptyString.
Proof.
  destruct s as [|c s]; [done|]. unfold RuneCountInString.
  cbn [String.length runeCount]. split; [|done].
  assert (Hnn : ∀ fuel t, 0 ≤ runeCount fuel t).
  { induction fuel as [|fuel IH]; intros [|d t]; cbn; try lia.
    specialize (IH (str_drop (runeWidth d t - 1) t)). lia. }
  specialize (Hnn (String.length s) (str_drop (runeWidth c s - 1) s)). lia.
Qed.

Section with_trim.
Context `{TrimSpaceFn}.

(** *** One line *)

(** On a line with a second quote the parser finds the text before that
    quote and the rest behind it. *)
Lemma parseQuestionLine_quoted c text rest :
  ¬ contains text quote →
  parseQuestionLine (String c (text +:+ String quote rest))
  = let remaining := TrimSpace rest in
    if decide (strlen remaining = 0)
    then Ok (EmptyString, 0, Some ErrNoIndicator)
    else
      b ← str_index remaining 0;
      match Atoi (stringOfByte b) with
      | (_, Some e) => Ok (EmptyString, 0, Some (ErrInvalidIndicator e))
      | (correct, None) =>
          if decide (correct ≠ 0 ∧ correct ≠ 1)
          then Ok (EmptyString, 0, Some (ErrNotBinary correct))
          else if decide (RuneCountInString text = 0)
          then Ok (EmptyString, 0, Some ErrEmptyQuestion)
          else Ok (text, correct, None)
      end.
Proof.
  intros Htext. unfold parseQuestionLine.
  rewrite str_from_1. cbn [mbind result_bind].
  rewrite IndexByte_first by done.
  pose proof (strlen_nonneg text). rewrite decide_False by lia.
  rewrite str_slice_text. cbn [mbind result_bind].
  by rewrite str_from_rest.
Qed.

Lemma parseQuestionLine_unquoted c tail :
  ¬ contains tail quote →
  parseQuestionLine (String c tail)
  = Ok (EmptyString, 0, Some ErrNoClosingQuote).
Proof.
  intros Htail. unfold parseQuestionLine.
  rewrite str_from_1. cbn [mbind result_bind].
  rewrite IndexByte_absent by done. by rewrite decide_True by lia.
Qed.

(** The parser returns on every line the loop hands to it. *)
Lemma parseQuestionLine_total line :
  line ≠ EmptyString →
  ∃ question correct err,
    parseQuestionLine line = Ok (question, correct, err).
Proof.
  destruct line as [|c tail]; [done|]. intros _.
  destruct (decide (contains tail quote)) as [Hc|Hc].
  - apply contains_split in Hc as (text & rest & -> & Htext).
    rewrite parseQuestionLine_quoted by done. cbn zeta.
    case_decide as Hlen; [by eauto|].
    destruct (TrimSpace rest) as [|d remaining]; [done|].
    rewrite str_index_0. cbn [mbind result_bind].
    destruct (Atoi (stringOfByte d)) as [v [e|]]; [by eauto|].
    repeat case_decide; by eauto.
  - rewrite parseQuestionLine_unquoted by done. by eauto.
Qed.

Lemma Malformed_rejected line :
  Malformed line → ∃ e, parseQuestionLine line = Ok (EmptyString, 0, Some e).
Proof.
  intros [c tail Htail|c text rest Htext Hrest
         |c text rest d remaining Htext Hrest Hd0 Hd1|c rest].
  - rewrite parseQuestionLine_unquoted by done. by eauto.
  - rewrite parseQuestionLine_quoted by done. cbn zeta. rewrite Hrest.
    rewrite decide_True by done. by eauto.
  - rewrite parseQuestionLine_quoted by done. cbn zeta. rewrite Hrest.
    rewrite decide_False by (rewrite strlen_zero; done).
    rewrite str_index_0. cbn [mbind result_bind].
    pose proof (Atoi_stringOfByte d) as Hatoi.
    destruct (Atoi (stringOfByte d)) as [v [e|]]; [by eauto|].
    apply andb_true_iff in Hatoi as [Hv%bool_decide_eq_true _].
    rewrite decide_True; [by eauto|]. split; intros ->.
    + apply Hd0, byte_inj. change (byte "0") with 48. lia.
    + apply Hd1, byte_inj. change (byte "1") with 49. lia.
  - change (String quote rest) with (EmptyString +:+ String quote rest).
    rewrite (parseQuestionLine_quoted c EmptyString rest)
      by apply not_contains_empty.
    cbn zeta. case_decide; [by eauto|].
    destruct (TrimSpace rest) as [|d remaining]; [done|].
    rewrite str_index_0. cbn [mbind result_bind].
    destruct (Atoi (stringOfByte d)) as [v [e|]]; [by eauto|].
    case_decide; [by eauto|]. rewrite decide_True by done. by eauto.
Qed.

(** *** The whole file *)

Lemma scanLoop_total lines questions questionID :
  ∃ questions' err,
    scanLoop lines questions questionID = Ok (questions', err)
    ∧ (err ≠ None → questions' = []).
Proof.
  revert questions questionID.
  induction lines as [|text lines IH]; intros questions questionID.
  - exists questions, None. by split.
  - cbn [scanLoop]. cbn zeta. case_decide as Hblank; [apply IH|].
    destruct (parseQuestionLine_total _ Hblank) as (q & k & err & ->).
    cbn [mbind result_bind]. destruct err as [e|]; [|apply IH].
    eexists [], _. by split.
Qed.

Lemma scanLoop_rejects lines questions questionID text :
  text ∈ lines → TrimSpace text ≠ EmptyString →
  (∃ question correct e,
      parseQuestionLine (TrimSpace text) = Ok (question, correct, Some e)) →
  ∃ e, scanLoop lines questions questionID = Ok ([], Some e).
Proof.
  intros Hin Hnonblank (q0 & k0 & e0 & Hbad).
  revert questions questionID.
  induction lines as [|text' lines IH]; intros questions questionID.
  - by apply elem_of_nil in Hin.
  - cbn [scanLoop]. cbn zeta. apply elem_of_cons in Hin as [<-|Hin].
    + rewrite decide_False by done. rewrite Hbad. cbn. by eauto.
    + case_decide as Hblank; [by apply IH|].
      destruct (parseQuestionLine_total _ Hblank) as (q & k & err & ->).
      cbn [mbind result_bind]. destruct err as [e|]; [by eauto|].
      by apply IH.
Qed.

Lemma ParseQuizQuestions_total file :
  ∃ questions err,
    ParseQuizQuestions file = Ok (questions, err)
    ∧ (err ≠ None → questions = []).
Proof.
  destruct file as [|lines failed]; [eexists [], _; by split|].
  unfold ParseQuizQuestions.
  destruct (scanLoop_total lines [] 1) as (qs & err & -> & Hnil).
  cbn [mbind result_bind]. destruct err as [e|]; [eexists [], _; by split|].
  destruct failed; [eexists [], _; by split|].
  case_decide; [eexists [], _; by split|].
  exists qs, None. by split.
Qed.

(** *** What a successful load returns *)

Lemma parseQuestionLine_binary line question correct :
  parseQuestionLine line = Ok (question, correct, None) →
  correct = 0 ∨ correct = 1.
Proof.
  unfold parseQuestionLine.
  destruct (str_from line 1) as [tail|]; cbn [mbind result_bind]; [|done].
  case_decide; [done|].
  destruct (str_slice line 1 _) as [text|]; cbn [mbind result_bind]; [|done].
  destruct (str_from line _) as [rest|]; cbn [mbind result_bind]; [|done].
  case_decide; [done|].
  destruct (str_index _ 0) as [b|]; cbn [mbind result_bind]; [|done].
  destruct (Atoi (stringOfByte b)) as [v [e|]]; [done|].
  case_decide as Hv; [done|]. case_decide; [done|].
  intros [= _ <-]. lia.
Qed.

Lemma scanLoop_wellFormed lines : ∀ questions questionID questions',
  Forall Telegram.wellFormed questions →
  scanLoop lines questions questionID = Ok (questions', None) →
  Forall Telegram.wellFormed questions'.
Proof.
  induction lines as [|text lines IH]; intros questions questionID questions'
    Hwf.
  - by intros [= <-].
  - cbn [scanLoop]. cbn zeta. case_decide as Hblank; [by apply IH|].
    destruct (parseQuestionLine (TrimSpace text)) as [[[q k] [e|]]|] eqn:Hline;
      cbn [mbind result_bind]; [done| |done].
    apply IH. apply Forall_app. split; [done|].
    apply Forall_singleton. split; [done|].
    by eapply parseQuestionLine_binary.
Qed.

(** The catalogue [LoadQuizQuestions] hands to the bot is never empty
    and holds well-formed questions only. *)
Lemma LoadQuizQuestions_wellFormed file questions :
  LoadQuizQuestions file = Ok questions →
  Forall Telegram.wellFormed questions ∧ 0 < len questions.
Proof.
  assert (Hdefault : Forall Telegram.wellFormed DefaultQuizQuestions
                     ∧ 0 < len DefaultQuizQuestions).
  { split; [|done].
    apply Forall_cons. split; [split; [done|by right]|].
    apply Forall_cons. split; [split; [done|by left]|].
    constructor. }
  unfold LoadQuizQuestions, ParseQuizQuestions.
  destruct file as [|lines failed]; cbn [mbind result_bind];
    [by intros [= <-]|].
  destruct (scanLoop lines [] 1) as [[qs [e|]]|] eqn:Hscan;
    cbn [mbind result_bind]; [by intros [= <-]| |done].
  destruct failed; cbn [mbind result_bind]; [by intros [= <-]|].
  case_decide as Hempty; cbn [mbind result_bind]; [by intros [= <-]|].
  intros [= <-]. split.
  - eapply scanLoop_wellFormed; [|done]. constructor.
  - unfold len in *. lia.
Qed.

(** C9. Question-file load.  [ParseQuizQuestions] returns on every file,
    and when it returns an error it returns no question with it; on every
    such failure [LoadQuizQuestions] returns the built-in default
    questions.  If some line of the file is not blank and is malformed
    (missing closing quote, missing correctness digit, a byte other than
    0 and 1 for it, or empty question text), the parse of the whole file
    is such a failure. *)
Theorem malformed_line_fails_load (file : QuestionFile) :
  (∃ questions err,
      ParseQuizQuestions file = Ok (questions, err)
      ∧ (err ≠ None →
         questions = [] ∧ LoadQuizQuestions file = Ok DefaultQuizQuestions))
  ∧ (∀ lines failed text,
       file = Scanned lines failed →
       text ∈ lines → TrimSpace text ≠ EmptyString →
       Malformed (TrimSpace text) →
       ∃ e, ParseQuizQuestions file = Ok ([], Some e)
            ∧ LoadQuizQuestions file = Ok DefaultQuizQuestions).
Proof.
  split.
  - destruct (ParseQuizQuestions_total file) as (qs & err & Hparse & Hnil).
    exists qs, err. split; [done|]. intros Herr. split; [auto|].
    unfold LoadQuizQuestions. rewrite Hparse. cbn.
    by destruct err.
  - intros lines failed text -> Hin Hnonblank Hbad.
    apply Malformed_rejected in Hbad as [e0 Hbad].
    destruct (scanLoop_rejects lines [] 1 text Hin Hnonblank) as [e He];
      [by eauto|].
    exists e. unfold LoadQuizQuestions, ParseQuizQuestions.
    by rewrite He.
Qed.

End with_trim.

Lemma malformed_line_fails_load_witness :
  let good := String quote ("Pork" +:+ String quote " 1") in
  let bad := String quote "Chicken 0" in
  ∃ e, ParseQuizQuestions (H := asciiTrimSpace) (Scanned [good; bad] false)
       = Ok ([], Some e)
       ∧ LoadQuizQuestions (H := asciiTrimSpace) (Scanned [good; bad] false)
         = Ok DefaultQuizQuestions.
Proof.
  intros good bad.
  apply (proj2 (malformed_line_fails_load (H := asciiTrimSpace)
                  (Scanned [good; bad] false)) [good; bad] false bad).
  - reflexivity.
  - apply elem_of_cons. right. apply elem_of_cons. by left.
  - vm_compute. discriminate.
  - change (TrimSpace bad) with bad. apply MissingClosingQuote.
    unfold contains. vm_compute. intros Hin.
    repeat (apply elem_of_cons in Hin as [Hin|Hin]; [discriminate|]).
    by apply elem_of_nil in Hin.
Defined.

(** The two-line file of the specification loads as two questions. *)
Example two_lines_load :
  LoadQuizQuestions (H := asciiTrimSpace)
    (Scanned [String quote ("Pork" +:+ String quote " 1");
              String quote ("Chicken" +:+ String quote " 0")] false)
  = Ok [ {| ID := 1; Question := "Pork";
            Options := [labelFirst; labelSecond]; Correct := 1 |};
         {| ID := 2; Question := "Chicken";
            Options := [labelFirst; labelSecond]; Correct := 0 |} ].
Proof. reflexivity. Qed.

End ParserFacts.

(* ===================================================================== *)
(** * Facts: the handlers                                                 *)
(* ===================================================================== *)

Module TelegramFacts.
Import Go Telegram.

(** C3. An answer whose question index is out of range, run: user 1 is
    in a session of two questions and the callback data names question 5,
    or question -1.  The claim wants the answer treated as invalid, with
    the score unchanged and no panic; [session.Questions[questionIndex]]
    is not guarded and the handler panics. *)
Theorem handleQuizAnswer_index_out_of_range `{Leaderboard.SortSlice} :
  quizSessions midQuiz !! 1
  = Some {| Quiz.UserID := 1; Quiz.CurrentQuestion := 0; Quiz.Score := 0;
            Quiz.Questions := Quiz.DefaultQuizQuestions |}
  ∧ handleQuizAnswer midQuiz 1 "quiz_5_0" sampleUser "01.01.2026 10:00"
    = Panic IndexOutOfRange
  ∧ handleQuizAnswer midQuiz 1 "quiz_-1_0" sampleUser "01.01.2026 10:00"
    = Panic IndexOutOfRange.
Proof. split; [reflexivity|]. split; reflexivity. Qed.

(** *** Callback data: what Sprintf writes, Split and Atoi read back *)

Lemma Split_single a sep : ¬ Quiz.contains a sep → Split a sep = [a].
Proof.
  induction a as [|c a IH]; [done|].
  rewrite ParserFacts.contains_String. intros Hc. cbn [Split].
  rewrite decide_False by tauto. rewrite IH by tauto. done.
Qed.

Lemma Split_first a sep b :
  ¬ Quiz.contains a sep → Split (a +:+ String sep b) sep = a :: Split b sep.
Proof.
  induction a as [|c a IH].
  - intros _. rewrite ParserFacts.append_empty. cbn [Split].
    by rewrite decide_True.
  - rewrite ParserFacts.contains_String. intros Hc.
    rewrite ParserFacts.append_String. cbn [Split].
    rewrite decide_False by tauto. rewrite IH by tauto. done.
Qed.

Lemma byte_ascii_of_nat n : (n < 256)%nat → byte (ascii_of_nat n) = Z.of_nat n.
Proof. intros Hn. unfold byte. by rewrite nat_ascii_embedding. Qed.

Lemma digit_isDigit n :
  0 ≤ n →
  isDigit (ascii_of_nat (Z.to_nat (48 + n `mod` 10))) = true
  ∧ byte (ascii_of_nat (Z.to_nat (48 + n `mod` 10))) - 48 = n `mod` 10.
Proof.
  intros Hn. pose proof (Z.mod_pos_bound n 10 ltac:(lia)).
  unfold isDigit. rewrite byte_ascii_of_nat by lia.
  rewrite bool_decide_eq_true. lia.
Qed.

(** The digits [digitsOf] writes are digits, and it writes at least one. *)
Lemma digitsOf_digits fuel n acc :
  0 ≤ n →
  ∃ c s, digitsOf fuel n acc = String c s ∧ isDigit c = true
         ∧ ∀ sep, isDigit sep = false →
             ¬ Quiz.contains acc sep → ¬ Quiz.contains (String c s) sep.
Proof.
  revert n acc. induction fuel as [|fuel IH]; intros n acc Hn.
  - destruct (digit_isDigit n Hn) as [Hd _]. cbn [digitsOf].
    do 2 eexists. split; [done|]. split; [done|].
    intros sep Hsep Hacc. rewrite ParserFacts.contains_String.
    intros [<-|?]; [congruence|done].
  - destruct (digit_isDigit n Hn) as [Hd _]. cbn [digitsOf].
    case_decide as Hlt.
    + do 2 eexists. split; [done|]. split; [done|].
      intros sep Hsep Hacc. rewrite ParserFacts.contains_String.
      intros [<-|?]; [congruence|done].
    + destruct (IH (n `div` 10)
                  (String (ascii_of_nat (Z.to_nat (48 + n `mod` 10))) acc))
        as (c & s & -> & Hc & Hsep); [apply Z.div_pos; lia|].
      exists c, s. split; [done|]. split; [done|].
      intros sep Hs Hacc. apply Hsep; [done|].
      rewrite ParserFacts.contains_String. intros [<-|?]; [congruence|done].
Qed.

(** Read back from the left, the digits [digitsOf] writes give [n]. *)
Lemma digitsValue_digitsOf fuel n acc :
  0 ≤ n < 2 ^ (Z.of_nat fuel + 1) →
  digitsValue (digitsOf fuel n acc) 0 = digitsValue acc n.
Proof.
  revert n acc. induction fuel as [|fuel IH]; intros n acc Hn.
  - destruct (digit_isDigit n ltac:(lia)) as [Hd Hv].
    cbn [digitsOf digitsValue]. rewrite Hd, Hv.
    change (2 ^ (Z.of_nat 0 + 1)) with 2 in Hn.
    rewrite Z.mod_small by lia. f_equal.
  - destruct (digit_isDigit n ltac:(lia)) as [Hd Hv].
    cbn [digitsOf]. case_decide as Hlt.
    + cbn [digitsValue]. rewrite Hd, Hv. rewrite Z.mod_small by lia. f_equal.
    + rewrite IH.
      * cbn [digitsValue]. rewrite Hd, Hv. f_equal.
        pose proof (Z.div_mod n 10 ltac:(lia)). lia.
      * replace (Z.of_nat (S fuel) + 1) with (Z.succ (Z.of_nat fuel + 1)) in Hn
          by lia.
        rewrite Z.pow_succ_r in Hn by lia.
        split; [apply Z.div_pos; lia|].
        apply Z.div_lt_upper_bound; lia.
Qed.

Lemma log2_fuel n : 0 ≤ n → 0 ≤ n < 2 ^ (Z.of_nat (Z.to_nat (Z.log2 n)) + 1).
Proof.
  intros Hn. rewrite Z2Nat.id by apply Z.log2_nonneg.
  destruct (decide (n = 0)) as [->|Hne]; [done|].
  pose proof (Z.log2_spec n ltac:(lia)) as [_ Hlt].
  rewrite <- Z.add_1_r in Hlt. lia.
Qed.

Lemma Atoi_Itoa n : MinInt ≤ n ≤ MaxInt → Atoi (Itoa n) = (n, None).
Proof.
  intros Hrange. unfold Itoa. case_decide as Hneg.
  - pose proof (digitsValue_digitsOf (Z.to_nat (Z.log2 (- n))) (- n)
                  EmptyString (log2_fuel (- n) ltac:(lia))) as Hval.
    destruct (digitsOf_digits (Z.to_nat (Z.log2 (- n))) (- n) EmptyString)
      as (c & s & Heq & _); [lia|].
    rewrite Heq in *. unfold Atoi.
    rewrite bool_decide_eq_true_2 by done. cbn [orb].
    rewrite Hval. cbn [digitsValue].
    rewrite decide_False by lia. rewrite decide_False by lia.
    f_equal. lia.
  - pose proof (digitsValue_digitsOf (Z.to_nat (Z.log2 n)) n
                  EmptyString (log2_fuel n ltac:(lia))) as Hval.
    destruct (digitsOf_digits (Z.to_nat (Z.log2 n)) n EmptyString)
      as (c & s & Heq & Hc & _); [lia|].
    rewrite Heq in *. unfold Atoi.
    assert (c ≠ "-"%char) by (intros ->; done).
    assert (c ≠ "+"%char) by (intros ->; done).
    rewrite !bool_decide_eq_false_2 by done. cbn [orb].
    rewrite Hval. cbn [digitsValue].
    rewrite decide_False by lia. by rewrite decide_False by lia.
Qed.

Lemma Itoa_no_sep n : ¬ Quiz.contains (Itoa n) "_"%char.
Proof.
  unfold Itoa. case_decide as Hneg.
  - destruct (digitsOf_digits (Z.to_nat (Z.log2 (- n))) (- n) EmptyString)
      as (c & s & -> & _ & Hsep); [lia|].
    rewrite ParserFacts.contains_String. intros [?|Hc]; [done|].
    revert Hc. apply Hsep; [done|]. apply ParserFacts.not_contains_empty.
  - destruct (digitsOf_digits (Z.to_nat (Z.log2 n)) n EmptyString)
      as (c & s & -> & _ & Hsep); [lia|].
    apply Hsep; [done|]. apply ParserFacts.not_contains_empty.
Qed.

Lemma Split_callbackData questionIndex i :
  Split (callbackData questionIndex i) "_"%char
  = ["quiz"; Itoa questionIndex; Itoa i].
Proof.
  unfold callbackData.
  change ("quiz_" +:+ ?x) with ("quiz" +:+ String "_"%char x).
  rewrite Split_first.
  2:{ unfold Quiz.contains. cbn. intros Hin.
      repeat (apply elem_of_cons in Hin as [Hin|Hin]; [discriminate|]).
      by apply elem_of_nil in Hin. }
  change ("_" +:+ ?x) with (String "_"%char x).
  rewrite Split_first by apply Itoa_no_sep.
  by rewrite Split_single by apply Itoa_no_sep.
Qed.

Section with_sort.
Context `{Leaderboard.SortSlice}.

(** A button of the bot is read back as the answer it stands for. *)
Lemma handleQuizAnswer_callbackData b chatID questionIndex i user now :
  MinInt ≤ questionIndex ≤ MaxInt → MinInt ≤ i ≤ MaxInt →
  handleQuizAnswer b chatID (callbackData questionIndex i) user now
  = submitAnswer b chatID questionIndex i user now.
Proof.
  intros Hq Hi. unfold handleQuizAnswer. rewrite Split_callbackData.
  change (len ["quiz"; Itoa questionIndex; Itoa i]) with 3.
  rewrite decide_False by (intros Hne; by apply Hne).
  change (index ["quiz"; Itoa questionIndex; Itoa i] 1)
    with (Ok (Itoa questionIndex)).
  change (index ["quiz"; Itoa questionIndex; Itoa i] 2) with (Ok (Itoa i)).
  cbn [mbind result_bind]. by rewrite !Atoi_Itoa.
Qed.

(** *** No session, or not three fields: nothing happens *)

(** The cases that are dropped without effect.  For every chat without
    an active session, [handleQuizAnswer] (whatever the callback data)
    and [finishQuiz] return the bot as it was, sessions, leaderboard and
    messages sent, and do not panic; and whatever the sessions, callback
    data that does not split into exactly three fields at the
    underscores is such a no-op too. *)
Theorem no_session_no_op (b : Bot) (chatID : Z) (data : string)
    (exited : bool) (user : User) (now : string) :
  (quizSessions b !! chatID = None →
     handleQuizAnswer b chatID data user now = Ok b
     ∧ finishQuiz b chatID exited user now = Ok b)
  ∧ (len (Split data "_"%char) ≠ 3 →
     handleQuizAnswer b chatID data user now = Ok b).
Proof.
  split.
  - intros Hnone. split; [|unfold finishQuiz; by rewrite Hnone].
    unfold handleQuizAnswer. case_decide as Hlen; [done|].
    destruct (Split data "_"%char) as [|p0 [|p1 [|p2 [|p3 parts]]]];
      unfold len in Hlen; cbn [length] in Hlen; try lia.
    cbn. unfold submitAnswer. by rewrite Hnone.
  - intros Hlen. unfold handleQuizAnswer. by rewrite decide_True.
Qed.

End with_sort.

Lemma no_session_no_op_witness :
  (handleQuizAnswer (H := Leaderboard.insertionSort)
     freshBot 1 "quiz_0_1" sampleUser "n" = Ok freshBot
   ∧ finishQuiz (H := Leaderboard.insertionSort)
       freshBot 1 true sampleUser "n" = Ok freshBot)
  ∧ handleQuizAnswer (H := Leaderboard.insertionSort)
      midQuiz 1 "quiz_0" sampleUser "n" = Ok midQuiz.
Proof.
  split.
  - apply (no_session_no_op (H := Leaderboard.insertionSort)
             freshBot 1 "quiz_0_1" true sampleUser "n").
    reflexivity.
  - apply (no_session_no_op (H := Leaderboard.insertionSort)
             midQuiz 1 "quiz_0" true sampleUser "n").
    vm_compute. discriminate.
Defined.

(** C7. The silent no-op, run on callback data whose index fields are
    not numbers.  The claim wants malformed callback data dropped with
    no effect.  [handleQuizAnswer] looks at the number of fields only:
    [Atoi] fails on "x" and on "y", both errors are dropped, and the
    data is handled as option 0 of question 0.  On a session at its
    first question that answer is wrong here: two messages go out and
    the session moves on to the second question.  On a session at its
    last question, where option 0 is the correct one of question 0, the
    data scores a point, completes the quiz and puts 2 of 2, 100
    percent, on the leaderboard. *)
Theorem malformed_answer_is_processed :
  Atoi "x" = (0, Some ErrSyntax) ∧ Atoi "y" = (0, Some ErrSyntax)
  ∧ (∃ b',
      handleQuizAnswer (H := Leaderboard.insertionSort)
        midQuiz 1 "quiz_x_y" sampleUser "n" = Ok b'
      ∧ quizSessions b' !! 1
        = Some {| Quiz.UserID := 1; Quiz.CurrentQuestion := 1;
                  Quiz.Score := 0;
                  Quiz.Questions := Quiz.DefaultQuizQuestions |}
      ∧ length (sent b') = 2%nat
      ∧ b' ≠ midQuiz)
  ∧ (let lastQuestion :=
       withSessions midQuiz
         {[ 1 := {| Quiz.UserID := 1; Quiz.CurrentQuestion := 1;
                    Quiz.Score := 1;
                    Quiz.Questions := reverse Quiz.DefaultQuizQuestions |} ]} in
     ∃ b',
       handleQuizAnswer (H := Leaderboard.insertionSort)
         lastQuestion 1 "quiz_x_y" sampleUser "n" = Ok b'
       ∧ quizSessions b' !! 1 = None
       ∧ leaderboardService b'
         = MemoryService
             {| Leaderboard.Memory.leaderboard :=
                  {| Leaderboard.Entries :=
                       [Leaderboard.submission 1 "user" "User" 2 2 100 "n"] |} |}
       ∧ last (sent b') = Some (FinishedMessage 1 2 2 100 (Some 1))).
Proof.
  split; [reflexivity|]. split; [reflexivity|]. split.
  - eexists. split; [reflexivity|]. split; [reflexivity|].
    split; [reflexivity|]. intros Heq. apply (f_equal sent) in Heq.
    discriminate Heq.
  - eexists. split; [reflexivity|]. split; [reflexivity|].
    split; reflexivity.
Qed.

(** *** The leaderboard calls of finishQuiz return *)

Section with_sort.
Context `{Leaderboard.SortSlice}.

Lemma AddEntry_total svc userID username firstName score total now :
  total ≠ 0 →
  ∃ isNewBest svc',
    AddEntry svc userID username firstName score total now
    = Ok (isNewBest, svc').
Proof.
  intros Htot. destruct svc as [[[before]]|[before net]]; unfold AddEntry.
  - rewrite LeaderboardFacts.Memory_AddEntry_eq by done. cbn. by eauto.
  - rewrite LeaderboardFacts.Gist_AddEntry_eq. rewrite decide_False by done.
    destruct (Leaderboard.Gist.succeeds net 0),
      (Leaderboard.Gist.succeeds net 1); cbn; by eauto.
Qed.

Lemma GetUserPosition_total svc userID :
  ∃ position entry svc',
    GetUserPosition svc userID = Ok (position, entry, svc').
Proof.
  destruct svc as [[[entries]]|[entries net]]; unfold GetUserPosition.
  - unfold Leaderboard.Memory.GetUserPosition. cbn [Leaderboard.Memory.leaderboard
      Leaderboard.Entries].
    rewrite LeaderboardFacts.Memory_GetTop_eq by (unfold len; lia).
    cbn [mbind result_bind].
    destruct (Leaderboard.positionLoop userID 0 _) as [position entry].
    by eauto.
  - unfold Leaderboard.Gist.GetUserPosition.
    rewrite LeaderboardFacts.Gist_GetTop_eq by lia. cbn [mbind result_bind].
    rewrite LeaderboardFacts.Gist_GetTop_eq by (unfold len; lia).
    cbn [mbind result_bind].
    destruct (Leaderboard.positionLoop userID 0 _) as [position entry].
    by eauto.
Qed.

(** *** One answer *)

Lemma sendQuestion_keeps b chatID questionIndex :
  0 ≤ questionIndex →
  ∃ b', sendQuestion b chatID questionIndex = Ok b'
        ∧ quizSessions b' = quizSessions b
        ∧ quizQuestions b' = quizQuestions b.
Proof.
  intros Hq. unfold sendQuestion.
  destruct (quizSessions b !! chatID) as [session|]; [|by eauto].
  case_decide as Hge; [by eauto|].
  destruct (ShuffleFacts.index_in_range (Quiz.Questions session) questionIndex)
    as (question & -> & _); [lia|].
  cbn. by eauto.
Qed.

Lemma finishQuiz_finished b chatID user now session :
  quizSessions b !! chatID = Some session →
  0 < len (Quiz.Questions session) →
  ∃ b' percentage position,
    finishQuiz b chatID false user now = Ok b'
    ∧ quizSessions b' = delete chatID (quizSessions b)
    ∧ quizQuestions b' = quizQuestions b
    ∧ last (sent b')
      = Some (FinishedMessage chatID (Quiz.Score session)
                (len (Quiz.Questions session)) percentage position).
Proof.
  intros Hs Hlen. unfold finishQuiz. rewrite Hs.
  rewrite LeaderboardFacts.int_div_nonzero by lia. cbn [mbind result_bind].
  destruct (AddEntry_total
              (leaderboardService
                 (withSessions b (delete chatID (quizSessions b))))
              (ID user) (UserName user) (FirstName user)
              (Quiz.Score session) (len (Quiz.Questions session)) now)
    as (isNewBest & svc & ->); [lia|].
  cbn [mbind result_bind]. destruct isNewBest.
  - destruct (GetUserPosition_total
                (leaderboardService
                   (withService
                      (withSessions b (delete chatID (quizSessions b))) svc))
                (ID user)) as (position & entry & svc' & ->).
    cbn [mbind result_bind].
    do 3 eexists. split; [done|]. cbn. by rewrite last_snoc.
  - do 3 eexists. split; [done|]. cbn. by rewrite last_snoc.
Qed.

(** One answer to a question of the session: the index of the current
    question moves on by one, the score by one exactly for the correct
    option, and the session is finished with this score once the index
    reaches the number of questions. *)
Lemma submitAnswer_step b chatID questionIndex i user now session question :
  quizSessions b !! chatID = Some session →
  index (Quiz.Questions session) questionIndex = Ok question →
  wellFormed question →
  0 ≤ Quiz.Score session ≤ Quiz.CurrentQuestion session →
  Quiz.CurrentQuestion session < len (Quiz.Questions session) →
  len (Quiz.Questions session) ≤ MaxInt →
  let score :=
    Quiz.Score session + (if decide (i = Quiz.Correct question) then 1 else 0) in
  ∃ b', submitAnswer b chatID questionIndex i user now = Ok b'
        ∧ quizQuestions b' = quizQuestions b
        ∧ if decide (Quiz.CurrentQuestion session + 1
                     < len (Quiz.Questions session))
          then quizSessions b' !! chatID
               = Some {| Quiz.UserID := Quiz.UserID session;
                         Quiz.CurrentQuestion :=
                           Quiz.CurrentQuestion session + 1;
                         Quiz.Score := score;
                         Quiz.Questions := Quiz.Questions session |}
          else quizSessions b' !! chatID = None
               ∧ ∃ percentage position,
                   last (sent b')
                   = Some (FinishedMessage chatID score
                             (len (Quiz.Questions session))
                             percentage position).
Proof.
  intros Hs Hq [Hopts Hcorrect] Hscore Hcur Hmax score.
  destruct session as [uid cur sc questions]. cbn in *.
  assert (Hmin : MinInt < 0) by done.
  unfold submitAnswer. rewrite Hs. cbn [Quiz.Questions].
  rewrite Hq. cbn [mbind result_bind Quiz.Score Quiz.CurrentQuestion
    Quiz.UserID Quiz.Questions].
  assert (Hanswered : ∃ msg,
    (if bool_decide (i = Quiz.Correct question)
     then Ok ({| Quiz.UserID := uid; Quiz.CurrentQuestion := cur;
                 Quiz.Score := int_add sc 1; Quiz.Questions := questions |},
              CorrectMessage chatID)
     else correctAnswer ← index (Quiz.Options question) (Quiz.Correct question);
          Ok ({| Quiz.UserID := uid; Quiz.CurrentQuestion := cur;
                 Quiz.Score := sc; Quiz.Questions := questions |},
              WrongMessage chatID correctAnswer))
    = Ok ({| Quiz.UserID := uid; Quiz.CurrentQuestion := cur;
             Quiz.Score := score; Quiz.Questions := questions |}, msg)).
  { unfold score. case_bool_decide as Hi.
    - rewrite decide_True by done. eexists. unfold int_add.
      by rewrite LeaderboardFacts.wrap_small by lia.
    - rewrite decide_False by done.
      destruct (ShuffleFacts.index_in_range (Quiz.Options question)
                  (Quiz.Correct question)) as (answer & -> & _);
        [unfold len; lia|].
      cbn. eexists. by rewrite Z.add_0_r. }
  destruct Hanswered as [msg ->].
  cbn [mbind result_bind Quiz.Score Quiz.CurrentQuestion Quiz.UserID
    Quiz.Questions].
  unfold int_add. rewrite LeaderboardFacts.wrap_small by lia.
  case_decide as Hnext.
  - destruct (sendQuestion_keeps
                (withSessions (send b msg)
                   (<[chatID := {| Quiz.UserID := uid;
                                   Quiz.CurrentQuestion := cur + 1;
                                   Quiz.Score := score;
                                   Quiz.Questions := questions |}]>
                      (quizSessions (send b msg))))
                chatID (cur + 1)) as (b' & -> & Hsessions & Hquestions);
      [lia|].
    exists b'. split; [done|]. split; [done|].
    rewrite Hsessions. cbn. by rewrite lookup_insert_eq.
  - destruct (finishQuiz_finished
                (withSessions (send b msg)
                   (<[chatID := {| Quiz.UserID := uid;
                                   Quiz.CurrentQuestion := cur + 1;
                                   Quiz.Score := score;
                                   Quiz.Questions := questions |}]>
                      (quizSessions (send b msg))))
                chatID user now
                {| Quiz.UserID := uid; Quiz.CurrentQuestion := cur + 1;
                   Quiz.Score := score; Quiz.Questions := questions |})
      as (b' & percentage & position & -> & Hsessions & Hquestions & Hlast);
      [cbn; by rewrite lookup_insert_eq|cbn; lia|].
    exists b'. split; [done|]. split; [done|].
    rewrite Hsessions. cbn. split; [by rewrite lookup_delete_eq|].
    by eauto.
Qed.

(** *** A run of answers *)

Lemma len_cons {A} (x : A) l : len (x :: l) = len l + 1.
Proof. unfold len. cbn [length]. lia. Qed.

Lemma len_nonneg {A} (l : list A) : 0 ≤ len l.
Proof. unfold len. lia. Qed.

Lemma pressAll_counters chatID user now answers : ∀ b session,
  quizSessions b !! chatID = Some session →
  Forall wellFormed (Quiz.Questions session) →
  len (Quiz.Questions session) ≤ MaxInt →
  0 ≤ Quiz.Score session ≤ Quiz.CurrentQuestion session →
  Quiz.CurrentQuestion session + len answers ≤ len (Quiz.Questions session) →
  Forall (validAnswer (len (Quiz.Questions session))) answers →
  0 ≤ correctAnswers (Quiz.Questions session) answers ≤ len answers
  ∧ ∃ b',
      pressAll b chatID user now answers = Ok b'
      ∧ quizQuestions b' = quizQuestions b
      ∧ match quizSessions b' !! chatID with
        | Some session' =>
            Quiz.CurrentQuestion session'
            = Quiz.CurrentQuestion session + len answers
            ∧ Quiz.Score session'
              = Quiz.Score session
                + correctAnswers (Quiz.Questions session) answers
            ∧ Quiz.Questions session' = Quiz.Questions session
        | None =>
            0 < len answers
            ∧ Quiz.CurrentQuestion session + len answers
              = len (Quiz.Questions session)
            ∧ ∃ percentage position,
                last (sent b')
                = Some (FinishedMessage chatID
                          (Quiz.Score session
                           + correctAnswers (Quiz.Questions session) answers)
                          (len (Quiz.Questions session))
                          percentage position)
        end.
Proof.
  induction answers as [|[questionIndex i] answers IH];
    intros b session Hs Hwf Hmax Hscore Hroom Hvalid.
  - split; [done|]. exists b. split; [done|]. split; [done|].
    rewrite Hs. cbn. split; [unfold len; cbn; lia|]. split; [lia|done].
  - apply Forall_cons in Hvalid as [[Hq Hi] Hvalid]. cbn [fst snd] in Hq, Hi.
    rewrite len_cons in Hroom. pose proof (len_nonneg answers) as Hlen.
    assert (Hmin : MinInt < 0) by done.
    destruct (ShuffleFacts.index_in_range (Quiz.Questions session)
                questionIndex Hq) as (question & Hquestion & Hlookup).
    assert (Hwfq : wellFormed question)
      by (by eapply (Forall_lookup_1 _ _ _ _ Hwf)).
    cbn [pressAll correctAnswers]. rewrite Hquestion.
    rewrite handleQuizAnswer_callbackData by lia.
    destruct (submitAnswer_step b chatID questionIndex i user now session
                question Hs Hquestion Hwfq Hscore ltac:(lia) Hmax)
      as (b1 & -> & Hquestions & Hstep).
    cbn [mbind result_bind]. rewrite len_cons.
    set (gain := if decide (i = Quiz.Correct question) then 1 else 0) in *.
    assert (Hgain : 0 ≤ gain ≤ 1)
      by (unfold gain; destruct (decide (i = Quiz.Correct question)); lia).
    clearbody gain.
    destruct (decide (Quiz.CurrentQuestion session + 1
                      < len (Quiz.Questions session))) as [Hnext|Hnext].
    + destruct (IH b1 _ Hstep) as (Hcount & b' & -> & Hquestions' & Hend);
        cbn [Quiz.Questions Quiz.Score Quiz.CurrentQuestion];
        [done|done|lia|lia|done|].
      cbn [Quiz.Questions Quiz.Score Quiz.CurrentQuestion] in Hcount, Hend.
      split; [lia|]. exists b'. split; [done|].
      split; [congruence|].
      destruct (quizSessions b' !! chatID) as [session'|].
      * destruct Hend as (-> & -> & ->). split; [lia|]. split; [lia|done].
      * destruct Hend as (Hpos & Hfull & percentage & position & ->).
        split; [lia|]. split; [lia|].
        exists percentage, position. do 2 f_equal; lia.
    + destruct Hstep as (Hnone & percentage & position & Hlast).
      assert (answers = []) as ->.
      { destruct answers; [done|]. rewrite len_cons in *.
        pose proof (len_nonneg answers). lia. }
      cbn [pressAll correctAnswers len length] in *.
      split; [lia|]. exists b1. split; [done|]. split; [done|].
      rewrite Hnone. split; [lia|]. split; [lia|].
      exists percentage, position. rewrite Hlast. do 2 f_equal; lia.
Qed.

End with_sort.

Section with_rand_and_sort.
Context `{Quiz.Rand} `{Leaderboard.SortSlice} (Hrand : Quiz.rand_contract).

Lemma startQuiz_started b chatID seed :
  ∃ b0 shuffled,
    startQuiz b chatID seed = Ok b0
    ∧ shuffled ≡ₚ quizQuestions b
    ∧ quizQuestions b0 = quizQuestions b
    ∧ quizSessions b0
      = <[chatID := {| Quiz.UserID := chatID; Quiz.CurrentQuestion := 0;
                       Quiz.Score := 0; Quiz.Questions := shuffled |}]>
          (quizSessions b).
Proof.
  unfold startQuiz.
  destruct (ShuffleFacts.ShuffleQuestions_perm Hrand seed (quizQuestions b))
    as (shuffled & -> & Hperm & _).
  cbn [mbind result_bind].
  destruct (sendQuestion_keeps
              (withSessions b
                 (<[chatID := {| Quiz.UserID := chatID;
                                 Quiz.CurrentQuestion := 0; Quiz.Score := 0;
                                 Quiz.Questions := shuffled |}]>
                    (quizSessions b))) chatID 0)
    as (b0 & -> & Hsessions & Hquestions); [lia|].
  exists b0, shuffled. split; [done|]. split; [done|].
  split; [done|]. by rewrite Hsessions.
Qed.

(** C4. Session counter invariant.  A session is started on well-formed
    questions (two options, one of them correct) with index 0 and score
    0, on a permutation of the catalogue.  Then for every run of [k]
    answers, [0 ≤ k ≤ total], each to a question of the session, pressed
    on the buttons of the bot, no call panics, the number of correct
    answers among them is at most [k], and afterwards: while the session
    is active its index is [k] and its score is the number of correct
    answers, so each answer has moved the index by one, and the score by
    one exactly when the option was the correct one of its question; and
    once the session is gone, [k] is the number of questions and the
    final message reports that score out of [k]. *)
Theorem session_counters (b : Bot) (chatID seed : Z) (user : User)
    (now : string) (answers : list (Z * Z)) :
  Forall wellFormed (quizQuestions b) →
  len (quizQuestions b) ≤ MaxInt →
  Forall (validAnswer (len (quizQuestions b))) answers →
  len answers ≤ len (quizQuestions b) →
  ∃ b0 session0 b',
    startQuiz b chatID seed = Ok b0
    ∧ quizSessions b0 !! chatID = Some session0
    ∧ Quiz.CurrentQuestion session0 = 0 ∧ Quiz.Score session0 = 0
    ∧ Quiz.Questions session0 ≡ₚ quizQuestions b
    ∧ pressAll b0 chatID user now answers = Ok b'
    ∧ 0 ≤ correctAnswers (Quiz.Questions session0) answers ≤ len answers
    ∧ match quizSessions b' !! chatID with
      | Some session =>
          Quiz.CurrentQuestion session = len answers
          ∧ Quiz.Score session
            = correctAnswers (Quiz.Questions session0) answers
          ∧ Quiz.Score session ≤ Quiz.CurrentQuestion session
          ∧ Quiz.Questions session = Quiz.Questions session0
      | None =>
          0 < len answers ∧ len answers = len (quizQuestions b)
          ∧ ∃ percentage position,
              last (sent b')
              = Some (FinishedMessage chatID
                        (correctAnswers (Quiz.Questions session0) answers)
                        (len answers) percentage position)
      end.
Proof.
  intros Hwf Hmax Hvalid Hroom.
  destruct (startQuiz_started b chatID seed)
    as (b0 & shuffled & Hstart & Hperm & Hquestions & Hsessions).
  assert (Hlen : len shuffled = len (quizQuestions b))
    by (unfold len; f_equal; by apply Permutation_length).
  set (session0 := {| Quiz.UserID := chatID; Quiz.CurrentQuestion := 0;
                      Quiz.Score := 0; Quiz.Questions := shuffled |}).
  assert (Hs : quizSessions b0 !! chatID = Some session0)
    by (rewrite Hsessions; apply lookup_insert_eq).
  destruct (pressAll_counters chatID user now answers b0 session0 Hs)
    as (Hcount & b' & Hrun & _ & Hend); cbn [session0 Quiz.Questions
      Quiz.Score Quiz.CurrentQuestion];
    [by rewrite Hperm|lia|lia|lia|by rewrite Hlen|].
  exists b0, session0, b'. repeat (split; [done|]).
  cbn [session0 Quiz.Questions Quiz.Score Quiz.CurrentQuestion] in *.
  destruct (quizSessions b' !! chatID) as [session|].
  - destruct Hend as (Hcur & Hsc & Hqs). split; [lia|]. split; [lia|].
    split; [lia|done].
  - destruct Hend as (Hpos & Hfull & percentage & position & Hlast).
    split; [done|]. split; [lia|]. exists percentage, position.
    rewrite Hlast. do 2 f_equal; lia.
Qed.

End with_rand_and_sort.

(** The catalogue of a bot [NewBot] makes is never empty and holds
    well-formed questions only. *)
Lemma NewBot_wellFormed `{Quiz.TrimSpaceFn} svc file b :
  NewBot svc file = Ok b →
  Forall wellFormed (quizQuestions b) ∧ 0 < len (quizQuestions b).
Proof.
  unfold NewBot.
  destruct (Quiz.LoadQuizQuestions file) as [questions|] eqn:Hload;
    cbn [mbind result_bind]; [|done].
  intros [= <-]. by apply ParserFacts.LoadQuizQuestions_wellFormed in Hload.
Qed.

Lemma DefaultQuizQuestions_wellFormed :
  Forall wellFormed Quiz.DefaultQuizQuestions.
Proof.
  apply Forall_cons. split; [split; [done|by right]|].
  apply Forall_cons. split; [split; [done|by left]|].
  constructor.
Qed.

Lemma session_counters_witness :
  ∃ b0 session0 b',
    startQuiz (H := Quiz.lcg) freshBot 1 42 = Ok b0
    ∧ quizSessions b0 !! 1 = Some session0
    ∧ Quiz.CurrentQuestion session0 = 0 ∧ Quiz.Score session0 = 0
    ∧ Quiz.Questions session0 ≡ₚ quizQuestions freshBot
    ∧ pressAll (H := Leaderboard.insertionSort) b0 1 sampleUser "n"
        [(0, 0); (1, 0)] = Ok b'
    ∧ 0 ≤ correctAnswers (Quiz.Questions session0) [(0, 0); (1, 0)]
        ≤ len [(0, 0); (1, 0)]
    ∧ match quizSessions b' !! 1 with
      | Some session =>
          Quiz.CurrentQuestion session = len [(0, 0); (1, 0)]
          ∧ Quiz.Score session
            = correctAnswers (Quiz.Questions session0) [(0, 0); (1, 0)]
          ∧ Quiz.Score session ≤ Quiz.CurrentQuestion session
          ∧ Quiz.Questions session = Quiz.Questions session0
      | None =>
          0 < len [(0, 0); (1, 0)]
          ∧ len [(0, 0); (1, 0)] = len (quizQuestions freshBot)
          ∧ ∃ percentage position,
              last (sent b')
              = Some (FinishedMessage 1
                        (correctAnswers (Quiz.Questions session0)
                           [(0, 0); (1, 0)])
                        (len [(0, 0); (1, 0)]) percentage position)
      end.
Proof.
  apply (session_counters (H := Quiz.lcg) (H0 := Leaderboard.insertionSort)
           ShuffleFacts.lcg_contract freshBot 1 42 sampleUser "n"
           [(0, 0); (1, 0)]).
  - apply DefaultQuizQuestions_wellFormed.
  - vm_compute. discriminate.
  - repeat constructor; vm_compute; discriminate.
  - vm_compute. discriminate.
Defined.

(** The run of the witness, computed: the two built-in questions come out
    of the shuffle in the order 2, 1; option 0 is right for the first and
    wrong for the second, and the quiz ends with 1 of 2. *)
Example session_run :
  (b0 ← startQuiz (H := Quiz.lcg) freshBot 1 42;
   b' ← pressAll (H := Leaderboard.insertionSort) b0 1 sampleUser "n"
          [(0, 0); (1, 0)];
   Ok (quizSessions b' !! 1, last (sent b')))
  = Ok (None, Some (FinishedMessage 1 1 2 50 (Some 1))).
Proof. vm_compute. reflexivity. Qed.

(** The end-to-end run of the specification: the two-line file is
    loaded, the session over the shuffled pair is answered correctly both
    times and finishes with 2 of 2, 100 percent, at rank 1 of a
    leaderboard that was empty. *)
Example end_to_end :
  (b ← NewBot (H := Quiz.asciiTrimSpace)
         (MemoryService Leaderboard.Memory.NewMemoryLeaderboardService)
         (Quiz.Scanned
            [String Quiz.quote ("Pork" +:+ String Quiz.quote " 1");
             String Quiz.quote ("Chicken" +:+ String Quiz.quote " 0")] false);
   b0 ← startQuiz (H := Quiz.lcg) b 1 42;
   b' ← pressAll (H := Leaderboard.insertionSort) b0 1 sampleUser "n"
          [(0, 0); (1, 1)];
   Ok ((λ session, Quiz.Question <$> Quiz.Questions session)
         <$> quizSessions b0 !! 1,
       quizSessions b' !! 1, last (sent b')))
  = Ok (Some ["Chicken"; "Pork"], None,
        Some (FinishedMessage 1 2 2 100 (Some 1))).
Proof. vm_compute. reflexivity. Qed.

End TelegramFacts.

(* ===================================================================== *)
(** * Facts: runs of the leaderboard store                                *)
(* ===================================================================== *)

Module SubmissionFacts.
Import Go Leaderboard Submissions.

Lemma absent_iff entries userID :
  absent entries userID ↔ userID ∉ UserID <$> entries.
Proof.
  unfold absent. rewrite list_elem_of_fmap. split.
  - intros Habs (e & -> & He). by eapply Habs.
  - intros Hnot e He Heq. apply Hnot. by exists e.
Qed.

Lemma not_better_refl e : ¬ strictlyBetter e e.
Proof. unfold strictlyBetter. lia. Qed.

Lemma not_better_trans a b c :
  ¬ strictlyBetter a b → ¬ strictlyBetter b c → ¬ strictlyBetter a c.
Proof. unfold strictlyBetter. lia. Qed.

(** *** One merge *)

Section one_merge.
Context (new : LeaderboardEntry) (entries : list LeaderboardEntry).
Local Abbreviation after :=
  (merged (UserID new) (Percentage new) (Score new) new entries).

Lemma merged_cases :
  (absent entries (UserID new) ∧ after = entries ++ [new])
  ∨ (∃ pre old post,
        storedAs entries (UserID new) pre old post
        ∧ after = pre ++ (if improves (Percentage new) (Score new) old
                          then new else old) :: post).
Proof.
  unfold merged.
  destruct (LeaderboardFacts.stored_or_absent entries (UserID new))
    as [Habs|(pre & old & post & Hst)].
  - left. by rewrite LeaderboardFacts.mergeLoop_absent.
  - right. exists pre, old, post.
    by rewrite (LeaderboardFacts.mergeLoop_stored _ _ _ _ _ _ _ _ Hst).
Qed.

Lemma merged_elem e : e ∈ after → e ∈ entries ∨ e = new.
Proof.
  destruct merged_cases as [[_ ->]|(pre & old & post & (-> & _ & _) & ->)].
  - rewrite elem_of_app, list_elem_of_singleton. tauto.
  - rewrite !elem_of_app, !elem_of_cons.
    destruct (improves _ _ old); tauto.
Qed.

Lemma merged_keeps e0 :
  e0 ∈ entries →
  ∃ e1, e1 ∈ after ∧ UserID e1 = UserID e0 ∧ ¬ strictlyBetter e0 e1.
Proof.
  destruct merged_cases as [[_ ->]|(pre & old & post & (-> & Hid & _) & ->)].
  - intros He0. exists e0. rewrite elem_of_app.
    split; [by left|]. split; [done|apply not_better_refl].
  - rewrite !elem_of_app, !elem_of_cons. intros [He0|[->|He0]].
    + exists e0. rewrite elem_of_app.
      split; [by left|]. split; [done|apply not_better_refl].
    + destruct (improves _ _ old) eqn:Himp.
      * exists new. rewrite elem_of_app, elem_of_cons.
        split; [right; by left|]. split; [done|].
        apply LeaderboardFacts.improves_spec in Himp.
        unfold strictlyBetter. lia.
      * exists old. rewrite elem_of_app, elem_of_cons.
        split; [right; by left|]. split; [done|apply not_better_refl].
    + exists e0. rewrite elem_of_app, elem_of_cons.
      split; [right; by right|]. split; [done|apply not_better_refl].
Qed.

Lemma merged_has :
  ∃ e, e ∈ after ∧ UserID e = UserID new ∧ ¬ strictlyBetter new e.
Proof.
  destruct merged_cases as [[_ ->]|(pre & old & post & (-> & Hid & _) & ->)].
  - exists new. rewrite elem_of_app, list_elem_of_singleton.
    split; [by right|]. split; [done|apply not_better_refl].
  - destruct (improves _ _ old) eqn:Himp.
    + exists new. rewrite elem_of_app, elem_of_cons.
      split; [right; by left|]. split; [done|apply not_better_refl].
    + exists old. rewrite elem_of_app, elem_of_cons.
      split; [right; by left|]. split; [done|].
      apply not_true_iff_false in Himp.
      rewrite LeaderboardFacts.improves_spec in Himp.
      unfold strictlyBetter. lia.
Qed.

Lemma merged_userIDs :
  UserID <$> after
  = (UserID <$> entries)
    ++ (if decide (UserID new ∈ UserID <$> entries) then [] else [UserID new]).
Proof.
  destruct merged_cases as [[Habs ->]|(pre & old & post & Hst & ->)].
  - rewrite decide_False by (by apply absent_iff). by rewrite fmap_app.
  - rewrite decide_True.
    2:{ destruct (decide (UserID new ∈ UserID <$> entries)) as [|Hn]; [done|].
        apply absent_iff in Hn. exfalso.
        by eapply LeaderboardFacts.stored_not_absent. }
    destruct Hst as (-> & Hid & _). rewrite app_nil_r, !fmap_app, !fmap_cons.
    by destruct (improves _ _ old); rewrite ?Hid.
Qed.

Lemma merged_others :
  filter (λ e, UserID e ≠ UserID new) after
  = filter (λ e, UserID e ≠ UserID new) entries.
Proof.
  destruct merged_cases as [[_ ->]|(pre & old & post & (-> & Hid & _) & ->)].
  - rewrite filter_app, filter_cons_False by (intros Hne; by apply Hne).
    by rewrite filter_nil, app_nil_r.
  - rewrite !filter_app. f_equal.
    rewrite (filter_cons_False _ old) by (intros Hne; by apply Hne).
    destruct (improves _ _ old); [|by rewrite filter_cons_False
                                       by (intros Hne; by apply Hne)].
    by rewrite filter_cons_False by (intros Hne; by apply Hne).
Qed.

End one_merge.

(** *** One call, both services *)

Lemma Memory_AddEntry_call ms c :
  callTotal c ≠ 0 →
  Memory.AddEntry ms (callUser c) (callUsername c) (callFirstName c)
    (callScore c) (callTotal c) (callNow c)
  = Ok (true,
        {| Memory.leaderboard :=
             {| Entries :=
                  merged (UserID (entryOf c)) (Percentage (entryOf c))
                    (Score (entryOf c)) (entryOf c)
                    (Entries (Memory.leaderboard ms)) |} |}).
Proof.
  intros Htot. destruct ms as [[before]].
  by rewrite LeaderboardFacts.Memory_AddEntry_eq.
Qed.

(** X3. A call of [AddEntry] touches the entry of its user only: the
    collection [after] it merges has the entries of the other users as
    they were, in the same order, and is one entry longer exactly when
    the user had none.  The volatile store holds [after].  The gist
    holds what the JSON text of [after] reads back as when it returns
    [true], which is [after] itself when the strings of the stored
    entries and of the submission are valid UTF-8, and keeps the
    document as it was when it returns [false]. *)
Theorem AddEntry_touches_one_user
    (before : list LeaderboardEntry) (net : list bool) (c : Call) :
  callTotal c ≠ 0 →
  ∃ after isNewBest gs,
    Memory.AddEntry {| Memory.leaderboard := {| Entries := before |} |}
      (callUser c) (callUsername c) (callFirstName c) (callScore c)
      (callTotal c) (callNow c)
    = Ok (true, {| Memory.leaderboard := {| Entries := after |} |})
    ∧ Gist.AddEntry {| Gist.document := before; Gist.network := net |}
        (callUser c) (callUsername c) (callFirstName c) (callScore c)
        (callTotal c) (callNow c)
      = Ok (isNewBest, gs)
    ∧ Gist.document gs = (if isNewBest then jsonEntry <$> after else before)
    ∧ (forallb validEntry before = true → validEntry (entryOf c) = true →
       jsonEntry <$> after = after)
    ∧ filter (λ e, UserID e ≠ callUser c) after
      = filter (λ e, UserID e ≠ callUser c) before
    ∧ len after
      = len before
        + (if decide (callUser c ∈ UserID <$> before) then 0 else 1).
Proof.
  intros Htot.
  exists (merged (UserID (entryOf c)) (Percentage (entryOf c))
            (Score (entryOf c)) (entryOf c) before),
    (Gist.succeeds net 0 && Gist.succeeds net 1),
    {| Gist.document :=
         if Gist.succeeds net 0 && Gist.succeeds net 1
         then jsonEntry
              <$> merged (UserID (entryOf c)) (Percentage (entryOf c))
                    (Score (entryOf c)) (entryOf c) before
         else before;
       Gist.network :=
         drop (if Gist.succeeds net 0 then 2 else 1)%nat net |}.
  split; [by apply (Memory_AddEntry_call
    {| Memory.leaderboard := {| Entries := before |} |})|].
  rewrite LeaderboardFacts.Gist_AddEntry_eq, decide_False by done.
  split.
  { by destruct (Gist.succeeds net 0), (Gist.succeeds net 1). }
  split; [done|].
  split.
  { intros Hbefore Hnew.
    by apply LeaderboardFacts.jsonEntries_valid,
      LeaderboardFacts.merged_valid. }
  split; [apply (merged_others (entryOf c))|].
  unfold len.
  rewrite <- (length_fmap UserID (merged _ _ _ _ _)).
  rewrite (merged_userIDs (entryOf c) before), length_app, length_fmap.
  cbn [UserID entryOf submission]. case_decide; cbn [length]; lia.
Qed.

Lemma AddEntry_touches_one_user_witness :
  ∃ after isNewBest gs,
    Memory.AddEntry
      {| Memory.leaderboard :=
           {| Entries := [submission 1 "a" "A" 7 10 70 "d";
                          submission 2 "b" "B" 5 10 50 "d"] |} |}
      2 "b" "B" 9 10 "n"
    = Ok (true, {| Memory.leaderboard := {| Entries := after |} |})
    ∧ Gist.AddEntry
        {| Gist.document := [submission 1 "a" "A" 7 10 70 "d";
                             submission 2 "b" "B" 5 10 50 "d"];
           Gist.network := [true; false] |}
        2 "b" "B" 9 10 "n"
      = Ok (isNewBest, gs)
    ∧ Gist.document gs
      = (if isNewBest then jsonEntry <$> after
         else [submission 1 "a" "A" 7 10 70 "d";
               submission 2 "b" "B" 5 10 50 "d"])
    ∧ jsonEntry <$> after = after
    ∧ filter (λ e, UserID e ≠ 2) after
      = filter (λ e, UserID e ≠ 2)
          [submission 1 "a" "A" 7 10 70 "d"; submission 2 "b" "B" 5 10 50 "d"]
    ∧ len after
      = len [submission 1 "a" "A" 7 10 70 "d"; submission 2 "b" "B" 5 10 50 "d"]
        + (if decide (2 ∈ UserID <$> [submission 1 "a" "A" 7 10 70 "d";
                                      submission 2 "b" "B" 5 10 50 "d"])
           then 0 else 1).
Proof.
  destruct (AddEntry_touches_one_user
              [submission 1 "a" "A" 7 10 70 "d";
               submission 2 "b" "B" 5 10 50 "d"]
              [true; false] (mkCall 2 "b" "B" 9 10 "n"))
    as (after & isNewBest & gs & Hadd & Hgist & Hdoc & Hvalid & Hrest).
  - cbn. lia.
  - exists after, isNewBest, gs. split; [exact Hadd|]. split; [exact Hgist|].
    split; [exact Hdoc|]. split; [|exact Hrest].
    apply Hvalid; reflexivity.
Defined.

(** *** Runs of calls *)

Lemma addEntries_cons ms c calls :
  callTotal c ≠ 0 →
  addEntries ms (c :: calls)
  = addEntries
      {| Memory.leaderboard :=
           {| Entries :=
                merged (UserID (entryOf c)) (Percentage (entryOf c))
                  (Score (entryOf c)) (entryOf c)
                  (Entries (Memory.leaderboard ms)) |} |} calls.
Proof.
  intros Htot. cbn [addEntries]. by rewrite Memory_AddEntry_call.
Qed.

(** X1. The volatile store holds, for every user, the best result ever
    submitted: after any run of [AddEntry] calls (with non-zero totals)
    from any store, every call finds an entry of its user that its own
    submission does not beat, every entry that was stored before still
    has an entry of its user that it does not beat, and every stored
    entry is one that was stored before or the submission of one of the
    calls. *)
Theorem addEntries_best_ever
    (ms0 : Memory.MemoryLeaderboardService) (calls : list Call) :
  Forall (λ c, callTotal c ≠ 0) calls →
  ∃ ms,
    addEntries ms0 calls = Ok ms
    ∧ (∀ c, c ∈ calls →
         ∃ e, e ∈ Entries (Memory.leaderboard ms)
              ∧ UserID e = callUser c ∧ ¬ strictlyBetter (entryOf c) e)
    ∧ (∀ e0, e0 ∈ Entries (Memory.leaderboard ms0) →
         ∃ e, e ∈ Entries (Memory.leaderboard ms)
              ∧ UserID e = UserID e0 ∧ ¬ strictlyBetter e0 e)
    ∧ (∀ e, e ∈ Entries (Memory.leaderboard ms) →
         e ∈ Entries (Memory.leaderboard ms0)
         ∨ ∃ c, c ∈ calls ∧ e = entryOf c).
Proof.
  intros Hcalls. revert ms0.
  induction Hcalls as [|c calls Htot _ IH]; intros ms0.
  - exists ms0. split; [done|]. split; [by intros c ?%elem_of_nil|].
    split; [|by left]. intros e0 He0. exists e0.
    split; [done|]. split; [done|apply not_better_refl].
  - rewrite addEntries_cons by done.
    set (ms1 := {| Memory.leaderboard := {| Entries := merged _ _ _ _ _ |} |}).
    destruct (IH ms1) as (ms & -> & Hcall & Hold & Hnew).
    exists ms. split; [done|]. split; [|split].
    + intros c' [->|Hc']%elem_of_cons; [|by apply Hcall].
      destruct (merged_has (entryOf c) (Entries (Memory.leaderboard ms0)))
        as (e1 & He1 & Hid1 & Hbest1).
      destruct (Hold e1 He1) as (e & He & Hid & Hbest).
      exists e. split; [done|]. split; [by rewrite Hid, Hid1|].
      by eapply not_better_trans.
    + intros e0 He0.
      destruct (merged_keeps (entryOf c) _ e0 He0) as (e1 & He1 & Hid1 & Hbest1).
      destruct (Hold e1 He1) as (e & He & Hid & Hbest).
      exists e. split; [done|]. split; [by rewrite Hid, Hid1|].
      by eapply not_better_trans.
    + intros e He. destruct (Hnew e He) as [He1|(c' & Hc' & ->)].
      * apply (merged_elem (entryOf c)) in He1 as [He0| ->]; [by left|].
        right. exists c. split; [by left|done].
      * right. exists c'. split; [by right|done].
Qed.

Lemma addEntries_best_ever_witness :
  ∃ ms,
    addEntries Memory.NewMemoryLeaderboardService
      [mkCall 1 "a" "A" 3 10 "d1"; mkCall 1 "a" "A" 7 10 "d2";
       mkCall 1 "a" "A" 5 10 "d3"] = Ok ms
    ∧ ∃ e, e ∈ Entries (Memory.leaderboard ms) ∧ UserID e = 1
           ∧ ¬ strictlyBetter (entryOf (mkCall 1 "a" "A" 7 10 "d2")) e.
Proof.
  destruct (addEntries_best_ever Memory.NewMemoryLeaderboardService
              [mkCall 1 "a" "A" 3 10 "d1"; mkCall 1 "a" "A" 7 10 "d2";
               mkCall 1 "a" "A" 5 10 "d3"])
    as (ms & Hrun & Hcall & _).
  - repeat constructor; cbn; lia.
  - exists ms. split; [exact Hrun|].
    apply (Hcall (mkCall 1 "a" "A" 7 10 "d2")).
    apply elem_of_cons. right. apply elem_of_cons. by left.
Defined.

(** X2. One entry per user: if no two stored entries share a user, no
    run of [AddEntry] calls (with non-zero totals) makes two entries
    share one, and the users stored afterwards are those stored before
    and those of the calls. *)
Theorem addEntries_one_entry_per_user
    (ms0 : Memory.MemoryLeaderboardService) (calls : list Call) :
  Forall (λ c, callTotal c ≠ 0) calls →
  NoDup (UserID <$> Entries (Memory.leaderboard ms0)) →
  ∃ ms,
    addEntries ms0 calls = Ok ms
    ∧ NoDup (UserID <$> Entries (Memory.leaderboard ms))
    ∧ ∀ userID,
        userID ∈ UserID <$> Entries (Memory.leaderboard ms)
        ↔ userID ∈ UserID <$> Entries (Memory.leaderboard ms0)
          ∨ userID ∈ callUser <$> calls.
Proof.
  intros Hcalls. revert ms0.
  induction Hcalls as [|c calls Htot _ IH]; intros ms0 Hnodup.
  - exists ms0. split; [done|]. split; [done|].
    intros userID. rewrite fmap_nil, elem_of_nil. tauto.
  - rewrite addEntries_cons by done.
    set (ms1 := {| Memory.leaderboard := {| Entries := merged _ _ _ _ _ |} |}).
    assert (Hids : UserID <$> Entries (Memory.leaderboard ms1)
                   = (UserID <$> Entries (Memory.leaderboard ms0))
                     ++ (if decide (callUser c
                                    ∈ UserID <$> Entries (Memory.leaderboard ms0))
                         then [] else [callUser c]))
      by apply (merged_userIDs (entryOf c)).
    destruct (IH ms1) as (ms & -> & Hnodup' & Hdom).
    { rewrite Hids. case_decide as Hin; [by rewrite app_nil_r|].
      apply NoDup_app. split; [done|]. split; [|apply NoDup_singleton].
      intros x Hx ->%list_elem_of_singleton. done. }
    exists ms. split; [done|]. split; [done|].
    intros userID. rewrite Hdom, Hids, fmap_cons, elem_of_app, elem_of_cons.
    case_decide as Hin.
    + rewrite elem_of_nil. split; [tauto|].
      intros [?|[->|?]]; tauto.
    + rewrite list_elem_of_singleton. tauto.
Qed.

Lemma addEntries_one_entry_per_user_witness :
  ∃ ms,
    addEntries Memory.NewMemoryLeaderboardService
      [mkCall 1 "a" "A" 3 10 "d1"; mkCall 2 "b" "B" 7 10 "d2";
       mkCall 1 "a" "A" 5 10 "d3"] = Ok ms
    ∧ NoDup (UserID <$> Entries (Memory.leaderboard ms))
    ∧ ∀ userID,
        userID ∈ UserID <$> Entries (Memory.leaderboard ms)
        ↔ userID ∈ UserID <$> Entries
                     (Memory.leaderboard Memory.NewMemoryLeaderboardService)
          ∨ userID ∈ callUser <$> [mkCall 1 "a" "A" 3 10 "d1";
                                   mkCall 2 "b" "B" 7 10 "d2";
                                   mkCall 1 "a" "A" 5 10 "d3"].
Proof.
  apply (addEntries_one_entry_per_user Memory.NewMemoryLeaderboardService
           [mkCall 1 "a" "A" 3 10 "d1"; mkCall 2 "b" "B" 7 10 "d2";
            mkCall 1 "a" "A" 5 10 "d3"]).
  - repeat constructor; cbn; lia.
  - cbn. constructor.
Defined.

(** *** The two services side by side *)

Section with_sort.
Context `{SortSlice} (Hsort : sort_contract).

(** X4. With a working network the gist service does what the volatile
    one does on the same collection, up to the JSON text in between:
    [AddEntry] returns the same boolean (or panics alike, on a zero
    total) and its document is what the JSON text of the collection of
    the volatile store reads back as, which is that collection itself
    when the strings of the stored entries and of the submission are
    valid UTF-8; [GetTop] returns the same entries (or panics alike, on
    a negative limit), and up to 1000 entries [GetUserPosition] returns
    the same rank and entry. *)
Theorem gist_agrees_with_memory
    (entries : list LeaderboardEntry) (net : list bool) (c : Call)
    (limit userID : Z) :
  Gist.succeeds net 0 = true → Gist.succeeds net 1 = true →
  let ms := {| Memory.leaderboard := {| Entries := entries |} |} in
  let gs := {| Gist.document := entries; Gist.network := net |} in
  match Memory.AddEntry ms (callUser c) (callUsername c) (callFirstName c)
          (callScore c) (callTotal c) (callNow c),
        Gist.AddEntry gs (callUser c) (callUsername c) (callFirstName c)
          (callScore c) (callTotal c) (callNow c) with
  | Ok (isNewBest, ms'), Ok (isNewBest', gs') =>
      isNewBest' = isNewBest
      ∧ Gist.document gs' = jsonEntry <$> Entries (Memory.leaderboard ms')
      ∧ (forallb validEntry entries = true →
         validEntry (entryOf c) = true →
         Gist.document gs' = Entries (Memory.leaderboard ms'))
  | Panic p, Panic p' => p' = p
  | _, _ => False
  end
  ∧ match Memory.GetTop ms limit, Gist.GetTop gs limit with
    | Ok top, Ok (top', gs') => top' = top ∧ Gist.document gs' = entries
    | Panic p, Panic p' => p' = p
    | _, _ => False
    end
  ∧ (len entries ≤ 1000 →
     match Memory.GetUserPosition ms userID,
           Gist.GetUserPosition gs userID with
     | Ok position, Ok (position', gs') =>
         position' = position ∧ Gist.document gs' = entries
     | _, _ => False
     end).
Proof.
  intros Hfirst Hsecond ms gs. split; [|split].
  - unfold ms, gs. rewrite LeaderboardFacts.Gist_AddEntry_eq, Hfirst, Hsecond.
    case_decide as Htot.
    + rewrite Htot. by cbn.
    + rewrite LeaderboardFacts.Memory_AddEntry_eq by done.
      cbn [Gist.document Memory.leaderboard Entries].
      split; [done|]. split; [done|]. intros Hentries Hnew.
      by apply LeaderboardFacts.jsonEntries_valid,
        LeaderboardFacts.merged_valid.
  - unfold ms, gs, Memory.GetTop, Gist.GetTop, Gist.loadFromGist,
      Gist.roundTrip.
    assert (∃ net', (match net with
                     | [] => (true, {| Gist.document := entries;
                                       Gist.network := net |})
                     | ok :: rest => (ok, {| Gist.document := entries;
                                             Gist.network := rest |})
                     end) = (true, {| Gist.document := entries;
                                      Gist.network := net' |}))
      as [net' Hnet].
    { revert Hfirst. unfold Gist.succeeds.
      destruct net as [|[] rest]; cbn; [by eauto..|done]. }
    cbn [Gist.network Gist.document Memory.leaderboard Entries].
    rewrite Hnet. cbn [Gist.document Entries].
    by destruct (slice_to _ _).
  - intros Hsmall. unfold ms, gs.
    rewrite (LeaderboardFacts.Gist_GetUserPosition_small Hsort) by done.
    unfold Memory.GetUserPosition. cbn [Memory.leaderboard Entries].
    rewrite LeaderboardFacts.Memory_GetTop_eq by (unfold len; lia).
    unfold len. rewrite Nat2Z.id, take_ge; [done|].
    by rewrite (Permutation_length (proj1 (Hsort entries))).
Qed.

(** X5. When the network fails the gist service answers with its
    defaults and leaves the document alone: after a failed fetch
    [AddEntry] returns [false] (even with a zero total, and without
    attempting the write), [GetTop] returns no entries (even for a
    negative limit) and [GetUserPosition] reports not found; after a
    successful fetch and a failed write [AddEntry] returns [false]. *)
Theorem gist_failures_give_defaults
    (entries : list LeaderboardEntry) (net : list bool) (c : Call)
    (limit userID : Z) :
  let gs := {| Gist.document := entries; Gist.network := net |} in
  (Gist.succeeds net 0 = false →
     Gist.AddEntry gs (callUser c) (callUsername c) (callFirstName c)
       (callScore c) (callTotal c) (callNow c)
     = Ok (false, {| Gist.document := entries; Gist.network := drop 1 net |})
     ∧ Gist.GetTop gs limit
       = Ok ([], {| Gist.document := entries; Gist.network := drop 1 net |})
     ∧ Gist.GetUserPosition gs userID
       = Ok ((-1, None),
             {| Gist.document := entries; Gist.network := drop 2 net |}))
  ∧ (Gist.succeeds net 0 = true → Gist.succeeds net 1 = false →
     callTotal c ≠ 0 →
     Gist.AddEntry gs (callUser c) (callUsername c) (callFirstName c)
       (callScore c) (callTotal c) (callNow c)
     = Ok (false, {| Gist.document := entries; Gist.network := drop 2 net |})).
Proof.
  intros gs. unfold gs. split.
  - intros Hfail. split; [|split].
    + by rewrite LeaderboardFacts.Gist_AddEntry_eq, Hfail.
    + revert Hfail. unfold Gist.succeeds, Gist.GetTop, Gist.loadFromGist,
        Gist.roundTrip.
      by destruct net as [|[] rest].
    + unfold Gist.GetUserPosition.
      rewrite LeaderboardFacts.Gist_GetTop_eq, Hfail by lia.
      cbn [mbind result_bind].
      rewrite LeaderboardFacts.Gist_GetTop_eq by done.
      cbn [mbind result_bind]. rewrite drop_drop.
      by destruct (Gist.succeeds (drop 1 net) 0).
  - intros Hfirst Hsecond Htot.
    rewrite LeaderboardFacts.Gist_AddEntry_eq, Hfirst, Hsecond.
    by rewrite decide_False.
Qed.

Lemma Memory_rank_in_top
    (entries : list LeaderboardEntry) (userID : Z) :
  let ms := {| Memory.leaderboard := {| Entries := entries |} |} in
  ∃ top,
    Memory.GetTop ms (len entries) = Ok top
    ∧ top ≡ₚ entries ∧ sortedDescending top
    ∧ ((absent entries userID
        ∧ Memory.GetUserPosition ms userID = Ok (-1, None))
       ∨ (∃ rank entry,
            Memory.GetUserPosition ms userID = Ok (rank, Some entry)
            ∧ 1 ≤ rank ≤ len entries
            ∧ top !! Z.to_nat (rank - 1) = Some entry
            ∧ UserID entry = userID ∧ entry ∈ entries
            ∧ ∀ k other, (k < Z.to_nat (rank - 1))%nat →
                top !! k = Some other → UserID other ≠ userID)).
Proof.
  intros ms. destruct (Hsort entries) as [Hperm Hord].
  exists (sortSlice entries). split.
  { unfold ms. rewrite LeaderboardFacts.Memory_GetTop_eq by (unfold len; lia).
    unfold len. rewrite Nat2Z.id, take_ge; [done|].
    by rewrite (Permutation_length Hperm). }
  split; [done|]. split.
  { intros i j a b Hij Ha Hb. apply LeaderboardFacts.less_false. eauto. }
  destruct (LeaderboardFacts.Memory_GetUserPosition_spec Hsort entries userID)
    as [Hnone Hsome].
  destruct (LeaderboardFacts.stored_or_absent (sortSlice entries) userID)
    as [Habs|(pre & old & post & Hst)].
  - left. assert (absent entries userID)
      by (eapply LeaderboardFacts.absent_perm; [exact Hperm|done]).
    split; [done|]. by apply Hnone.
  - right. exists (len pre + 1), old.
    split; [exact (Hsome pre old post Hst)|].
    destruct Hst as (Heq & Hid & Hpre).
    assert (Hlen : len entries = len pre + 1 + len post).
    { unfold len. rewrite <- (Permutation_length Hperm), Heq.
      rewrite length_app. cbn [length]. lia. }
    replace (Z.to_nat (len pre + 1 - 1)) with (length pre)
      by (unfold len; lia).
    split; [unfold len in *; lia|]. split.
    { rewrite Heq. by apply list_lookup_middle. }
    split; [done|]. split.
    { rewrite <- Hperm, Heq. apply elem_of_app. right. left. }
    intros k other Hk Hother. apply Hpre.
    rewrite Heq, lookup_app_l in Hother by done.
    by eapply list_elem_of_lookup_2.
Qed.

(** X6. The rank of the volatile service is a place in its own top list:
    [GetTop] with the size of the collection returns a sorted arrangement
    of the whole collection, and [GetUserPosition] returns not found
    exactly for a user without an entry, and otherwise a rank between 1
    and the size, with the entry standing at that place of the list, the
    first one of the user there. *)
Theorem Memory_position_is_rank
    (entries : list LeaderboardEntry) (userID : Z) :
  let ms := {| Memory.leaderboard := {| Entries := entries |} |} in
  ∃ top,
    Memory.GetTop ms (len entries) = Ok top
    ∧ top ≡ₚ entries ∧ sortedDescending top
    ∧ ((absent entries userID
        ∧ Memory.GetUserPosition ms userID = Ok (-1, None))
       ∨ (∃ rank entry,
            Memory.GetUserPosition ms userID = Ok (rank, Some entry)
            ∧ 1 ≤ rank ≤ len entries
            ∧ top !! Z.to_nat (rank - 1) = Some entry
            ∧ UserID entry = userID ∧ entry ∈ entries
            ∧ ∀ k other, (k < Z.to_nat (rank - 1))%nat →
                top !! k = Some other → UserID other ≠ userID)).
Proof. apply Memory_rank_in_top. Qed.

(** X7. A user who has just submitted is on the board: after [AddEntry]
    on the volatile service (with a non-zero total), [GetUserPosition]
    finds the user, at a rank between 1 and the size of the collection,
    with an entry of the user that the submission does not beat; on a
    leaderboard that was empty, at rank 1 with the submission itself. *)
Theorem submitted_user_is_ranked
    (ms : Memory.MemoryLeaderboardService) (c : Call) :
  callTotal c ≠ 0 →
  ∃ ms' rank entry,
    Memory.AddEntry ms (callUser c) (callUsername c) (callFirstName c)
      (callScore c) (callTotal c) (callNow c) = Ok (true, ms')
    ∧ Memory.GetUserPosition ms' (callUser c) = Ok (rank, Some entry)
    ∧ 1 ≤ rank ≤ len (Entries (Memory.leaderboard ms'))
    ∧ UserID entry = callUser c
    ∧ ¬ strictlyBetter (entryOf c) entry
    ∧ (Entries (Memory.leaderboard ms) = [] →
       rank = 1 ∧ entry = entryOf c).
Proof.
  intros Htot. rewrite Memory_AddEntry_call by done.
  set (after := merged _ _ _ _ _).
  destruct (merged_has (entryOf c) (Entries (Memory.leaderboard ms)))
    as (e1 & He1 & Hid1 & Hbest1). fold after in He1.
  destruct (Memory_rank_in_top after (callUser c))
    as (top & _ & Hperm & Hsorted & [[Habs _]|Hfound]).
  { exfalso. by apply (Habs e1). }
  destruct Hfound as (rank & entry & Hpos & Hrank & Hat & Hid & Hin & Hfirst).
  eexists _, rank, entry. split; [done|]. split; [exact Hpos|].
  split; [done|]. split; [done|]. split.
  - assert (He1top : e1 ∈ top) by (by rewrite Hperm).
    apply list_elem_of_lookup in He1top as [k Hk].
    destruct (decide (k = Z.to_nat (rank - 1))) as [->|Hne].
    { rewrite Hat in Hk. by injection Hk as ->. }
    destruct (decide (k < Z.to_nat (rank - 1))%nat) as [Hlt|Hge].
    { exfalso. by eapply (Hfirst k e1). }
    eapply not_better_trans; [exact Hbest1|].
    specialize (Hsorted (Z.to_nat (rank - 1)) k entry e1 ltac:(lia) Hat Hk).
    unfold strictlyBetter. lia.
  - intros Hempty. unfold after, merged in Hperm, Hin, Hrank.
    rewrite Hempty in *. cbn in Hperm, Hin, Hrank.
    apply list_elem_of_singleton in Hin. split; [|done].
    unfold len in Hrank. cbn in Hrank. lia.
Qed.

End with_sort.

Lemma gist_agrees_with_memory_witness :
  let entries := [submission 1 "a" "A" 7 10 70 "d"] in
  match Memory.AddEntry {| Memory.leaderboard := {| Entries := entries |} |}
          2 "b" "B" 9 10 "n",
        Gist.AddEntry {| Gist.document := entries; Gist.network := [] |}
          2 "b" "B" 9 10 "n" with
  | Ok (isNewBest, ms'), Ok (isNewBest', gs') =>
      isNewBest' = isNewBest
      ∧ Gist.document gs' = Entries (Memory.leaderboard ms')
  | _, _ => False
  end
  ∧ match Memory.GetUserPosition (H := insertionSort)
            {| Memory.leaderboard := {| Entries := entries |} |} 1,
          Gist.GetUserPosition (H := insertionSort)
            {| Gist.document := entries; Gist.network := [] |} 1 with
    | Ok position, Ok (position', gs') =>
        position' = position ∧ Gist.document gs' = entries
    | _, _ => False
    end.
Proof.
  intros entries.
  destruct (gist_agrees_with_memory (H := insertionSort)
              LeaderboardFacts.insertionSort_contract entries []
              (mkCall 2 "b" "B" 9 10 "n") 10 1 eq_refl eq_refl)
    as (Hadd & _ & Hposition).
  split; [|apply Hposition; vm_compute; discriminate].
  vm_compute in Hadd. vm_compute.
  destruct Hadd as (Hbool & _ & Hvalid).
  split; [exact Hbool|exact (Hvalid eq_refl eq_refl)].
Defined.

Lemma gist_failures_give_defaults_witness :
  let entries := [submission 1 "a" "A" 7 10 70 "d"] in
  Gist.GetUserPosition (H := insertionSort)
    {| Gist.document := entries; Gist.network := [false] |} 1
  = Ok ((-1, None), {| Gist.document := entries; Gist.network := [] |})
  ∧ Gist.AddEntry {| Gist.document := entries; Gist.network := [true; false] |}
      1 "a" "A" 9 10 "n"
    = Ok (false, {| Gist.document := entries; Gist.network := [] |}).
Proof.
  intros entries. split.
  - apply (proj1 (gist_failures_give_defaults (H := insertionSort) entries
                    [false] (mkCall 1 "a" "A" 9 10 "n") 10 1)).
    reflexivity.
  - apply (proj2 (gist_failures_give_defaults (H := insertionSort) entries
                    [true; false] (mkCall 1 "a" "A" 9 10 "n") 10 1));
      [reflexivity|reflexivity|cbn; lia].
Defined.

Lemma Memory_position_is_rank_witness :
  ∃ top,
    Memory.GetTop (H := insertionSort)
      {| Memory.leaderboard :=
           {| Entries := [submission 1 "a" "A" 3 10 30 "d";
                          submission 2 "b" "B" 7 10 70 "d"] |} |}
      (len [submission 1 "a" "A" 3 10 30 "d"; submission 2 "b" "B" 7 10 70 "d"])
    = Ok top
    ∧ top ≡ₚ [submission 1 "a" "A" 3 10 30 "d"; submission 2 "b" "B" 7 10 70 "d"].
Proof.
  destruct (Memory_position_is_rank (H := insertionSort)
              LeaderboardFacts.insertionSort_contract
              [submission 1 "a" "A" 3 10 30 "d"; submission 2 "b" "B" 7 10 70 "d"]
              1) as (top & Htop & Hperm & _).
  exists top. split; assumption.
Defined.

Lemma submitted_user_is_ranked_witness :
  ∃ ms' rank entry,
    Memory.AddEntry Memory.NewMemoryLeaderboardService 1 "a" "A" 7 10 "d"
    = Ok (true, ms')
    ∧ Memory.GetUserPosition (H := insertionSort) ms' 1
      = Ok (rank, Some entry)
    ∧ rank = 1 ∧ entry = entryOf (mkCall 1 "a" "A" 7 10 "d").
Proof.
  destruct (submitted_user_is_ranked (H := insertionSort)
              LeaderboardFacts.insertionSort_contract
              Memory.NewMemoryLeaderboardService (mkCall 1 "a" "A" 7 10 "d"))
    as (ms' & rank & entry & Hadd & Hpos & _ & _ & _ & Hfirst).
  - cbn. lia.
  - exists ms', rank, entry. split; [exact Hadd|]. split; [exact Hpos|].
    apply Hfirst. reflexivity.
Defined.

End SubmissionFacts.

(* ===================================================================== *)
(** * Facts: more on the question file                                    *)
(* ===================================================================== *)

Module LoaderFacts.
Import Go Quiz.

Section with_trim.
Context `{TrimSpaceFn}.

Lemma IndexByte_found s c : 0 ≤ IndexByte s c → contains s c.
Proof.
  intros Hfound. destruct (decide (contains s c)) as [|Habs]; [done|].
  rewrite ParserFacts.IndexByte_absent in Hfound by done. lia.
Qed.

Lemma parseQuestionLine_accepts c question rest d remaining correct :
  ¬ contains question quote → question ≠ EmptyString →
  TrimSpace rest = String d remaining →
  (d = "0"%char ∧ correct = 0) ∨ (d = "1"%char ∧ correct = 1) →
  parseQuestionLine (String c (question +:+ String quote rest))
  = Ok (question, correct, None).
Proof.
  intros Hq Hne Hrest Hd.
  rewrite ParserFacts.parseQuestionLine_quoted by done. cbn zeta.
  rewrite Hrest. rewrite decide_False by (by rewrite ParserFacts.strlen_zero).
  rewrite ParserFacts.str_index_0. cbn [mbind result_bind].
  assert (RuneCountInString question ≠ 0)
    by (by rewrite ParserFacts.runeCount_zero).
  destruct Hd as [[-> ->]|[-> ->]].
  - change (Atoi (stringOfByte "0")) with (0, @None NumError). cbn beta iota.
    rewrite decide_False by lia. by rewrite decide_False by done.
  - change (Atoi (stringOfByte "1")) with (1, @None NumError). cbn beta iota.
    rewrite decide_False by lia. by rewrite decide_False by done.
Qed.

Lemma parseQuestionLine_accepted line question correct :
  parseQuestionLine line = Ok (question, correct, None) →
  ∃ c rest d remaining,
    line = String c (question +:+ String quote rest)
    ∧ ¬ contains question quote ∧ question ≠ EmptyString
    ∧ TrimSpace rest = String d remaining
    ∧ ((d = "0"%char ∧ correct = 0) ∨ (d = "1"%char ∧ correct = 1)).
Proof.
  destruct line as [|c tail]; [done|].
  destruct (decide (contains tail quote)) as [Hc|Hc].
  2:{ by rewrite ParserFacts.parseQuestionLine_unquoted. }
  apply ParserFacts.contains_split in Hc as (text & rest & -> & Htext).
  rewrite ParserFacts.parseQuestionLine_quoted by done. cbn zeta.
  case_decide as Hlen; [done|].
  destruct (TrimSpace rest) as [|d remaining] eqn:Hrest; [done|].
  rewrite ParserFacts.str_index_0. cbn [mbind result_bind].
  pose proof (ParserFacts.Atoi_stringOfByte d) as Hatoi.
  destruct (Atoi (stringOfByte d)) as [v [e|]]; [done|].
  apply andb_true_iff in Hatoi as [Hv%bool_decide_eq_true _].
  case_decide as Hbinary; [done|]. case_decide as Hrunes; [done|].
  intros [= <- <-]. exists c, rest, d, remaining.
  split; [done|]. split; [done|].
  split; [by rewrite <- ParserFacts.runeCount_zero|]. split; [done|].
  destruct (decide (v = 0)) as [Hv0|Hv0].
  - left. split; [|done]. apply ParserFacts.byte_inj.
    change (byte "0") with 48. lia.
  - right. assert (v = 1) as Hv1 by lia. split; [|done].
    apply ParserFacts.byte_inj. change (byte "1") with 49. lia.
Qed.

(** X8. The lines the parser accepts.  [parseQuestionLine] returns a
    question without error exactly for a line made of one byte (which is
    not looked at: it need not be a quote), a non-empty text free of
    quotes, a quote, and a rest that, once trimmed, starts with 0 or 1
    (whatever follows the digit is ignored); the question is that text
    and the correct option that digit. *)
Theorem parseQuestionLine_accepts_iff (line question : string) (correct : Z) :
  parseQuestionLine line = Ok (question, correct, None)
  ↔ ∃ c rest d remaining,
      line = String c (question +:+ String quote rest)
      ∧ ¬ contains question quote ∧ question ≠ EmptyString
      ∧ TrimSpace rest = String d remaining
      ∧ ((d = "0"%char ∧ correct = 0) ∨ (d = "1"%char ∧ correct = 1)).
Proof.
  split; [apply parseQuestionLine_accepted|].
  intros (c & rest & d & remaining & -> & Hq & Hne & Hrest & Hd).
  by eapply parseQuestionLine_accepts.
Qed.

(** *** The questions of a file that parses *)

Lemma scanLoop_filter lines : ∀ questions questionID,
  scanLoop lines questions questionID
  = scanLoop (filter (λ text, TrimSpace text ≠ EmptyString) lines)
      questions questionID.
Proof.
  induction lines as [|text lines IH]; intros questions questionID; [done|].
  cbn [scanLoop]. cbn zeta. case_decide as Hblank.
  - rewrite filter_cons_False by (intros Hne; by apply Hne). apply IH.
  - rewrite filter_cons_True by done. cbn [scanLoop]. cbn zeta.
    rewrite decide_False by done.
    destruct (parseQuestionLine (TrimSpace text)) as [[[q k] [e|]]|];
      cbn [mbind result_bind]; [done| |done].
    apply IH.
Qed.

(** X10. Blank lines among the lines the scanner hands over do not
    count: with the same outcome of the scanner (ended by the end of
    the file, or failed), the lines parse as they do once the blank
    ones are taken out, to the same questions with the same identifiers
    or to the same error.  (A line too long for the scanner, blank or
    not, is not handed over: there the scanner fails.) *)
Theorem blank_lines_are_skipped (lines : list string) (failed : bool) :
  ParseQuizQuestions (Scanned lines failed)
  = ParseQuizQuestions
      (Scanned (filter (λ text, TrimSpace text ≠ EmptyString) lines) failed).
Proof. unfold ParseQuizQuestions. by rewrite scanLoop_filter. Qed.

Lemma scanLoop_success lines : ∀ questions questionID questions',
  MinInt ≤ questionID → questionID + len lines ≤ MaxInt →
  scanLoop lines questions questionID = Ok (questions', None) →
  ∃ new,
    questions' = questions ++ new
    ∧ Forall2 (λ q text,
                 parseQuestionLine (TrimSpace text)
                 = Ok (Question q, Correct q, None)
                 ∧ Options q = [labelFirst; labelSecond])
        new (filter (λ text, TrimSpace text ≠ EmptyString) lines)
    ∧ ∀ k q, new !! k = Some q → ID q = questionID + Z.of_nat k.
Proof.
  induction lines as [|text lines IH];
    intros questions questionID questions' Hmin Hmax.
  - intros [= <-]. exists []. rewrite app_nil_r. split; [done|].
    split; [constructor|]. intros k q. by rewrite lookup_nil.
  - unfold len in Hmax. cbn [length] in Hmax.
    cbn [scanLoop]. cbn zeta. case_decide as Hblank.
    + rewrite filter_cons_False by (intros Hne; by apply Hne).
      apply IH; [done|unfold len; lia].
    + rewrite filter_cons_True by done.
      destruct (parseQuestionLine (TrimSpace text)) as [[[q k] [e|]]|]
        eqn:Hline; cbn [mbind result_bind]; [done| |done].
      unfold int_add. rewrite LeaderboardFacts.wrap_small by lia.
      intros Hrest.
      apply IH in Hrest as (new & -> & Hnew & Hids);
        [|lia|unfold len; lia].
      eexists (_ :: new). split; [by rewrite <- app_assoc|].
      split; [by constructor|].
      intros [|j] q'; cbn.
      * intros [= <-]. cbn. lia.
      * intros Hq'. rewrite (Hids j q' Hq'). lia.
Qed.

(** X9. What a successful parse holds.  When [ParseQuizQuestions]
    returns without error, the scanner had not failed, there is at least
    one question, there is one question for each line that is not blank,
    in the order of the file, built from what [parseQuestionLine] reads
    on that line once trimmed, with the two fixed options, and the
    identifiers count the questions from 1. *)
Theorem ParseQuizQuestions_numbered
    (lines : list string) (failed : bool) (questions : list QuizQuestion) :
  len lines < MaxInt →
  ParseQuizQuestions (Scanned lines failed) = Ok (questions, None) →
  failed = false ∧ 0 < len questions
  ∧ Forall2 (λ q text,
               parseQuestionLine (TrimSpace text)
               = Ok (Question q, Correct q, None)
               ∧ Options q = [labelFirst; labelSecond])
      questions (filter (λ text, TrimSpace text ≠ EmptyString) lines)
  ∧ ∀ k q, questions !! k = Some q → ID q = Z.of_nat k + 1.
Proof.
  intros Hmax. unfold ParseQuizQuestions.
  destruct (scanLoop lines [] 1) as [[qs [e|]]|] eqn:Hscan;
    cbn [mbind result_bind]; [done| |done].
  destruct failed; [done|]. case_decide as Hempty; [done|].
  intros [= <-].
  apply scanLoop_success in Hscan as (new & -> & Hnew & Hids);
    [|done|lia].
  split; [done|]. split; [unfold len in *; lia|]. split; [done|].
  intros k q Hq. rewrite (Hids k q Hq). lia.
Qed.

(** X11. [LoadQuizQuestions] always hands over a catalogue to play
    with: on every file (missing, unreadable, malformed, empty or fine)
    it returns, the catalogue is not empty, every question has two
    options and 0 or 1 as the correct one, and the catalogue is the
    built-in one exactly when the parse failed. *)
Theorem LoadQuizQuestions_always_playable (file : QuestionFile) :
  ∃ questions parsed err,
    LoadQuizQuestions file = Ok questions
    ∧ 0 < len questions
    ∧ Forall Telegram.wellFormed questions
    ∧ ParseQuizQuestions file = Ok (parsed, err)
    ∧ questions = match err with
                  | Some _ => DefaultQuizQuestions
                  | None => parsed
                  end.
Proof.
  destruct (ParserFacts.ParseQuizQuestions_total file)
    as (parsed & err & Hparse & _).
  assert (Hload : LoadQuizQuestions file
                  = Ok match err with
                       | Some _ => DefaultQuizQuestions
                       | None => parsed
                       end).
  { unfold LoadQuizQuestions. rewrite Hparse. cbn. by destruct err. }
  destruct (ParserFacts.LoadQuizQuestions_wellFormed _ _ Hload) as [Hwf Hlen].
  eexists _, parsed, err. by repeat split.
Qed.

End with_trim.

Lemma ParseQuizQuestions_numbered_witness :
  let lines := [String quote ("Pork" +:+ String quote " 1"); "  ";
                String quote ("Chicken" +:+ String quote " 0")] in
  ∃ questions,
    ParseQuizQuestions (H := asciiTrimSpace) (Scanned lines false)
    = Ok (questions, None)
    ∧ ∀ k q, questions !! k = Some q → ID q = Z.of_nat k + 1.
Proof.
  intros lines. eexists. split; [reflexivity|].
  apply (ParseQuizQuestions_numbered (H := asciiTrimSpace) lines false).
  - vm_compute. reflexivity.
  - reflexivity.
Defined.

End LoaderFacts.

(* ===================================================================== *)
(** * Facts: more on the shuffle                                          *)
(* ===================================================================== *)

Module ShuffleReach.
Import Go Quiz Scripted.

(** X12. [ShuffleQuestionsWithLimit] never fails on its limit: it
    returns the first [limit] questions of a shuffle of the catalogue
    when [0 < limit ≤ n], and the whole shuffle for every other limit
    (zero, negative, beyond the catalogue). *)
Theorem ShuffleQuestionsWithLimit_clamps `{Rand} (seed : Z)
    (questions : list QuizQuestion) (limit : Z) :
  rand_contract →
  ∃ shuffled left_out,
    ShuffleQuestionsWithLimit seed questions limit = Ok shuffled
    ∧ shuffled ++ left_out ≡ₚ questions
    ∧ len shuffled
      = (if decide (0 < limit ≤ len questions) then limit else len questions).
Proof.
  intros Hrand. unfold ShuffleQuestionsWithLimit.
  destruct (ShuffleFacts.ShuffleQuestions_perm Hrand seed questions)
    as (all & -> & Hperm & Hlen).
  cbn [mbind result_bind]. unfold slice_to, len. rewrite Hlen.
  destruct (decide (limit ≤ 0 ∨ limit > Z.of_nat (length questions)))
    as [Hout|Hin].
  - rewrite decide_True by lia. rewrite decide_False by lia.
    rewrite Nat2Z.id, take_ge by lia.
    exists all, []. split; [done|]. rewrite app_nil_r. split; [done|].
    by rewrite Hlen.
  - rewrite decide_True by lia. rewrite decide_True by lia.
    exists (take (Z.to_nat limit) all), (drop (Z.to_nat limit) all).
    split; [done|]. rewrite take_drop. split; [done|].
    rewrite length_take. lia.
Qed.

Lemma ShuffleQuestionsWithLimit_clamps_witness :
  ∃ shuffled left_out,
    ShuffleQuestionsWithLimit (H := lcg) 42 DefaultQuizQuestions (-3)
    = Ok shuffled
    ∧ shuffled ++ left_out ≡ₚ DefaultQuizQuestions
    ∧ len shuffled
      = (if decide (0 < -3 ≤ len DefaultQuizQuestions) then -3
         else len DefaultQuizQuestions).
Proof.
  apply (ShuffleQuestionsWithLimit_clamps (H := lcg) 42 DefaultQuizQuestions
           (-3) ShuffleFacts.lcg_contract).
Defined.

(** *** Every order can come out *)

Lemma scripted_contract script : @rand_contract (scripted script).
Proof. intros r n Hn. cbn. apply Z.mod_pos_bound. lia. Qed.

Lemma drop_agree_lookup {A} (a b : list A) n k :
  drop n a = drop n b → a !! (n + k)%nat = b !! (n + k)%nat.
Proof. intros Heq. by rewrite <- !lookup_drop, Heq. Qed.

(** The loop entered at [i] on an array that already agrees with
    [target] behind [i]: some script leads it to [target]. *)
Lemma fisherYates_reaches s0 i : ∀ a target,
  (i < length a ∨ i = 0)%nat →
  a ≡ₚ target → drop (S i) a = drop (S i) target →
  ∃ script, fisherYates (H := scripted s0) i script a = Ok target.
Proof.
  induction i as [|i IH]; intros a target Hi Hperm Hdrop.
  - exists []. cbn [fisherYates]. f_equal.
    destruct a as [|x a], target as [|y target]; try done.
    + by apply Permutation_nil_l in Hperm.
    + by apply Permutation_nil_r in Hperm.
    + cbn in Hdrop. rewrite !drop_0 in Hdrop. subst target.
      by apply (inj (λ z, z :: a)) in Hperm as ->.
  - assert (Hlen : length target = length a)
      by (symmetry; by apply Permutation_length).
    destruct (lookup_lt_is_Some_2 target (S i)) as [y Hy]; [lia|].
    assert (Htake : take (S (S i)) a ≡ₚ take (S (S i)) target).
    { apply (inj (λ l, l ++ drop (S (S i)) a)).
      rewrite take_drop, Hdrop, take_drop. done. }
    assert (Hin : y ∈ take (S (S i)) a).
    { rewrite Htake. apply list_elem_of_lookup. exists (S i).
      rewrite lookup_take_lt by lia. done. }
    apply list_elem_of_lookup in Hin as [j [Hj Hjlt]%lookup_take_Some].
    destruct (lookup_lt_is_Some_2 a (S i)) as [x Hx]; [lia|].
    set (a1 := <[j := x]> (<[S i := y]> a)).
    assert (Hperm1 : a1 ≡ₚ target).
    { unfold a1. rewrite <- Hperm. by apply Permutation_insert_swap. }
    assert (Hat : a1 !! S i = Some y).
    { unfold a1. destruct (decide (j = S i)) as [->|Hne].
      - rewrite list_insert_insert_eq. rewrite Hx in Hj. injection Hj as ->.
        by rewrite list_insert_id.
      - rewrite list_lookup_insert_ne by done.
        by rewrite list_lookup_insert_eq by lia. }
    assert (Hdrop1 : drop (S i) a1 = drop (S i) target).
    { apply list_eq. intros [|k]; rewrite !lookup_drop.
      - rewrite Nat.add_0_r. congruence.
      - unfold a1. rewrite !list_lookup_insert_ne by lia.
        replace (S i + S k)%nat with (S (S i) + k)%nat by lia.
        by apply drop_agree_lookup. }
    destruct (IH a1 target) as [script Hscript];
      [unfold a1; rewrite !length_insert; lia|done|done|].
    exists (Z.of_nat j :: script). cbn [fisherYates].
    unfold IntnChecked. rewrite decide_False by lia.
    cbn [Intn scripted hd tl]. rewrite Z.mod_small by lia.
    cbn [mbind result_bind]. unfold swap.
    destruct (ShuffleFacts.index_in_range a (Z.of_nat (S i)))
      as (x' & -> & Hx'); [unfold len; lia|].
    destruct (ShuffleFacts.index_in_range a (Z.of_nat j))
      as (y' & -> & Hy'); [unfold len; lia|].
    rewrite Nat2Z.id in Hx', Hy'. rewrite Hx in Hx'. rewrite Hj in Hy'.
    injection Hx' as <-. injection Hy' as <-.
    cbn [mbind result_bind]. rewrite !Nat2Z.id. exact Hscript.
Qed.

Lemma fisherYates_script_only s0 s1 i : ∀ (r : list Z) a,
  fisherYates (H := scripted s0) i r a = fisherYates (H := scripted s1) i r a.
Proof.
  induction i as [|i IH]; intros r a; [done|].
  cbn [fisherYates]. unfold IntnChecked. case_decide; [done|].
  cbn [Intn scripted mbind result_bind].
  destruct (swap a (Z.of_nat (S i)) _); cbn [mbind result_bind]; [|done].
  apply IH.
Qed.

(** X13. The shuffle excludes no order: for every arrangement of the
    catalogue there are outcomes of [Intn], each within the range asked
    for, on which [ShuffleQuestions] returns exactly that arrangement. *)
Theorem every_order_can_come_out (seed : Z)
    (questions target : list QuizQuestion) :
  target ≡ₚ questions →
  ∃ script,
    @rand_contract (scripted script)
    ∧ ShuffleQuestions (H := scripted script) seed questions = Ok target.
Proof.
  intros Hperm.
  destruct (fisherYates_reaches [] (length questions - 1) questions target)
    as [script Hscript]; [lia|done| |].
  { rewrite !drop_ge; [done|rewrite (Permutation_length Hperm)|]; lia. }
  exists script. split; [apply scripted_contract|].
  unfold ShuffleQuestions. cbn [NewSource scripted].
  by rewrite (fisherYates_script_only script []).
Qed.

Lemma every_order_can_come_out_witness :
  ∃ script,
    @rand_contract (scripted script)
    ∧ ShuffleQuestions (H := scripted script) 0 DefaultQuizQuestions
      = Ok (reverse DefaultQuizQuestions).
Proof.
  apply (every_order_can_come_out 0 DefaultQuizQuestions
           (reverse DefaultQuizQuestions)).
  apply reverse_Permutation.
Defined.

End ShuffleReach.

(* ===================================================================== *)
(** * Facts about the handlers                                            *)
(* ===================================================================== *)

Module HandlerFacts.
Import Go Telegram Handlers.

(** ** The callback switch *)

Lemma HasPrefix_app prefix s : HasPrefix (prefix +:+ s) prefix = true.
Proof.
  induction prefix as [|c prefix IH]; [by destruct s|].
  rewrite ParserFacts.append_String. cbn [HasPrefix].
  by rewrite decide_True.
Qed.

Lemma dispatch_quiz data :
  HasPrefix data "quiz_" = true → dispatch data = ToQuizAnswer.
Proof.
  intros Hprefix. unfold dispatch. case_decide as Hstart.
  - subst data. discriminate Hprefix.
  - by rewrite Hprefix.
Qed.

Lemma dispatch_callbackData questionIndex i :
  dispatch (callbackData questionIndex i) = ToQuizAnswer.
Proof.
  apply dispatch_quiz. unfold callbackData. apply HasPrefix_app.
Qed.

Section with_rand_and_sort.
Context `{Quiz.Rand} `{Leaderboard.SortSlice}.

(** X14. Every question the bot sends carries one button per option, in
    the order of the options, and the callback data of the button of
    option [i] of question [questionIndex] is routed by the switch of
    [handleCallback] to [handleQuizAnswer], which reads the two indices
    back out of it: pressing the button submits exactly answer [i] to
    question [questionIndex]. *)
Theorem buttons_submit_their_option (b : Bot) (chatID questionIndex : Z)
    (session : Quiz.QuizSession) (question : Quiz.QuizQuestion) :
  quizSessions b !! chatID = Some session →
  index (Quiz.Questions session) questionIndex = Ok question →
  len (Quiz.Questions session) ≤ MaxInt →
  len (Quiz.Options question) ≤ MaxInt →
  ∃ buttons,
    sendQuestion b chatID questionIndex
    = Ok (send b (QuestionMessage chatID (questionIndex + 1)
                    (len (Quiz.Questions session)) (Quiz.Question question)
                    buttons))
    ∧ length buttons = length (Quiz.Options question)
    ∧ ∀ (i : nat) label data,
        buttons !! i = Some (label, data) →
        Quiz.Options question !! i = Some label
        ∧ dispatch data = ToQuizAnswer
        ∧ ∀ b2 user seed now,
            handleCallback b2 chatID data user seed now
            = (b3 ← submitAnswer b2 chatID questionIndex (Z.of_nat i) user now;
               Ok (b3, [])).
Proof.
  intros Hs Hq Hmax Hopts.
  pose proof Hq as [Hq0 Hlookup]%ShuffleFacts.index_Ok.
  apply lookup_lt_Some in Hlookup.
  assert (Hmin : MinInt < 0) by done.
  eexists. split; [|split].
  - unfold sendQuestion. rewrite Hs.
    rewrite decide_False by (unfold len; lia). rewrite Hq.
    cbn [mbind result_bind]. unfold int_add.
    rewrite LeaderboardFacts.wrap_small by (unfold len in Hmax; lia).
    reflexivity.
  - by rewrite length_imap.
  - intros i label data Hbutton.
    rewrite list_lookup_imap in Hbutton.
    destruct (Quiz.Options question !! i) as [option|] eqn:Hoption;
      [|discriminate Hbutton].
    cbn in Hbutton. injection Hbutton as <- <-.
    apply lookup_lt_Some in Hoption. unfold len in Hopts, Hmax.
    split; [done|]. split; [apply dispatch_callbackData|].
    intros b2 user seed now. unfold handleCallback.
    rewrite dispatch_callbackData.
    by rewrite TelegramFacts.handleQuizAnswer_callbackData by lia.
Qed.

End with_rand_and_sort.

(** ** What one call can change *)

Section with_sort.
Context `{Leaderboard.SortSlice}.

Lemma sendQuestion_frame b chatID questionIndex b' :
  sendQuestion b chatID questionIndex = Ok b' →
  quizSessions b' = quizSessions b ∧ quizQuestions b' = quizQuestions b
  ∧ leaderboardService b' = leaderboardService b.
Proof.
  unfold sendQuestion.
  destruct (quizSessions b !! chatID) as [session|]; [|by intros [= <-]].
  case_decide; [by intros [= <-]|].
  destruct (index _ _) as [question|]; [|done].
  by intros [= <-].
Qed.

Lemma Gist_GetTop_document gs limit top gs' :
  Leaderboard.Gist.GetTop gs limit = Ok (top, gs') →
  Leaderboard.Gist.document gs' = Leaderboard.Gist.document gs.
Proof.
  unfold Leaderboard.Gist.GetTop, Leaderboard.Gist.loadFromGist,
    Leaderboard.Gist.roundTrip.
  destruct gs as [document [|[] net]]; cbn.
  - destruct (slice_to _ _); [|done]. by intros [= _ <-].
  - destruct (slice_to _ _); [|done]. by intros [= _ <-].
  - by intros [= _ <-].
Qed.

Lemma GetTop_stored svc limit top svc' :
  GetTop svc limit = Ok (top, svc') → stored svc' = stored svc.
Proof.
  destruct svc as [ms|gs]; unfold GetTop.
  - destruct (Leaderboard.Memory.GetTop ms limit); [|done].
    by intros [= _ <-].
  - destruct (Leaderboard.Gist.GetTop gs limit) as [[top1 gs1]|] eqn:Htop;
      [|done].
    intros [= _ <-]. by eapply Gist_GetTop_document.
Qed.

Lemma GetUserPosition_stored svc userID position svc' :
  GetUserPosition svc userID = Ok (position, svc') → stored svc' = stored svc.
Proof.
  destruct svc as [ms|gs]; unfold GetUserPosition.
  - destruct (Leaderboard.Memory.GetUserPosition ms userID); [|done].
    by intros [= _ <-].
  - unfold Leaderboard.Gist.GetUserPosition.
    destruct (Leaderboard.Gist.GetTop gs 1000) as [[all gs1]|] eqn:Hall;
      [|done].
    cbn [mbind result_bind].
    destruct (Leaderboard.Gist.GetTop gs1 (len all)) as [[top gs2]|] eqn:Htop;
      [|done].
    intros [= _ <-]. cbn [stored].
    apply Gist_GetTop_document in Hall, Htop. congruence.
Qed.

Lemma finishQuiz_inv b chatID exited user now b' :
  finishQuiz b chatID exited user now = Ok b' →
  quizQuestions b' = quizQuestions b
  ∧ quizSessions b' = delete chatID (quizSessions b)
  ∧ (leaderboardService b' = leaderboardService b
     ∨ exited = false
       ∧ ∃ session isNewBest svc,
           quizSessions b !! chatID = Some session
           ∧ AddEntry (leaderboardService b) (ID user) (UserName user)
               (FirstName user) (Quiz.Score session)
               (len (Quiz.Questions session)) now
             = Ok (isNewBest, svc)
           ∧ stored (leaderboardService b') = stored svc).
Proof.
  unfold finishQuiz.
  destruct (quizSessions b !! chatID) as [session|] eqn:Hs.
  2:{ intros [= <-]. split; [done|]. split; [|by left].
      by rewrite delete_id. }
  destruct exited.
  { intros [= <-]. split; [done|]. split; [done|]. by left. }
  destruct (int_div _ _) as [percentage|]; [|done].
  cbn [mbind result_bind withSessions leaderboardService].
  destruct (AddEntry _ _ _ _ _ _ _) as [[isNewBest svc]|] eqn:Hadd; [|done].
  cbn [mbind result_bind]. destruct isNewBest.
  - cbn [withService leaderboardService].
    destruct (GetUserPosition svc (ID user)) as [[[position entry] svc2]|]
      eqn:Hpos; [|done].
    cbn [mbind result_bind]. intros [= <-].
    split; [done|]. split; [done|]. right. split; [done|].
    exists session, true, svc. split; [done|]. split; [done|].
    cbn. by eapply GetUserPosition_stored.
  - intros [= <-]. split; [done|]. split; [done|]. right. split; [done|].
    by exists session, false, svc.
Qed.

Lemma submitAnswer_inv b chatID questionIndex i user now b' :
  submitAnswer b chatID questionIndex i user now = Ok b' →
  quizQuestions b' = quizQuestions b
  ∧ (∀ c, c ≠ chatID → quizSessions b' !! c = quizSessions b !! c)
  ∧ (leaderboardService b' = leaderboardService b
     ∨ ∃ session score isNewBest svc,
         quizSessions b !! chatID = Some session
         ∧ quizSessions b' !! chatID = None
         ∧ len (Quiz.Questions session)
           ≤ int_add (Quiz.CurrentQuestion session) 1
         ∧ (score = Quiz.Score session
            ∨ score = int_add (Quiz.Score session) 1)
         ∧ AddEntry (leaderboardService b) (ID user) (UserName user)
             (FirstName user) score (len (Quiz.Questions session)) now
           = Ok (isNewBest, svc)
         ∧ stored (leaderboardService b') = stored svc).
Proof.
  unfold submitAnswer.
  destruct (quizSessions b !! chatID) as [session|] eqn:Hs.
  2:{ intros [= <-]. split; [done|]. split; [done|]. by left. }
  destruct (index (Quiz.Questions session) questionIndex) as [question|];
    [|done].
  cbn [mbind result_bind].
  set (answered := if bool_decide (i = Quiz.Correct question) then _ else _).
  assert (Hanswered : ∀ r, answered = Ok r →
    Quiz.Questions r.1 = Quiz.Questions session
    ∧ Quiz.CurrentQuestion r.1 = Quiz.CurrentQuestion session
    ∧ (Quiz.Score r.1 = Quiz.Score session
       ∨ Quiz.Score r.1 = int_add (Quiz.Score session) 1)).
  { intros r. unfold answered. case_bool_decide.
    - intros [= <-]. cbn. by auto.
    - destruct (index (Quiz.Options question) (Quiz.Correct question));
        [|done].
      intros [= <-]. cbn. by auto. }
  destruct answered as [[session1 msg]|]; [|done].
  destruct (Hanswered _ eq_refl) as (Hqs & Hcur & Hscore). cbn [fst] in *.
  cbn [mbind result_bind Quiz.Questions Quiz.CurrentQuestion Quiz.Score].
  rewrite Hqs, Hcur. case_decide as Hnext.
  - intros (Hsessions & Hquestions & Hsvc)%sendQuestion_frame.
    split; [done|]. split; [|by left].
    intros c Hc. rewrite Hsessions. cbn. by rewrite lookup_insert_ne.
  - intros (Hquestions & Hsessions & Hsvc)%finishQuiz_inv.
    split; [done|]. split.
    { intros c Hc. rewrite Hsessions. cbn.
      by rewrite lookup_delete_ne, lookup_insert_ne. }
    destruct Hsvc as [Hsvc|(_ & session2 & isNewBest & svc & Hs2 & Hadd & Hst)];
      [by left|].
    right. cbn in Hs2. rewrite lookup_insert_eq in Hs2.
    injection Hs2 as <-.
    cbn [Quiz.Score Quiz.Questions] in Hadd.
    exists session, (Quiz.Score session1), isNewBest, svc.
    split; [done|]. split.
    { rewrite Hsessions. cbn. by rewrite lookup_delete_eq. }
    split; [lia|]. by split.
Qed.

Lemma handleQuizAnswer_inv b chatID data user now b' :
  handleQuizAnswer b chatID data user now = Ok b' →
  quizQuestions b' = quizQuestions b
  ∧ (∀ c, c ≠ chatID → quizSessions b' !! c = quizSessions b !! c)
  ∧ (leaderboardService b' = leaderboardService b
     ∨ ∃ session score isNewBest svc,
         quizSessions b !! chatID = Some session
         ∧ quizSessions b' !! chatID = None
         ∧ len (Quiz.Questions session)
           ≤ int_add (Quiz.CurrentQuestion session) 1
         ∧ (score = Quiz.Score session
            ∨ score = int_add (Quiz.Score session) 1)
         ∧ AddEntry (leaderboardService b) (ID user) (UserName user)
             (FirstName user) score (len (Quiz.Questions session)) now
           = Ok (isNewBest, svc)
         ∧ stored (leaderboardService b') = stored svc).
Proof.
  unfold handleQuizAnswer. case_decide.
  { intros [= <-]. split; [done|]. split; [done|]. by left. }
  destruct (index _ 1) as [part1|]; [|done].
  destruct (index _ 2) as [part2|]; [|done].
  cbn [mbind result_bind]. apply submitAnswer_inv.
Qed.

Lemma handleLeaderboard_stored svc chatID notice svc' :
  handleLeaderboard svc chatID = Ok (notice, svc') → stored svc' = stored svc.
Proof.
  unfold handleLeaderboard.
  destruct (GetTop svc 10) as [[top svc1]|] eqn:Htop; [|done].
  cbn [mbind result_bind]. apply GetTop_stored in Htop.
  case_decide; by intros [= _ <-].
Qed.

End with_sort.

Section with_rand_and_sort.
Context `{Quiz.Rand} `{Leaderboard.SortSlice}.

Lemma startQuiz_inv b chatID seed b' :
  startQuiz b chatID seed = Ok b' →
  ∃ shuffled,
    Quiz.ShuffleQuestions seed (quizQuestions b) = Ok shuffled
    ∧ quizSessions b'
      = <[chatID := {| Quiz.UserID := chatID; Quiz.CurrentQuestion := 0;
                       Quiz.Score := 0; Quiz.Questions := shuffled |}]>
          (quizSessions b)
    ∧ quizQuestions b' = quizQuestions b
    ∧ leaderboardService b' = leaderboardService b.
Proof.
  unfold startQuiz.
  destruct (Quiz.ShuffleQuestions seed (quizQuestions b)) as [shuffled|];
    [|done].
  cbn [mbind result_bind].
  intros (Hsessions & Hquestions & Hsvc)%sendQuestion_frame.
  by exists shuffled.
Qed.

Lemma handleCallback_inv b chatID data user seed now b' notices :
  handleCallback b chatID data user seed now = Ok (b', notices) →
  quizQuestions b' = quizQuestions b
  ∧ (∀ c, c ≠ chatID → quizSessions b' !! c = quizSessions b !! c)
  ∧ (stored (leaderboardService b') = stored (leaderboardService b)
     ∨ dispatch data = ToQuizAnswer
       ∧ ∃ session score isNewBest svc,
           quizSessions b !! chatID = Some session
           ∧ quizSessions b' !! chatID = None
           ∧ len (Quiz.Questions session)
             ≤ int_add (Quiz.CurrentQuestion session) 1
           ∧ (score = Quiz.Score session
              ∨ score = int_add (Quiz.Score session) 1)
           ∧ AddEntry (leaderboardService b) (ID user) (UserName user)
               (FirstName user) score (len (Quiz.Questions session)) now
             = Ok (isNewBest, svc)
           ∧ stored (leaderboardService b') = stored svc).
Proof.
  unfold handleCallback. destruct (dispatch data) eqn:Hroute.
  - destruct (startQuiz b chatID seed) as [b1|] eqn:Hstart; [|done].
    intros [= <- _].
    apply startQuiz_inv in Hstart
      as (shuffled & _ & Hsessions & Hquestions & Hsvc).
    split; [done|]. split; [|left; by rewrite Hsvc].
    intros c Hc. rewrite Hsessions. by rewrite lookup_insert_ne.
  - destruct (handleQuizAnswer b chatID data user now) as [b1|] eqn:Hanswer;
      [|done].
    intros [= <- _].
    apply handleQuizAnswer_inv in Hanswer as (Hquestions & Hsessions & Hsvc).
    split; [done|]. split; [done|].
    destruct Hsvc as [Hsvc|Hdone]; [left; by rewrite Hsvc|by right].
  - destruct (finishQuiz b chatID true user now) as [b1|] eqn:Hfinish;
      [|done].
    intros [= <- _].
    apply finishQuiz_inv in Hfinish as (Hquestions & Hsessions & Hsvc).
    split; [done|]. split.
    { intros c Hc. rewrite Hsessions. by rewrite lookup_delete_ne. }
    destruct Hsvc as [Hsvc|[Hexited _]]; [left; by rewrite Hsvc|done].
  - intros [= <- _]. split; [done|]. split; [done|]. by left.
  - intros [= <- _]. split; [done|]. split; [done|]. by left.
  - destruct (handleLeaderboard (leaderboardService b) chatID)
      as [[notice svc]|] eqn:Hboard; [|done].
    intros [= <- _]. apply handleLeaderboard_stored in Hboard.
    split; [done|]. split; [done|]. by left.
  - intros [= <- _]. split; [done|]. split; [done|]. by left.
Qed.

(** X15. A callback of one chat leaves the other chats alone: whatever
    the callback data, when [handleCallback] returns, the session of
    every other chat is what it was (there or not there), and so is the
    catalogue of questions. *)
Theorem callback_touches_one_chat (b : Bot) (chatID : Z) (data : string)
    (user : User) (seed : Z) (now : string) (b' : Bot)
    (notices : list Notice) :
  handleCallback b chatID data user seed now = Ok (b', notices) →
  quizQuestions b' = quizQuestions b
  ∧ ∀ c, c ≠ chatID → quizSessions b' !! c = quizSessions b !! c.
Proof.
  intros (Hquestions & Hsessions & _)%handleCallback_inv. by split.
Qed.

(** X16. The leaderboard is written by nothing but the answer that
    completes a quiz.  When [handleCallback] returns, the entries the
    service keeps are what they were, unless the callback was routed to
    [handleQuizAnswer], the chat had a session, that session is gone
    afterwards, its question counter has reached the number of its
    questions, and the entries are those left by one [AddEntry] for the
    user with the score of the session, or that score plus one.
    Starting a quiz, leaving one through the exit button, the menu, the
    info page and the leaderboard page never change an entry. *)
Theorem leaderboard_written_only_on_completion (b : Bot) (chatID : Z)
    (data : string) (user : User) (seed : Z) (now : string) (b' : Bot)
    (notices : list Notice) :
  handleCallback b chatID data user seed now = Ok (b', notices) →
  stored (leaderboardService b') = stored (leaderboardService b)
  ∨ dispatch data = ToQuizAnswer
    ∧ ∃ session score isNewBest svc,
        quizSessions b !! chatID = Some session
        ∧ quizSessions b' !! chatID = None
        ∧ len (Quiz.Questions session)
          ≤ int_add (Quiz.CurrentQuestion session) 1
        ∧ (score = Quiz.Score session
           ∨ score = int_add (Quiz.Score session) 1)
        ∧ AddEntry (leaderboardService b) (ID user) (UserName user)
            (FirstName user) score (len (Quiz.Questions session)) now
          = Ok (isNewBest, svc)
        ∧ stored (leaderboardService b') = stored svc.
Proof.
  by intros (_ & _ & Hsvc)%handleCallback_inv.
Qed.

End with_rand_and_sort.

(** ** A quiz from the first question to the last *)

Section with_sort.
Context `{Leaderboard.SortSlice}.

Lemma finishQuiz_recorded b chatID user now session :
  quizSessions b !! chatID = Some session →
  0 < len (Quiz.Questions session) →
  0 ≤ Quiz.Score session → Quiz.Score session * 100 ≤ MaxInt →
  ∃ b', finishQuiz b chatID false user now = Ok b'
        ∧ quizSessions b' = delete chatID (quizSessions b)
        ∧ quizQuestions b' = quizQuestions b
        ∧ recorded chatID user now (leaderboardService b)
            (Quiz.Score session) (len (Quiz.Questions session)) b'.
Proof.
  intros Hs Hlen Hscore Hmax. unfold finishQuiz, recorded. rewrite Hs.
  rewrite LeaderboardFacts.int_div_nonzero by lia.
  rewrite LeaderboardFacts.percentage_floor by done.
  cbn [mbind result_bind withSessions leaderboardService].
  destruct (TelegramFacts.AddEntry_total (leaderboardService b)
              (ID user) (UserName user) (FirstName user)
              (Quiz.Score session) (len (Quiz.Questions session)) now)
    as (isNewBest & svc & Hadd); [lia|].
  rewrite Hadd. cbn [mbind result_bind]. destruct isNewBest.
  - cbn [withService leaderboardService].
    destruct (TelegramFacts.GetUserPosition_total svc (ID user))
      as (position & entry & svc2 & Hpos).
    rewrite Hpos. cbn [mbind result_bind].
    eexists. split; [done|]. split; [done|]. split; [done|].
    exists true, svc. split; [done|].
    exists position, entry, svc2. split; [done|]. split; [done|].
    cbn. by rewrite last_snoc.
  - eexists. split; [done|]. split; [done|]. split; [done|].
    exists false, svc. split; [done|]. split; [done|].
    cbn. by rewrite last_snoc.
Qed.

Lemma submitAnswer_outcome b chatID questionIndex i user now session
    question :
  quizSessions b !! chatID = Some session →
  index (Quiz.Questions session) questionIndex = Ok question →
  wellFormed question →
  0 ≤ Quiz.Score session ≤ Quiz.CurrentQuestion session →
  Quiz.CurrentQuestion session < len (Quiz.Questions session) →
  len (Quiz.Questions session) * 100 ≤ MaxInt →
  let score :=
    Quiz.Score session + (if decide (i = Quiz.Correct question) then 1 else 0) in
  ∃ b', submitAnswer b chatID questionIndex i user now = Ok b'
        ∧ quizQuestions b' = quizQuestions b
        ∧ if decide (Quiz.CurrentQuestion session + 1
                     < len (Quiz.Questions session))
          then quizSessions b' !! chatID
               = Some {| Quiz.UserID := Quiz.UserID session;
                         Quiz.CurrentQuestion :=
                           Quiz.CurrentQuestion session + 1;
                         Quiz.Score := score;
                         Quiz.Questions := Quiz.Questions session |}
               ∧ leaderboardService b' = leaderboardService b
          else quizSessions b' !! chatID = None
               ∧ recorded chatID user now (leaderboardService b) score
                   (len (Quiz.Questions session)) b'.
Proof.
  intros Hs Hq [Hopts Hcorrect] Hscore Hcur Hmax score.
  destruct session as [uid cur sc questions]. cbn in *.
  assert (Hmin : MinInt < 0) by done.
  unfold submitAnswer. rewrite Hs. cbn [Quiz.Questions].
  rewrite Hq. cbn [mbind result_bind Quiz.Score Quiz.CurrentQuestion
    Quiz.UserID Quiz.Questions].
  assert (Hgain : sc ≤ score ≤ sc + 1)
    by (unfold score; destruct (decide (i = Quiz.Correct question)); lia).
  assert (Hanswered : ∃ msg,
    (if bool_decide (i = Quiz.Correct question)
     then Ok ({| Quiz.UserID := uid; Quiz.CurrentQuestion := cur;
                 Quiz.Score := int_add sc 1; Quiz.Questions := questions |},
              CorrectMessage chatID)
     else correctAnswer ← index (Quiz.Options question) (Quiz.Correct question);
          Ok ({| Quiz.UserID := uid; Quiz.CurrentQuestion := cur;
                 Quiz.Score := sc; Quiz.Questions := questions |},
              WrongMessage chatID correctAnswer))
    = Ok ({| Quiz.UserID := uid; Quiz.CurrentQuestion := cur;
             Quiz.Score := score; Quiz.Questions := questions |}, msg)).
  { unfold score. case_bool_decide as Hi.
    - rewrite decide_True by done. eexists. unfold int_add.
      by rewrite LeaderboardFacts.wrap_small by lia.
    - rewrite decide_False by done.
      destruct (ShuffleFacts.index_in_range (Quiz.Options question)
                  (Quiz.Correct question)) as (answer & -> & _);
        [unfold len; lia|].
      cbn. eexists. by rewrite Z.add_0_r. }
  destruct Hanswered as [msg ->]. clearbody score.
  cbn [mbind result_bind Quiz.Score Quiz.CurrentQuestion Quiz.UserID
    Quiz.Questions].
  unfold int_add. rewrite LeaderboardFacts.wrap_small by lia.
  case_decide as Hnext.
  - destruct (TelegramFacts.sendQuestion_keeps
                (withSessions (send b msg)
                   (<[chatID := {| Quiz.UserID := uid;
                                   Quiz.CurrentQuestion := cur + 1;
                                   Quiz.Score := score;
                                   Quiz.Questions := questions |}]>
                      (quizSessions (send b msg))))
                chatID (cur + 1)) as (b' & Hsend & Hsessions & Hquestions);
      [lia|].
    rewrite Hsend. apply sendQuestion_frame in Hsend as (_ & _ & Hsvc).
    exists b'. split; [done|]. split; [done|]. split; [|done].
    rewrite Hsessions. cbn. by rewrite lookup_insert_eq.
  - destruct (finishQuiz_recorded
                (withSessions (send b msg)
                   (<[chatID := {| Quiz.UserID := uid;
                                   Quiz.CurrentQuestion := cur + 1;
                                   Quiz.Score := score;
                                   Quiz.Questions := questions |}]>
                      (quizSessions (send b msg))))
                chatID user now
                {| Quiz.UserID := uid; Quiz.CurrentQuestion := cur + 1;
                   Quiz.Score := score; Quiz.Questions := questions |})
      as (b' & -> & Hsessions & Hquestions & Hrecorded);
      [cbn; by rewrite lookup_insert_eq|cbn; lia|cbn; lia|cbn; lia|].
    exists b'. split; [done|]. split; [done|].
    rewrite Hsessions. cbn. split; [by rewrite lookup_delete_eq|done].
Qed.

Lemma pressAll_outcome chatID user now answers : ∀ b session,
  quizSessions b !! chatID = Some session →
  Forall wellFormed (Quiz.Questions session) →
  len (Quiz.Questions session) * 100 ≤ MaxInt →
  0 ≤ Quiz.Score session ≤ Quiz.CurrentQuestion session →
  Quiz.CurrentQuestion session < len (Quiz.Questions session) →
  Quiz.CurrentQuestion session + len answers ≤ len (Quiz.Questions session) →
  Forall (validAnswer (len (Quiz.Questions session))) answers →
  0 ≤ correctAnswers (Quiz.Questions session) answers ≤ len answers
  ∧ ∃ b',
      pressAll b chatID user now answers = Ok b'
      ∧ match quizSessions b' !! chatID with
        | Some session' =>
            Quiz.CurrentQuestion session + len answers
            < len (Quiz.Questions session)
            ∧ leaderboardService b' = leaderboardService b
        | None =>
            Quiz.CurrentQuestion session + len answers
            = len (Quiz.Questions session)
            ∧ recorded chatID user now (leaderboardService b)
                (Quiz.Score session
                 + correctAnswers (Quiz.Questions session) answers)
                (len (Quiz.Questions session)) b'
        end.
Proof.
  induction answers as [|[questionIndex i] answers IH];
    intros b session Hs Hwf Hmax Hscore Hopen Hroom Hvalid.
  - split; [done|]. exists b. split; [done|].
    rewrite Hs. split; [|done].
    change (len (@nil (Z * Z))) with 0. lia.
  - apply Forall_cons in Hvalid as [[Hq Hi] Hvalid]. cbn [fst snd] in Hq, Hi.
    rewrite TelegramFacts.len_cons in Hroom.
    pose proof (TelegramFacts.len_nonneg answers) as Hlen.
    assert (Hmin : MinInt < 0) by done.
    destruct (ShuffleFacts.index_in_range (Quiz.Questions session)
                questionIndex Hq) as (question & Hquestion & Hlookup).
    assert (Hwfq : wellFormed question)
      by (by eapply (Forall_lookup_1 _ _ _ _ Hwf)).
    cbn [pressAll correctAnswers]. rewrite Hquestion.
    rewrite TelegramFacts.handleQuizAnswer_callbackData by lia.
    destruct (submitAnswer_outcome b chatID questionIndex i user now session
                question Hs Hquestion Hwfq Hscore ltac:(lia) Hmax)
      as (b1 & -> & Hquestions & Hstep).
    cbn [mbind result_bind]. rewrite TelegramFacts.len_cons.
    set (gain := if decide (i = Quiz.Correct question) then 1 else 0) in *.
    assert (Hgain : 0 ≤ gain ≤ 1)
      by (unfold gain; destruct (decide (i = Quiz.Correct question)); lia).
    clearbody gain.
    destruct (decide (Quiz.CurrentQuestion session + 1
                      < len (Quiz.Questions session))) as [Hnext|Hnext].
    + destruct Hstep as [Hstep Hsvc].
      destruct (IH b1 _ Hstep) as (Hcount & b' & -> & Hend);
        cbn [Quiz.Questions Quiz.Score Quiz.CurrentQuestion];
        [done|done|lia|lia|lia|done|].
      cbn [Quiz.Questions Quiz.Score Quiz.CurrentQuestion] in Hcount, Hend.
      split; [lia|]. exists b'. split; [done|].
      destruct (quizSessions b' !! chatID) as [session'|].
      * destruct Hend as (Hleft & ->). split; [lia|done].
      * destruct Hend as (Hfull & Hrecorded). split; [lia|].
        rewrite <- Hsvc, Z.add_assoc. exact Hrecorded.
    + destruct Hstep as (Hnone & Hrecorded).
      assert (answers = []) as ->.
      { destruct answers; [done|]. rewrite TelegramFacts.len_cons in *.
        pose proof (TelegramFacts.len_nonneg answers). lia. }
      cbn [pressAll correctAnswers len length] in *.
      split; [lia|]. exists b1. split; [done|].
      rewrite Hnone. split; [lia|]. by rewrite Z.add_0_r.
Qed.

End with_sort.

Section with_rand_and_sort.
Context `{Quiz.Rand} `{Leaderboard.SortSlice} (Hrand : Quiz.rand_contract).

(** X17. What a quiz amounts to.  A quiz is started on a catalogue of
    well-formed questions that is not empty, and [k] answers, each to a
    question of the session, are pressed on the buttons of the bot.  No
    call panics.  While [k] is less than the number of questions the
    session stays and the leaderboard service is exactly what it was
    before the quiz: an unfinished quiz records nothing.  With the
    answer that makes [k] the number of questions the session is
    removed, and the bot has called [AddEntry] once, for the user who
    pressed, with the number of correct answers and the number of
    questions, has looked up the rank when [AddEntry] returned [true],
    and has sent as last message the score, the floor of
    [score * 100 / total] and that rank. *)
Theorem quiz_outcome (b : Bot) (chatID seed : Z) (user : User)
    (now : string) (answers : list (Z * Z)) :
  Forall wellFormed (quizQuestions b) →
  0 < len (quizQuestions b) →
  len (quizQuestions b) * 100 ≤ MaxInt →
  Forall (validAnswer (len (quizQuestions b))) answers →
  len answers ≤ len (quizQuestions b) →
  ∃ b0 session0 b',
    startQuiz b chatID seed = Ok b0
    ∧ quizSessions b0 !! chatID = Some session0
    ∧ pressAll b0 chatID user now answers = Ok b'
    ∧ match quizSessions b' !! chatID with
      | Some session =>
          len answers < len (quizQuestions b)
          ∧ leaderboardService b' = leaderboardService b
      | None =>
          len answers = len (quizQuestions b)
          ∧ recorded chatID user now (leaderboardService b)
              (correctAnswers (Quiz.Questions session0) answers)
              (len (quizQuestions b)) b'
      end.
Proof.
  intros Hwf Hpos Hmax Hvalid Hroom.
  destruct (TelegramFacts.startQuiz_started Hrand b chatID seed)
    as (b0 & shuffled & Hstart & Hperm & Hquestions & Hsessions).
  pose proof Hstart as (? & _ & _ & _ & Hsvc)%startQuiz_inv.
  assert (Hlen : len shuffled = len (quizQuestions b))
    by (unfold len; f_equal; by apply Permutation_length).
  set (session0 := {| Quiz.UserID := chatID; Quiz.CurrentQuestion := 0;
                      Quiz.Score := 0; Quiz.Questions := shuffled |}).
  assert (Hs : quizSessions b0 !! chatID = Some session0)
    by (rewrite Hsessions; apply lookup_insert_eq).
  destruct (pressAll_outcome chatID user now answers b0 session0 Hs)
    as (Hcount & b' & Hrun & Hend); cbn [session0 Quiz.Questions
      Quiz.Score Quiz.CurrentQuestion];
    [by rewrite Hperm|lia|lia|lia|lia|by rewrite Hlen|].
  exists b0, session0, b'. repeat (split; [done|]).
  cbn [session0 Quiz.Questions Quiz.Score Quiz.CurrentQuestion] in *.
  destruct (quizSessions b' !! chatID) as [session|] eqn:Hafter.
  - destruct Hend as (Hleft & Hsvc'). split; [lia|congruence].
  - destruct Hend as (Hfull & Hrecorded). split; [lia|].
    rewrite Hsvc, Hlen, Z.add_0_l in Hrecorded. exact Hrecorded.
Qed.

End with_rand_and_sort.

(** ** Starting over, and the leaderboard page *)

Section with_rand_and_sort.
Context `{Quiz.Rand} `{Leaderboard.SortSlice} (Hrand : Quiz.rand_contract).

(** X18. Starting a quiz always gives the chat a new session, with
    question 0, score 0 and a rearrangement of the whole catalogue; a
    session the chat had is replaced, its score dropped, and the
    leaderboard service is not touched.  The first question of the new
    order is sent with its buttons; on an empty catalogue the session is
    created all the same and nothing is sent. *)
Theorem startQuiz_starts_over (b : Bot) (chatID seed : Z) :
  ∃ b' shuffled,
    startQuiz b chatID seed = Ok b'
    ∧ shuffled ≡ₚ quizQuestions b
    ∧ quizSessions b'
      = <[chatID := {| Quiz.UserID := chatID; Quiz.CurrentQuestion := 0;
                       Quiz.Score := 0; Quiz.Questions := shuffled |}]>
          (quizSessions b)
    ∧ leaderboardService b' = leaderboardService b
    ∧ quizQuestions b' = quizQuestions b
    ∧ sent b'
      = sent b
        ++ match shuffled with
           | [] => []
           | question :: _ =>
               [QuestionMessage chatID 1 (len shuffled)
                  (Quiz.Question question)
                  (imap (λ i option, (option, callbackData 0 (Z.of_nat i)))
                     (Quiz.Options question))]
           end.
Proof.
  unfold startQuiz.
  destruct (ShuffleFacts.ShuffleQuestions_perm Hrand seed (quizQuestions b))
    as (shuffled & -> & Hperm & _).
  cbn [mbind result_bind]. unfold sendQuestion.
  cbn [withSessions quizSessions]. rewrite lookup_insert_eq.
  cbn [Quiz.Questions]. destruct shuffled as [|question rest].
  - rewrite decide_True by done.
    eexists _, []. split; [done|]. split; [done|]. split; [done|].
    split; [done|]. split; [done|]. cbn. by rewrite app_nil_r.
  - rewrite decide_False
      by (pose proof (TelegramFacts.len_nonneg rest);
          rewrite TelegramFacts.len_cons; lia).
    change (index (question :: rest) 0) with (Ok question).
    cbn [mbind result_bind].
    eexists _, (question :: rest). split; [done|]. split; [done|]. done.
Qed.

End with_rand_and_sort.

Section with_sort.
Context `{Leaderboard.SortSlice} (Hsort : Leaderboard.sort_contract).

Lemma sortSlice_sortedDescending l :
  Leaderboard.sortedDescending (Leaderboard.sortSlice l).
Proof.
  rewrite <- (take_ge (Leaderboard.sortSlice l)
                (length (Leaderboard.sortSlice l))) by lia.
  by apply LeaderboardFacts.take_sortedDescending.
Qed.

(** X19. The leaderboard page never panics and changes no entry.  It
    shows the ten best entries, or all of them when there are fewer:
    [min(10, n)] rows, made in order from the head of an arrangement of
    all the entries that is sorted descending by percentage, ties
    descending by score, so that row [k] (from 0) has place [k + 1].
    The notice that there are no results is sent only when the service
    keeps no entry, or when it is the gist service and its fetch
    failed. *)
Theorem leaderboard_page (svc : LeaderboardService) (chatID : Z) :
  ∃ notice svc',
    handleLeaderboard svc chatID = Ok (notice, svc')
    ∧ stored svc' = stored svc
    ∧ match notice with
      | LeaderboardTop c rows =>
          c = chatID
          ∧ len rows = 10 `min` len (stored svc)
          ∧ 0 < len rows
          ∧ ∃ top rest,
              top ++ rest ≡ₚ stored svc
              ∧ Leaderboard.sortedDescending (top ++ rest)
              ∧ rows = imap rowOf top
      | LeaderboardEmpty c =>
          c = chatID
          ∧ (stored svc = []
             ∨ ∃ gs, svc = GistService gs
                     ∧ Leaderboard.Gist.succeeds
                         (Leaderboard.Gist.network gs) 0 = false)
      | _ => False
      end.
Proof.
  assert (Hpage : ∀ entries,
    let top := take (Z.to_nat 10) (Leaderboard.sortSlice entries) in
    (len top = 0 → entries = [])
    ∧ (len top ≠ 0 →
       len (imap rowOf top) = 10 `min` len entries
       ∧ 0 < len (imap rowOf top)
       ∧ ∃ top' rest,
           top' ++ rest ≡ₚ entries
           ∧ Leaderboard.sortedDescending (top' ++ rest)
           ∧ imap rowOf top = imap rowOf top')).
  { intros entries top.
    assert (Hlen : len top = 10 `min` len entries).
    { unfold top. rewrite LeaderboardFacts.len_take_min by lia.
      by rewrite LeaderboardFacts.sortSlice_len. }
    split.
    - intros Hzero. rewrite Hzero in Hlen. unfold len in Hlen.
      destruct entries; [done|]. cbn [length] in Hlen. lia.
    - intros Hsome. pose proof (TelegramFacts.len_nonneg top).
      assert (Hrows : len (imap rowOf top) = len top)
        by (unfold len; by rewrite length_imap).
      split; [by rewrite Hrows|]. split; [lia|].
      exists top, (drop (Z.to_nat 10) (Leaderboard.sortSlice entries)).
      unfold top. rewrite take_drop.
      split; [apply Hsort|]. split; [apply sortSlice_sortedDescending|done]. }
  destruct svc as [[[entries]]|[entries net]];
    unfold handleLeaderboard, GetTop.
  - rewrite LeaderboardFacts.Memory_GetTop_eq by lia.
    cbn [mbind result_bind stored Leaderboard.Memory.leaderboard
      Leaderboard.Entries].
    destruct (Hpage entries) as [Hzero Hsome]. case_decide as Hlen.
    + eexists _, _. split; [done|]. split; [done|]. split; [done|].
      left. by apply Hzero.
    + eexists _, _. split; [done|]. split; [done|]. split; [done|].
      by apply Hsome.
  - rewrite LeaderboardFacts.Gist_GetTop_eq by lia.
    cbn [mbind result_bind stored Leaderboard.Gist.document].
    destruct (Hpage entries) as [Hzero Hsome].
    destruct (Leaderboard.Gist.succeeds net 0) eqn:Hfetch.
    + case_decide as Hlen.
      * eexists _, _. split; [done|]. split; [done|]. split; [done|].
        left. by apply Hzero.
      * eexists _, _. split; [done|]. split; [done|]. split; [done|].
        by apply Hsome.
    + rewrite decide_True by done.
      eexists _, _. split; [done|]. split; [done|]. split; [done|].
      right. by eexists.
Qed.

End with_sort.

(** ** The theorems at work *)

Lemma buttons_submit_their_option_witness :
  ∃ session question buttons,
    quizSessions midQuiz !! 1 = Some session
    ∧ index (Quiz.Questions session) 0 = Ok question
    ∧ sendQuestion midQuiz 1 0
      = Ok (send midQuiz
              (QuestionMessage 1 (0 + 1) (len (Quiz.Questions session))
                 (Quiz.Question question) buttons))
    ∧ length buttons = 2%nat.
Proof.
  set (session := {| Quiz.UserID := 1; Quiz.CurrentQuestion := 0;
                     Quiz.Score := 0;
                     Quiz.Questions := Quiz.DefaultQuizQuestions |}).
  destruct (index (Quiz.Questions session) 0) as [question|] eqn:Hq;
    [|discriminate Hq].
  destruct (buttons_submit_their_option (H := Quiz.lcg)
              (H0 := Leaderboard.insertionSort) midQuiz 1 0 session question)
    as (buttons & Hsend & Hlen & _).
  - reflexivity.
  - exact Hq.
  - vm_compute. discriminate.
  - injection Hq as <-. vm_compute. discriminate.
  - exists session, question, buttons. split; [reflexivity|].
    split; [exact Hq|]. split; [exact Hsend|].
    rewrite Hlen. by injection Hq as <-.
Defined.

Lemma callback_touches_one_chat_witness :
  let other := {| Quiz.UserID := 2; Quiz.CurrentQuestion := 1;
                  Quiz.Score := 1;
                  Quiz.Questions := Quiz.DefaultQuizQuestions |} in
  let b := withSessions midQuiz (<[2 := other]> (quizSessions midQuiz)) in
  ∃ b' notices,
    handleCallback (H := Quiz.lcg) (H0 := Leaderboard.insertionSort)
      b 1 "exit_quiz" sampleUser 42 "n" = Ok (b', notices)
    ∧ quizSessions b' !! 1 = None
    ∧ quizSessions b' !! 2 = Some other.
Proof.
  intros other b.
  destruct (handleCallback (H := Quiz.lcg) (H0 := Leaderboard.insertionSort)
              b 1 "exit_quiz" sampleUser 42 "n") as [[b' notices]|] eqn:Hcall;
    [|discriminate Hcall].
  exists b', notices. split; [reflexivity|].
  destruct (callback_touches_one_chat (H := Quiz.lcg)
              (H0 := Leaderboard.insertionSort)
              b 1 "exit_quiz" sampleUser 42 "n" b' notices Hcall)
    as [_ Hothers].
  split.
  - by injection Hcall as <- _.
  - rewrite Hothers by done. reflexivity.
Defined.

Lemma leaderboard_written_only_on_completion_witness :
  let last := {| Quiz.UserID := 1; Quiz.CurrentQuestion := 1;
                 Quiz.Score := 1;
                 Quiz.Questions := Quiz.DefaultQuizQuestions |} in
  let b := withSessions midQuiz {[ 1 := last ]} in
  ∃ b' notices,
    handleCallback (H := Quiz.lcg) (H0 := Leaderboard.insertionSort)
      b 1 "quiz_1_1" sampleUser 42 "n" = Ok (b', notices)
    ∧ (stored (leaderboardService b') = stored (leaderboardService b)
       ∨ dispatch "quiz_1_1" = ToQuizAnswer
         ∧ ∃ session score isNewBest svc,
             quizSessions b !! 1 = Some session
             ∧ quizSessions b' !! 1 = None
             ∧ len (Quiz.Questions session)
               ≤ int_add (Quiz.CurrentQuestion session) 1
             ∧ (score = Quiz.Score session
                ∨ score = int_add (Quiz.Score session) 1)
             ∧ AddEntry (leaderboardService b) (ID sampleUser)
                 (UserName sampleUser) (FirstName sampleUser) score
                 (len (Quiz.Questions session)) "n"
               = Ok (isNewBest, svc)
             ∧ stored (leaderboardService b') = stored svc).
Proof.
  intros last b.
  destruct (handleCallback (H := Quiz.lcg) (H0 := Leaderboard.insertionSort)
              b 1 "quiz_1_1" sampleUser 42 "n") as [[b' notices]|] eqn:Hcall;
    [|discriminate Hcall].
  exists b', notices. split; [reflexivity|].
  exact (leaderboard_written_only_on_completion (H := Quiz.lcg)
           (H0 := Leaderboard.insertionSort)
           b 1 "quiz_1_1" sampleUser 42 "n" b' notices Hcall).
Defined.

Lemma quiz_outcome_witness :
  ∃ b0 session0 b',
    startQuiz (H := Quiz.lcg) freshBot 1 42 = Ok b0
    ∧ quizSessions b0 !! 1 = Some session0
    ∧ pressAll (H := Leaderboard.insertionSort) b0 1 sampleUser "n"
        [(0, 0); (1, 1)] = Ok b'
    ∧ match quizSessions b' !! 1 with
      | Some session =>
          len [(0, 0); (1, 1)] < len (quizQuestions freshBot)
          ∧ leaderboardService b' = leaderboardService freshBot
      | None =>
          len [(0, 0); (1, 1)] = len (quizQuestions freshBot)
          ∧ recorded (H := Leaderboard.insertionSort) 1 sampleUser "n"
              (leaderboardService freshBot)
              (correctAnswers (Quiz.Questions session0) [(0, 0); (1, 1)])
              (len (quizQuestions freshBot)) b'
      end.
Proof.
  apply (quiz_outcome (H := Quiz.lcg) (H0 := Leaderboard.insertionSort)
           ShuffleFacts.lcg_contract freshBot 1 42 sampleUser "n"
           [(0, 0); (1, 1)]).
  - apply TelegramFacts.DefaultQuizQuestions_wellFormed.
  - reflexivity.
  - vm_compute. discriminate.
  - apply Forall_cons. split; [by vm_compute|].
    apply Forall_cons. split; [by vm_compute|]. constructor.
  - vm_compute. discriminate.
Defined.

Lemma startQuiz_starts_over_witness :
  ∃ b' shuffled,
    startQuiz (H := Quiz.lcg) midQuiz 1 42 = Ok b'
    ∧ shuffled ≡ₚ quizQuestions midQuiz
    ∧ quizSessions b' !! 1
      = Some {| Quiz.UserID := 1; Quiz.CurrentQuestion := 0;
                Quiz.Score := 0; Quiz.Questions := shuffled |}
    ∧ leaderboardService b' = leaderboardService midQuiz.
Proof.
  destruct (startQuiz_starts_over (H := Quiz.lcg) ShuffleFacts.lcg_contract
              midQuiz 1 42)
    as (b' & shuffled & Hstart & Hperm & Hsessions & Hsvc & _).
  exists b', shuffled. split; [exact Hstart|]. split; [exact Hperm|].
  split; [|exact Hsvc]. rewrite Hsessions. apply lookup_insert_eq.
Defined.

Lemma leaderboard_page_witness :
  ∃ notice svc',
    handleLeaderboard (H := Leaderboard.insertionSort)
      (MemoryService Leaderboard.Memory.NewMemoryLeaderboardService) 1
    = Ok (notice, svc')
    ∧ notice = LeaderboardEmpty 1.
Proof.
  destruct (leaderboard_page (H := Leaderboard.insertionSort)
              LeaderboardFacts.insertionSort_contract
              (MemoryService Leaderboard.Memory.NewMemoryLeaderboardService) 1)
    as (notice & svc' & Hpage & _ & Hnotice).
  exists notice, svc'. split; [exact Hpage|].
  injection Hpage as <- _. reflexivity.
Defined.

End HandlerFacts.
